(** * pybumpchart: rank derivation and label-collision resolution

    A shallow embedding of [pybumpchart/labels.py] (the greedy label
    layout, [detect_label_collisions]) and of [pybumpchart/data.py]
    ([validate_dataframe], [calculate_ranks], [_validate_ranks],
    [prepare_data]).

    Conventions of the embedding.
    - A Python [float] that is a number is an exact rational ([Q]); the
      rounding of [+] and [-] is not modelled.  A float column that may
      hold NaN is a column of [option Q], [None] being NaN.  The one
      property that rounding decides, the distance between adjusted
      labels, is stated on [LabelsBinary64], where the positions are
      binary64 floats and [+], [-] and [<] are those of the machine.
    - A Python function that may raise returns a [result]: [Ok v] for a
      normal return, [Err e] for the exception [e].
    - Lists that the code indexes or writes by position use stdpp's
      lookup [l !! i] and insert [<[i:=v]> l]. *)

From Stdlib Require Import QArith Qabs Lqa.
From Stdlib Require Import Floats.PrimFloat.
From Stdlib Require Floats.FloatOps OrdersEx.
From stdpp Require Import base list strings gmap.

Set Default Proof Using "Type".
Set Warnings "-inexact-float".

(** ** Exceptions *)

(** The payload of a [ValueError]: one constructor per [raise] site of
    [data.py] that a typed frame can reach (see [validate_dataframe]). *)
Inductive ValueErrorMsg : Type :=
  | DataFrameIsEmpty
  | EitherRankOrValue
  | AllRankValuesNaN
  | RankValuesNonNegative
  | DuplicateEntityTime (dup_rows : list (Z * string)).

Inductive exn : Type :=
  | ValueError (msg : ValueErrorMsg)
  | IndexError.

Inductive result (A : Type) : Type :=
  | Ok (v : A)
  | Err (e : exn).
Arguments Ok {A} v.
Arguments Err {A} e.

#[global] Instance result_ret : MRet result := λ A v, Ok v.
#[global] Instance result_bind : MBind result := λ A B k r,
  match r with
  | Ok v => k v
  | Err e => Err e
  end.

(** The error taxonomy of the specification, and how the exceptions of
    the code fall into it. *)
Inductive ErrorKind : Type := InvalidInput | DuplicateKey.

Definition error_kind (e : exn) : option ErrorKind :=
  match e with
  | ValueError (DuplicateEntityTime _) => Some DuplicateKey
  | ValueError _ => Some InvalidInput
  | IndexError => None
  end.

Definition fails_with {A : Type} (r : result A) (k : ErrorKind) : Prop :=
  ∃ e, r = Err e ∧ error_kind e = Some k.

Definition succeeds {A : Type} (r : result A) : Prop := ∃ v, r = Ok v.

(** ** Floats as rationals *)

(** [a < b] on floats, as a boolean. *)
Definition Qltb (a b : Q) : bool := negb (Qle_bool b a).

(** [float(n)] for a count [n]. *)
Definition Qnat (n : nat) : Q := inject_Z (Z.of_nat n).

(** ** Stable sorting *)

(** Python's [sorted] and pandas' multi-key [sort_values] are stable:
    entries that compare equal keep their input order.  A stable sort is
    determined by its comparison, and is computed here by insertion:
    an entry goes in front of the first entry that it does not exceed. *)
Section StableSort.
Context {A : Type} (leb : A → A → bool).

Fixpoint insert_sorted (x : A) (l : list A) : list A :=
  match l with
  | [] => [x]
  | y :: l' => if leb x y then x :: y :: l' else y :: insert_sorted x l'
  end.

Definition stable_sort (l : list A) : list A := foldr insert_sorted [] l.

(** [l] is in order: every entry is [leb] all later ones. *)
Fixpoint in_order (l : list A) : Prop :=
  match l with
  | [] => True
  | x :: l' => (∀ y, y ∈ l' → leb x y = true) ∧ in_order l'
  end.
End StableSort.

(** [enumerate(l)]. *)
Definition enumerate {A : Type} (l : list A) : list (nat * A) :=
  zip (seq 0 (length l)) l.

(** [Series.unique()] and [drop_duplicates()]: the distinct values, in
    order of first appearance. *)
Fixpoint unique {A : Type} `{EqDecision A} (l : list A) : list A :=
  match l with
  | [] => []
  | x :: l' => x :: filter (λ y, y ≠ x) (unique l')
  end.

(** * Label layout ([labels.py]) *)

Module Labels.

(** [tuple[str, float]]: a label text and its vertical position.  The
    positions are numbers: the caller, [get_endpoint_positions], drops
    every NaN rank before it builds the list. *)
Abbreviation Label := (string * Q)%type.

(** [sorted(labels, key=lambda x: x[1])]. *)
Definition by_y (a b : Label) : bool := Qle_bool a.2 b.2.

Definition sorted (labels : list Label) : list Label := stable_sort by_y labels.

(** One iteration of the [for] loop, lines 176-186; [adjusted[-1]] on an
    empty list raises [IndexError]. *)
Definition loop_body (min_distance : Q) (acc : result (list Label))
    (item : nat * Label) : result (list Label) :=
  adjusted ← acc;
  let '(i, (text, y)) := item in
  if (i =? 0)%nat then Ok (adjusted ++ [(text, y)])
  else
    match last adjusted with
    | None => Err IndexError
    | Some (_prev_text, prev_y) =>
        if Qltb (y - prev_y) min_distance
        then let new_y := (prev_y + min_distance)%Q in
             Ok (adjusted ++ [(text, new_y)])
        else Ok (adjusted ++ [(text, y)])
    end.

Definition detect_label_collisions (labels : list Label) (min_distance : Q)
    : result (list Label) :=
  if (length labels <=? 1)%nat then Ok labels
  else
    let sorted_labels := sorted labels in
    fold_left (loop_body min_distance) (enumerate sorted_labels) (Ok []).

(** The loop as a recursion on the sorted list that carries the last
    adjusted position; [detect_label_collisions] is shown to compute it
    (lemma [loop_adjust]). *)
Fixpoint adjust_from (min_distance prev_y : Q) (rest : list Label) : list Label :=
  match rest with
  | [] => []
  | (text, y) :: rest' =>
      let new_y :=
        if Qltb (y - prev_y) min_distance then (prev_y + min_distance)%Q else y in
      (text, new_y) :: adjust_from min_distance new_y rest'
  end.

Definition adjust (min_distance : Q) (sorted_labels : list Label) : list Label :=
  match sorted_labels with
  | [] => []
  | (text, y) :: rest => (text, y) :: adjust_from min_distance y rest
  end.

(** Consecutive entries of [l] are at least [d] apart. *)
Definition separated (d : Q) (l : list Label) : Prop :=
  ∀ i a b, l !! i = Some a → l !! S i = Some b → (d <= b.2 - a.2)%Q.

(** Every entry of [l] is at least [d] above the one before it, [prev]
    being the one before the first. *)
Fixpoint gaps (d prev : Q) (l : list Label) : Prop :=
  match l with
  | [] => True
  | a :: l' => (d <= a.2 - prev)%Q ∧ gaps d a.2 l'
  end.

(** The entry at index [i] is the anchor of [labels]: no entry lies
    below it, and every entry before it in the input lies strictly
    above it. *)
Definition anchor_at (labels : list Label) (i : nat) (a : Label) : Prop :=
  labels !! i = Some a ∧
  ∀ j b, labels !! j = Some b →
    (a.2 <= b.2)%Q ∧ ((j < i)%nat → (a.2 < b.2)%Q).

End Labels.

(** * Label layout on binary64 floats ([labels.py], lines 168-188) *)

Module LabelsBinary64.

(** [tuple[str, float]], the position being the binary64 float that it
    is in the code. *)
Abbreviation Label := (string * float)%type.

(** [sorted(labels, key=lambda x: x[1])].  The positions are numbers (the
    caller, [get_endpoint_positions], drops every NaN), and on numbers
    the comparison of floats is a total preorder. *)
Definition by_y (a b : Label) : bool := (a.2 <=? b.2)%float.

Definition sorted (labels : list Label) : list Label := stable_sort by_y labels.

(** One iteration of the [for] loop, lines 176-186: [y - prev_y],
    [prev_y + min_distance] and [<] are the operations of binary64. *)
Definition loop_body (min_distance : float) (acc : result (list Label))
    (item : nat * Label) : result (list Label) :=
  adjusted ← acc;
  let '(i, (text, y)) := item in
  if (i =? 0)%nat then Ok (adjusted ++ [(text, y)])
  else
    match last adjusted with
    | None => Err IndexError
    | Some (_prev_text, prev_y) =>
        if (y - prev_y <? min_distance)%float
        then let new_y := (prev_y + min_distance)%float in
             Ok (adjusted ++ [(text, new_y)])
        else Ok (adjusted ++ [(text, y)])
    end.

(** [detect_label_collisions], lines 168-188. *)
Definition detect_label_collisions (labels : list Label) (min_distance : float)
    : result (list Label) :=
  if (length labels <=? 1)%nat then Ok labels
  else
    let sorted_labels := sorted labels in
    fold_left (loop_body min_distance) (enumerate sorted_labels) (Ok []).

(** The loop as a recursion on the sorted list that carries the last
    adjusted position; [detect_label_collisions] is shown to compute it
    (lemma [loop_adjust_binary64]). *)
Fixpoint adjust_from (min_distance prev_y : float) (rest : list Label)
    : list Label :=
  match rest with
  | [] => []
  | (text, y) :: rest' =>
      let new_y :=
        if (y - prev_y <? min_distance)%float
        then (prev_y + min_distance)%float else y in
      (text, new_y) :: adjust_from min_distance new_y rest'
  end.

Definition adjust (min_distance : float) (sorted_labels : list Label)
    : list Label :=
  match sorted_labels with
  | [] => []
  | (text, y) :: rest => (text, y) :: adjust_from min_distance y rest
  end.

(** The position [y] is settled after the position [prev]: it is the
    binary64 sum of [prev] and the distance, or the binary64 difference
    of the two is not less than the distance. *)
Definition settled (d prev y : float) : Prop :=
  y = (prev + d)%float ∨ (y - prev <? d)%float = false.

(** Consecutive entries of [l] are separated up to rounding: each is
    settled after the one before it. *)
Definition separated (d : float) (l : list Label) : Prop :=
  ∀ i a b, l !! i = Some a → l !! S i = Some b → settled d a.2 b.2.

(** Every entry of [l] is settled after the one before it, [prev] being
    the one before the first. *)
Fixpoint chain (d prev : float) (l : list Label) : Prop :=
  match l with
  | [] => True
  | a :: l' => settled d prev a.2 ∧ chain d a.2 l'
  end.

(** The number that a finite float stands for. *)
Definition exact (x : float) : Q :=
  match FloatOps.Prim2SF x with
  | SpecFloat.S754_finite s m e =>
      let v := (inject_Z (Z.pos m) * 2 ^ e)%Q in
      if s then (- v)%Q else v
  | _ => 0%Q
  end.

End LabelsBinary64.

(** * Rank derivation ([data.py]) *)

Module Data.

(** [TieMethod = Literal["average", "min", "max", "first", "dense"]]. *)
Inductive TieMethod : Type := Average | Min | Max | First | Dense.

(** One row of the input frame.  [time_col] and [entity_col] select the
    fields [time] and [entity], which are never null; a rank or value
    column is a float column, NaN where the observation is absent. *)
Record Row : Type := mkRow {
  time : Z;
  entity : string;
  rank : option Q;
  value : option Q;
}.

Abbreviation DataFrame := (list Row).

(** A column name that resolves to a float column of the frame. *)
Abbreviation Column := (Row → option Q).

(** A row of the prepared frame: the input row and its ["_rank"]. *)
Record RankedRow : Type := mkRanked {
  source : Row;
  _rank : option Q;
}.

(** [validate_dataframe], lines 43-61.  Frames and column names are
    typed here, so the [isinstance] test and the three tests that a named
    column exists always pass; the two remaining tests are kept. *)
Definition validate_dataframe (df : DataFrame) (rank_col value_col : option Column)
    : result unit :=
  if bool_decide (df = []) then Err (ValueError DataFrameIsEmpty)
  else
    match rank_col, value_col with
    | None, None => Err (ValueError EitherRankOrValue)
    | _, _ => Ok ()
    end.

(** *** The rank primitive

    [calculate_ranks] is one call of the dataframe library's
    [groupby(...).rank(...)].  The library is not part of the repository;
    the definitions from [precedes] to [groupby_rank] model that call
    from section 4.1 of the specification. *)

(** An observation of a group: its source position and its value. *)
Abbreviation Item := (nat * option Q)%type.

(** Modelled from the spec: the order of step 1 of the library's rank,
    "sort observations by value according to direction; observations with
    an absent value are ordered after all present values regardless of
    direction".  [precedes ascending a b]: value [a] is ordered no later
    than [b]. *)
Definition precedes (ascending : bool) (a b : option Q) : bool :=
  match a, b with
  | Some x, Some y => if ascending then Qle_bool x y else Qle_bool y x
  | Some _, None => true
  | None, Some _ => false
  | None, None => true
  end.

(** Modelled from the spec: the ties of step 3 of the library's rank.
    Equal values tie; with [na_option="bottom"] the absent values are
    ranked as one value, so they tie with each other. *)
Definition tied (a b : option Q) : bool :=
  match a, b with
  | Some x, Some y => Qeq_bool x y
  | None, None => true
  | _, _ => false
  end.

(** Modelled from the spec: step 1 of the library's rank, a stable sort
    of the group. *)
Definition sort_group (ascending : bool) (g : list Item) : list Item :=
  stable_sort (λ a b, precedes ascending a.2 b.2) g.

(** Modelled from the spec: step 2 of the library's rank, the 1-based
    competition rank of each position of a sorted group. *)
Definition competition (s : list Item) : list (Item * nat) :=
  zip s (seq 1 (length s)).

(** Modelled from the spec: the competition ranks that the observations
    tied with [v] occupy. *)
Definition tie_ranks (s : list Item) (v : option Q) : list nat :=
  (filter (λ xr : Item * nat, tied xr.1.2 v) (competition s)).*2.

Definition min_list (l : list nat) : nat :=
  match l with
  | [] => 0
  | x :: l' => foldr Nat.min x l'
  end.

(** Modelled from the spec: the [dense] method, "ranks increase by
    exactly 1 for each distinct value encountered".  The number of
    distinct values met along a sorted list. *)
Fixpoint distinct_runs (s : list Item) : nat :=
  match s with
  | [] => 0
  | x :: s' =>
      match s' with
      | [] => 1
      | y :: _ => if tied x.2 y.2 then distinct_runs s' else S (distinct_runs s')
      end
  end.

(** Modelled from the spec: step 3 of the library's rank.  The rank of
    the observation at position [p] (0-based) of the sorted group [s],
    whose value is [v]: the mean, the smallest or the largest of the
    competition ranks of the observations tied with it, its own
    competition rank, or the number of distinct values met so far. *)
Definition resolve (method : TieMethod) (s : list Item) (p : nat) (v : option Q) : Q :=
  match method with
  | Average =>
      (Qnat (sum_list (tie_ranks s v)) / Qnat (length (tie_ranks s v)))%Q
  | Min => Qnat (min_list (tie_ranks s v))
  | Max => Qnat (max_list (tie_ranks s v))
  | First => Qnat (S p)
  | Dense => Qnat (distinct_runs (take (S p) s))
  end.

(** Modelled from the spec: steps 1 to 3 of the library's rank on one
    group; each rank comes with the source position it belongs to. *)
Definition rank_group (ascending : bool) (method : TieMethod) (g : list Item)
    : list (nat * Q) :=
  let s := sort_group ascending g in
  imap (λ p x, (x.1, resolve method s p x.2)) s.

(** The observations of time period [t], in input order. *)
Definition group_items (df : DataFrame) (value_col : Column) (t : Z) : list Item :=
  (filter (λ x : Z * Item, x.1 = t) (imap (λ i r, (time r, (i, value_col r))) df)).*2.

(** Modelled from the spec: step 4 of the library's rank, "rank values
    are scattered back to source positions".  Every rank is written at its
    source position of a series of length [n]. *)
Definition scatter (n : nat) (assigned : list (nat * Q)) : list (option Q) :=
  foldl (λ out ir, <[ir.1 := Some ir.2]> out) (replicate n None) assigned.

(** Modelled from the spec: the rank primitive of the dataframe library,
    [df.groupby(time_col)[value_col].rank(method, ascending,
    na_option="bottom")], which [calculate_ranks] (lines 182-184) calls
    and which is not part of the repository.  It follows section 4.1: per
    time period, sort by value in the given direction with absent values
    last, give each sorted position its 1-based competition rank, resolve
    ties by the method, and write each rank back at the source position
    of its observation.  With [na_option="bottom"] the absent values of a
    period are ranked too, and tie with each other. *)
Definition groupby_rank (df : DataFrame) (value_col : Column)
    (method : TieMethod) (ascending : bool) : list (option Q) :=
  scatter (length df)
    (t ← remove_dups (time <$> df);
     rank_group ascending method (group_items df value_col t)).

(** [calculate_ranks], lines 182-184. *)
Definition calculate_ranks (df : DataFrame) (value_col : Column)
    (ascending : bool) (method : TieMethod) : list (option Q) :=
  groupby_rank df value_col method ascending.

(** *** Validation of the ranks *)

Definition isna (x : option Q) : bool :=
  match x with None => true | Some _ => false end.

(** [Series.dropna()]. *)
Definition dropna (l : list (option Q)) : list Q := omap id l.

Definition key (r : RankedRow) : Z * string := (time (source r), entity (source r)).

(** [df.duplicated(subset=[time_col, entity_col], keep=False)]: a row is
    marked when its (time, entity) pair occurs more than once. *)
Definition duplicated (df : list RankedRow) : list bool :=
  (λ r, bool_decide (2 ≤ length (filter (λ k, k = key r) (key <$> df)))) <$> df.

(** [df[duplicates][[time_col, entity_col]].drop_duplicates()]: the
    pairs of the marked rows, each once, in order of first appearance. *)
Definition dup_rows (df : list RankedRow) (duplicates : list bool) : list (Z * string) :=
  unique
    (key <$> (filter (λ rd : RankedRow * bool, rd.2 = true) (zip df duplicates)).*1).

(** [_validate_ranks], lines 204-219. *)
Definition _validate_ranks (df : list RankedRow) : result unit :=
  if forallb isna (_rank <$> df) then Err (ValueError AllRankValuesNaN)
  else
    let valid_ranks := dropna (_rank <$> df) in
    if existsb (λ r, Qltb r 0) valid_ranks then Err (ValueError RankValuesNonNegative)
    else
      let duplicates := duplicated df in
      if existsb id duplicates
      then Err (ValueError (DuplicateEntityTime (dup_rows df duplicates)))
      else Ok ().

(** [sort_values([time_col, entity_col])]: by time, then by entity. *)
Definition time_entity_le (a b : RankedRow) : bool :=
  if (time (source a) <? time (source b))%Z then true
  else if (time (source a) =? time (source b))%Z
       then String.leb (entity (source a)) (entity (source b))
       else false.

(** [prepare_data], lines 112-133. *)
Definition prepare_data (df : DataFrame) (rank_col value_col : option Column)
    (ascending : bool) (tie_method : TieMethod) : result (list RankedRow) :=
  _ ← validate_dataframe df rank_col value_col;
  ranks ← match value_col, rank_col with
          | Some value_col, _ =>
              Ok (calculate_ranks df value_col ascending tie_method)
          | None, Some rank_col => Ok (rank_col <$> df)
          | None, None => Err (ValueError EitherRankOrValue)
          end;
  let result := zip_with mkRanked df ranks in
  _ ← _validate_ranks result;
  Ok (stable_sort time_entity_le result).

(** Two series hold the same numbers. *)
Definition same_ranks (a b : list (option Q)) : Prop :=
  Forall2 (option_Forall2 Qeq) a b.

(** Two observations of the input share their (time, entity) pair. *)
Definition shares_key (df : DataFrame) : Prop :=
  ∃ i j a b, i ≠ j ∧ df !! i = Some a ∧ df !! j = Some b ∧
             time a = time b ∧ entity a = entity b.

(** All (time, entity) pairs of the input are distinct. *)
Definition distinct_keys (df : DataFrame) : Prop :=
  ∀ i j a b, df !! i = Some a → df !! j = Some b →
             time a = time b → entity a = entity b → i = j.

(** No two present values of one time period are equal. *)
Definition distinct_present (df : DataFrame) (value_col : Column) : Prop :=
  ∀ i j a b v w, i ≠ j → df !! i = Some a → df !! j = Some b →
                 time a = time b → value_col a = Some v → value_col b = Some w →
                 ¬ (v == w)%Q.

(** A time period has at most one absent value. *)
Definition one_absent (df : DataFrame) (value_col : Column) : Prop :=
  ∀ i j a b, df !! i = Some a → df !! j = Some b → time a = time b →
             value_col a = None → value_col b = None → i = j.

End Data.

(** * The rendering helpers: exceptions *)

(** The helpers raise exceptions that the rank derivation does not: a
    missing dictionary key, a division by zero, and the [ValueError] of
    the dataframe library for an index that is not unique, besides the
    ones above. *)
Inductive pyexn : Type :=
  | Exn (e : exn)
  | KeyError (key : string)
  | ZeroDivisionError
  | NonUniqueIndex.

Inductive outcome (A : Type) : Type :=
  | Return (v : A)
  | Raise (e : pyexn).
Arguments Return {A} v.
Arguments Raise {A} e.

#[global] Instance outcome_ret : MRet outcome := λ A v, Return v.
#[global] Instance outcome_bind : MBind outcome := λ A B k r,
  match r with
  | Return v => k v
  | Raise e => Raise e
  end.

(** A call of a function of the rank derivation or of
    [detect_label_collisions] from a helper. *)
Definition call {A : Type} (r : result A) : outcome A :=
  match r with
  | Ok v => Return v
  | Err e => Raise (Exn e)
  end.

(** * Colours ([colors.py]) *)

Module Colors.
Section Palette.

(** A colour: a name, a hex string or an RGBA tuple; the code never
    looks into one. *)
Context {C : Type}.

(** [palette : str | Sequence[Any] | None]. *)
Inductive Palette : Type :=
  | PaletteNone
  | PaletteName (name : string)
  | PaletteSeq (colors : list C).

(** The colours of matplotlib's default cycle,
    [list(plt.rcParams["axes.prop_cycle"].by_key().get("color", ["#1f77b4"]))],
    and the lookup of a named palette in matplotlib and seaborn,
    [_get_colors_from_name]: both read the state of those libraries and
    are parameters here.  The lookup is taken to return a list: it
    catches the errors of the two libraries, and its last resort,
    [get_color_palette(None, n_colors)], raises under an empty default
    cycle only. *)
Context (default_cycle : list C) (_get_colors_from_name : string → nat → list C).

(** The colours that the palette stands for, lines 45-53. *)
Definition palette_colors (palette : Palette) (n_colors : nat) : list C :=
  match palette with
  | PaletteNone => default_cycle
  | PaletteName name => _get_colors_from_name name n_colors
  | PaletteSeq palette => palette
  end.

(** Python's [colors * k]. *)
Definition list_mul (colors : list C) (k : nat) : list C :=
  mjoin (replicate k colors).

(** [get_color_palette], lines 45-60.  [n_colors] is a count (the caller
    passes [len(entities)]); [n_colors // len(colors)] raises
    [ZeroDivisionError] when there is no colour to cycle. *)
Definition get_color_palette (palette : Palette) (n_colors : nat) : outcome (list C) :=
  let colors := palette_colors palette n_colors in
  colors ←
    (if (length colors <? n_colors)%nat
     then
       if (length colors =? 0)%nat then Raise ZeroDivisionError
       else Return (take n_colors
                      (list_mul colors ((n_colors / length colors) + 1)))
     else Return colors);
  Return (take n_colors colors).

(** One iteration of the loop of [get_highlight_colors], lines 147-159;
    [base_colors[i]] raises [IndexError] past the end of the list. *)
Definition highlight_body (highlight_set : gset string) (base_colors : list C)
    (highlight_color : option C) (dim_alpha : Q) (dim_color : C)
    (acc : outcome (list C * list Q)) (item : nat * string)
    : outcome (list C * list Q) :=
  '(colors, alphas) ← acc;
  let '(i, entity) := item in
  if decide (entity ∈ highlight_set) then
    colors ←
      match highlight_color with
      | Some highlight_color => Return (colors ++ [highlight_color])
      | None =>
          match base_colors !! i with
          | Some c => Return (colors ++ [c])
          | None => Raise (Exn IndexError)
          end
      end;
    Return (colors, alphas ++ [1%Q])
  else Return (colors ++ [dim_color], alphas ++ [dim_alpha]).

(** The colour and alpha that one iteration appends, if it returns. *)
Definition highlight_entry (hs : gset string) (base : list C) (hc : option C)
    (da : Q) (dc : C) (item : nat * string) : option (C * Q) :=
  if decide (item.2 ∈ hs) then
    match hc with
    | Some c => Some (c, 1%Q)
    | None => (λ c, (c, 1%Q)) <$> base !! item.1
    end
  else Some (dc, da).

(** [get_highlight_colors], lines 139-161. *)
Definition get_highlight_colors (entities : list string)
    (highlight : option (list string)) (base_colors : list C)
    (highlight_color : option C) (dim_alpha : Q) (dim_color : C)
    : outcome (list C * list Q) :=
  match highlight with
  | None => Return (base_colors, replicate (length entities) 1%Q)
  | Some highlight =>
      let highlight_set : gset string := list_to_set highlight in
      fold_left
        (highlight_body highlight_set base_colors highlight_color dim_alpha dim_color)
        (enumerate entities) (Return ([], []))
  end.

End Palette.
Arguments Palette : clear implicits.
End Colors.

(** * Label drawing ([labels.py]) *)

Module Drawing.
Import Labels.

(** [side : Literal["left", "right"]]. *)
Inductive Side : Type := SideLeft | SideRight.

(** [LabelPosition = Literal[True, False, "left", "right", "both"]]. *)
Inductive LabelPosition : Type :=
  | ShowTrue | ShowFalse | ShowLeft | ShowRight | ShowBoth.

(** [show_labels in (True, "left", "both")] and
    [show_labels in (True, "right", "both")]. *)
Definition shows_left (show_labels : LabelPosition) : bool :=
  match show_labels with
  | ShowTrue | ShowLeft | ShowBoth => true
  | _ => false
  end.

Definition shows_right (show_labels : LabelPosition) : bool :=
  match show_labels with
  | ShowTrue | ShowRight | ShowBoth => true
  | _ => false
  end.

(** The [(times, ranks)] arrays of one entity: the time values and, for
    each, the rank, NaN where the entity has none. *)
Abbreviation Series := (list Z * list (option Q))%type.

(** [~np.isnan(ranks)]. *)
Definition valid_mask (ranks : list (option Q)) : list bool :=
  (λ r, negb (Data.isna r)) <$> ranks.

(** [mask.any()]. *)
Definition any (mask : list bool) : bool := existsb id mask.

(** The entries of [a] where the mask holds. *)
Definition masked {A : Type} (a : list A) (mask : list bool) : list A :=
  (filter (λ xm : A * bool, xm.2 = true) (zip a mask)).*1.

(** [a[mask]] for a boolean mask: the entries where the mask holds;
    numpy raises [IndexError] when the two lengths differ. *)
Definition bool_index {A : Type} (a : list A) (mask : list bool) : outcome (list A) :=
  if (length a =? length mask)%nat
  then Return (masked a mask)
  else Raise (Exn IndexError).

(** [ranks[mask]] for the mask of [ranks] itself: the ranks that are
    numbers. *)
Definition valid_ranks (ranks : list (option Q)) : list Q := Data.dropna ranks.

(** [a[0]] and [a[-1]] on a list; an empty list raises [IndexError]. *)
Definition first_item {A : Type} (a : list A) : outcome A :=
  match head a with
  | Some x => Return x
  | None => Raise (Exn IndexError)
  end.

Definition last_item {A : Type} (a : list A) : outcome A :=
  match last a with
  | Some x => Return x
  | None => Raise (Exn IndexError)
  end.

Definition endpoint {A : Type} (side : Side) (a : list A) : outcome A :=
  match side with
  | SideLeft => first_item a
  | SideRight => last_item a
  end.

(** The first or the last entry of a list, if it has one. *)
Definition endpoint_value {A : Type} (side : Side) (a : list A) : option A :=
  match side with
  | SideLeft => head a
  | SideRight => last a
  end.

(** [entity_data[entity]]. *)
Definition getitem (entity_data : gmap string Series) (entity : string)
    : outcome Series :=
  match entity_data !! entity with
  | Some series => Return series
  | None => Raise (KeyError entity)
  end.

(** One iteration of the loop of [get_endpoint_positions], lines 214-223. *)
Definition endpoint_body (entity_data : gmap string Series) (side : Side)
    (acc : outcome (list Label)) (entity : string) : outcome (list Label) :=
  positions ← acc;
  '(times, ranks) ← getitem entity_data entity;
  let mask := valid_mask ranks in
  if negb (any mask) then Return positions
  else
    y ← endpoint side (valid_ranks ranks);
    Return (positions ++ [(entity, y)]).

(** [get_endpoint_positions], lines 212-225. *)
Definition get_endpoint_positions (entities : list string)
    (entity_data : gmap string Series) (side : Side) : outcome (list Label) :=
  fold_left (endpoint_body entity_data side) entities (Return []).

(** The entity has a rank that is a number. *)
Definition has_rank (entity_data : gmap string Series) (entity : string) : bool :=
  match entity_data !! entity with
  | Some (_, ranks) => any (valid_mask ranks)
  | None => false
  end.

(** The endpoint of one entity: its first or last rank that is a
    number, if it has one. *)
Definition position_of (entity_data : gmap string Series) (side : Side)
    (entity : string) : option Label :=
  '(times, ranks) ← entity_data !! entity;
  y ← endpoint_value side (valid_ranks ranks);
  Some (entity, y).

Section Texts.

(** A colour, as in [colors.py]. *)
Context {C : Type}.

(** [ha]: the horizontal alignment of a text. *)
Inductive HAlign : Type := HaLeft | HaRight.

(** One call of [ax.text], lines 137-147; [va] and [fontweight] are the
    constants ["center"] and ["medium"], and no further keyword is
    passed. *)
Record Text : Type := mkText {
  text_x : Q;
  text_y : Q;
  text_s : string;
  text_color : C;
  text_fontsize : Q;
  text_ha : HAlign;
}.

(** The axes, as far as labels go: the texts drawn on them, in order. *)
Abbreviation Axes := (list Text).

(** The text that [_add_single_label] draws, lines 130-147; [x] is a
    time value, [float(x)] its number. *)
Definition single_label (text : string) (x : Z) (y : Q) (color : C)
    (side : Side) (padding fontsize : Q) : Text :=
  let '(x_offset, ha) :=
    match side with
    | SideLeft => ((- padding)%Q, HaRight)
    | SideRight => (padding, HaLeft)
    end in
  mkText (inject_Z x + x_offset)%Q y text color fontsize ha.

(** [_add_single_label], lines 130-147. *)
Definition _add_single_label (ax : Axes) (text : string) (x : Z) (y : Q) (color : C)
    (side : Side) (padding fontsize : Q) : Axes :=
  ax ++ [single_label text x y color side padding fontsize].

(** The alignment of the labels of a side. *)
Definition side_ha (side : Side) : HAlign :=
  match side with
  | SideLeft => HaRight
  | SideRight => HaLeft
  end.

(** [add_labels], lines 54-93. *)
Definition add_labels (ax : Axes) (entity : string) (times : list Z)
    (ranks : list (option Q)) (color : C) (show_labels : LabelPosition)
    (label_padding fontsize : Q) : outcome Axes :=
  match show_labels with
  | ShowFalse => Return ax
  | _ =>
      let mask := valid_mask ranks in
      if negb (any mask) then Return ax
      else
        valid_times ← bool_index times mask;
        let valid_ranks := valid_ranks ranks in
        let show_left := shows_left show_labels in
        let show_right := shows_right show_labels in
        ax ←
          (if show_left && (0 <? length valid_times)%nat
           then
             x ← first_item valid_times;
             y ← first_item valid_ranks;
             Return (_add_single_label ax entity x y color SideLeft
                                       label_padding fontsize)
           else Return ax);
        if show_right && (0 <? length valid_times)%nat
        then
          x ← last_item valid_times;
          y ← last_item valid_ranks;
          Return (_add_single_label ax entity x y color SideRight
                                    label_padding fontsize)
        else Return ax
  end.

(** [dict(zip(entities, colors))]: a later pair replaces an earlier one
    with the same entity. *)
Definition dict_zip (entities : list string) (colors : list C) : gmap string C :=
  foldl (λ d kv, <[kv.1 := kv.2]> d) ∅ (zip entities colors).

(** One iteration of the loops over the adjusted positions, lines
    269-282 and 289-302. *)
Definition label_body (entity_data : gmap string Series)
    (entity_colors : gmap string C) (side : Side) (label_padding fontsize : Q)
    (acc : outcome Axes) (item : Label) : outcome Axes :=
  ax ← acc;
  let '(entity, y) := item in
  '(times, ranks) ← getitem entity_data entity;
  let mask := valid_mask ranks in
  if any mask then
    valid_times ← bool_index times mask;
    x ← endpoint side valid_times;
    color ← match entity_colors !! entity with
            | Some color => Return color
            | None => Raise (KeyError entity)
            end;
    Return (_add_single_label ax entity x y color side label_padding fontsize)
  else Return ax.

(** The text that one iteration draws, if it draws one. *)
Definition text_of (entity_data : gmap string Series)
    (entity_colors : gmap string C) (side : Side) (label_padding fontsize : Q)
    (item : Label) : option Text :=
  '(times, ranks) ← entity_data !! item.1;
  x ← endpoint_value side (masked times (valid_mask ranks));
  color ← entity_colors !! item.1;
  Some (single_label item.1 x item.2 color side label_padding fontsize).

(** An entity whose label can be drawn: it has its two arrays, of one
    length, a rank that is a number, and a colour. *)
Definition drawable (entity_data : gmap string Series)
    (entity_colors : gmap string C) (entity : string) : Prop :=
  ∃ times ranks,
    entity_data !! entity = Some (times, ranks) ∧
    length times = length ranks ∧
    any (valid_mask ranks) = true ∧
    is_Some (entity_colors !! entity).

(** The labels of one side, lines 265-282 and 285-302. *)
Definition side_labels (ax : Axes) (entities : list string)
    (entity_data : gmap string Series) (entity_colors : gmap string C)
    (side : Side) (label_padding min_label_distance fontsize : Q) : outcome Axes :=
  positions ← get_endpoint_positions entities entity_data side;
  adjusted ← call (detect_label_collisions positions min_label_distance);
  fold_left (label_body entity_data entity_colors side label_padding fontsize)
            adjusted (Return ax).

(** [add_labels_with_collision_avoidance], lines 259-302. *)
Definition add_labels_with_collision_avoidance (ax : Axes) (entities : list string)
    (entity_data : gmap string Series) (colors : list C)
    (show_labels : LabelPosition)
    (label_padding min_label_distance fontsize : Q) : outcome Axes :=
  match show_labels with
  | ShowFalse => Return ax
  | _ =>
      let entity_colors := dict_zip entities colors in
      ax ←
        (if shows_left show_labels
         then side_labels ax entities entity_data entity_colors SideLeft
                          label_padding min_label_distance fontsize
         else Return ax);
      if shows_right show_labels
      then side_labels ax entities entity_data entity_colors SideRight
                       label_padding min_label_distance fontsize
      else Return ax
  end.

(** The texts that one side contributes: none if the side is not shown,
    else one for each adjusted position. *)
Definition side_texts (entities : list string) (entity_data : gmap string Series)
    (entity_colors : gmap string C) (side : Side) (shown : bool) (pad d fs : Q)
    (texts : Axes) : Prop :=
  if shown then
    ∃ adjusted,
      detect_label_collisions (omap (position_of entity_data side) entities) d
      = Ok adjusted ∧
      Forall2 (λ item t, text_of entity_data entity_colors side pad fs item = Some t)
              adjusted texts
  else texts = [].

End Texts.
Arguments Text : clear implicits.
End Drawing.

(** * Prepared frames ([data.py], lines 222-294) *)

Module Frames.
Import Data.

(** [sort_values(by=time_col)]. *)
Definition by_time (a b : RankedRow) : bool :=
  (time (source a) <=? time (source b))%Z.

(** [get_entity_data], lines 291-294.  With one sort key the dataframe
    library does not promise a stable sort; the rows of one entity have
    distinct times in a prepared frame, where every sort gives the result
    of the stable one computed here. *)
Definition get_entity_data (df : list RankedRow) (entity : string)
    : list Z * list (option Q) :=
  let entity_df :=
    stable_sort by_time (filter (λ r, Data.entity (source r) = entity) df) in
  let times := (λ r, time (source r)) <$> entity_df in
  let ranks := _rank <$> entity_df in
  (times, ranks).

(** [fill_method : Literal["gap", "interpolate"]]. *)
Inductive FillMethod : Type := Gap | Interpolate.

(** The row that [reindex] makes for a (time, entity) pair: the row of
    the frame with that pair, or a row whose other columns are NaN. *)
Definition reindex_row (df : list RankedRow) (k : Z * string) : RankedRow :=
  match list_find (λ r, key r = k) df with
  | Some (_, r) => r
  | None => mkRanked (mkRow k.1 k.2 None None) None
  end.

(** [pd.MultiIndex.from_product([all_times, all_entities])]. *)
Definition from_product (all_times : list Z) (all_entities : list string)
    : list (Z * string) :=
  t ← all_times; e ← all_entities; [(t, e)].

Section Interpolation.

(** [x.interpolate(method="linear")] on the ranks of one entity: the
    dataframe library's interpolation, a parameter here. *)
Context (interpolate : list (option Q) → list (option Q)).

(** The positions of the rows of [entity], in row order. *)
Definition entity_positions (df : list RankedRow) (entity : string) : list nat :=
  (filter (λ ir : nat * RankedRow, Data.entity (source ir.2) = entity)
          (enumerate df)).*1.

(** [result.groupby(entity_col)["_rank"].transform(f)]: [f] is applied to
    the ranks of each entity, in row order, and its values are written
    back at the positions of the rows of that entity. *)
Definition transform_ranks (f : list (option Q) → list (option Q))
    (df : list RankedRow) : list (option Q) :=
  foldl
    (λ out entity,
       let positions := entity_positions df entity in
       let values := f (omap (λ i, _rank <$> df !! i) positions) in
       foldl (λ out iv, <[iv.1 := iv.2]> out) out (zip positions values))
    (_rank <$> df)
    (unique ((λ r, Data.entity (source r)) <$> df)).

(** [handle_missing_periods], lines 250-267.  [reindex] raises a
    [ValueError] of the dataframe library when two rows of the frame have
    the same (time, entity) pair. *)
Definition handle_missing_periods (df : list RankedRow) (fill_method : FillMethod)
    : outcome (list RankedRow) :=
  let all_times := unique ((λ r, time (source r)) <$> df) in
  let all_entities := unique ((λ r, Data.entity (source r)) <$> df) in
  let complete_index := from_product all_times all_entities in
  result ←
    (if bool_decide (NoDup (key <$> df))
     then Return (reindex_row df <$> complete_index)
     else Raise NonUniqueIndex);
  match fill_method with
  | Interpolate =>
      Return (zip_with (λ r rank, mkRanked (source r) rank) result
                       (transform_ranks interpolate result))
  | Gap => Return result
  end.

End Interpolation.
End Frames.

(** * The chart ([core.py], lines 167 and 181-186) *)

Module Core.
Import Data Drawing Frames.

(** [entities = prepared_df[entity_col].unique().tolist()], line 167. *)
Definition chart_entities (prepared_df : list RankedRow) : list string :=
  unique ((λ r, Data.entity (source r)) <$> prepared_df).

(** The loop of lines 184-186, as far as [entity_data] goes: the arrays
    of every entity are stored under its name. *)
Definition collect_entity_data (prepared_df : list RankedRow)
    (entities : list string) : gmap string Series :=
  foldl
    (λ entity_data entity,
       <[entity := get_entity_data prepared_df entity]> entity_data)
    ∅ entities.

End Core.

(** * Facts about the comparisons *)

Lemma Qltb_lt (a b : Q) : Qltb a b = true ↔ (a < b)%Q.
Proof.
  unfold Qltb. rewrite negb_true_iff.
  destruct (Qle_bool b a) eqn:E.
  - apply Qle_bool_iff in E. split; [discriminate|]. intros H. lra.
  - split; [|reflexivity]. intros _.
    destruct (Qlt_le_dec a b) as [H|H]; [exact H|].
    apply Qle_bool_iff in H. congruence.
Qed.

Lemma Qltb_ge (a b : Q) : Qltb a b = false ↔ (b <= a)%Q.
Proof. unfold Qltb. rewrite negb_false_iff. apply Qle_bool_iff. Qed.

Lemma Qle_bool_false (a b : Q) : Qle_bool a b = false ↔ (b < a)%Q.
Proof.
  rewrite <- (Qltb_lt b a). unfold Qltb.
  destruct (Qle_bool a b); simpl; split; congruence.
Qed.

(** * Facts about stable sorting *)

Section StableSortFacts.
Context {A : Type} (leb : A → A → bool).

Lemma insert_sorted_perm (x : A) (l : list A) :
  insert_sorted leb x l ≡ₚ x :: l.
Proof.
  induction l as [|y l IH]; simpl; [done|].
  destruct (leb x y); [done|].
  rewrite IH. apply Permutation_swap.
Qed.

Lemma stable_sort_perm (l : list A) : stable_sort leb l ≡ₚ l.
Proof.
  induction l as [|x l IH]; simpl; [done|].
  rewrite insert_sorted_perm. by rewrite IH.
Qed.

Lemma stable_sort_length (l : list A) : length (stable_sort leb l) = length l.
Proof. apply Permutation_length, stable_sort_perm. Qed.

Lemma insert_sorted_id (x : A) (l : list A) :
  (∀ y, y ∈ l → leb x y = true) → insert_sorted leb x l = x :: l.
Proof.
  destruct l as [|y l]; simpl; [done|].
  intros H. rewrite H; [done|]. left.
Qed.

(** Sorting leaves a list that is in order as it is. *)
Lemma stable_sort_id (l : list A) : in_order leb l → stable_sort leb l = l.
Proof.
  induction l as [|x l IH]; simpl; [done|].
  intros [Hx Hl]. rewrite IH by done. by apply insert_sorted_id.
Qed.

Hypothesis leb_total : ∀ a b, leb a b = true ∨ leb b a = true.
Hypothesis leb_trans : ∀ a b c, leb a b = true → leb b c = true → leb a c = true.

Lemma insert_sorted_in_order (x : A) (l : list A) :
  in_order leb l → in_order leb (insert_sorted leb x l).
Proof using leb_total leb_trans.
  induction l as [|y l IH]; simpl; [intros _; split; [|done]; by inversion 1|].
  intros [Hy Hl]. destruct (leb x y) eqn:E.
  - split; [|by split]. intros z Hz. apply elem_of_cons in Hz as [->|Hz]; [done|].
    eapply leb_trans; [exact E|]. by apply Hy.
  - split; [|by apply IH]. intros z Hz.
    rewrite insert_sorted_perm in Hz. apply elem_of_cons in Hz as [->|Hz].
    + destruct (leb_total x y) as [H|H]; [congruence|done].
    + by apply Hy.
Qed.

Lemma stable_sort_in_order (l : list A) : in_order leb (stable_sort leb l).
Proof using leb_total leb_trans.
  induction l as [|x l IH]; simpl; [done|]. by apply insert_sorted_in_order.
Qed.
End StableSortFacts.

(** * Label layout: the loop and its invariants *)

Section LabelFacts.
Import Labels.

Lemma by_y_total (a b : Label) : by_y a b = true ∨ by_y b a = true.
Proof.
  unfold by_y. destruct (Qlt_le_dec b.2 a.2) as [H|H].
  - right. apply Qle_bool_iff. lra.
  - left. by apply Qle_bool_iff.
Qed.

Lemma by_y_trans (a b c : Label) :
  by_y a b = true → by_y b c = true → by_y a c = true.
Proof. unfold by_y. rewrite !Qle_bool_iff. lra. Qed.

Lemma sorted_in_order (labels : list Label) : in_order by_y (sorted labels).
Proof. apply stable_sort_in_order; [apply by_y_total|apply by_y_trans]. Qed.

(** The [for] loop, started after its first iteration. *)
Lemma loop_from (d : Q) (rest : list Label) :
  ∀ (k : nat) (acc : list Label) (t : string) (prev : Q),
    last acc = Some (t, prev) →
    fold_left (loop_body d) (zip (seq (S k) (length rest)) rest) (Ok acc)
    = Ok (acc ++ adjust_from d prev rest).
Proof.
  induction rest as [|[text y] rest IH]; intros k acc t prev Hlast; cbn.
  - by rewrite app_nil_r.
  - rewrite Hlast. cbn [mbind result_bind].
    destruct (Qltb (y - prev) d);
      (erewrite IH; [by rewrite <- app_assoc|by rewrite last_snoc]).
Qed.

Lemma loop_adjust (d : Q) (s : list Label) :
  fold_left (loop_body d) (enumerate s) (Ok []) = Ok (adjust d s).
Proof.
  destruct s as [|[text y] rest]; [done|].
  unfold enumerate. simpl. by erewrite loop_from.
Qed.

Lemma detect_label_collisions_eq (labels : list Label) (d : Q) :
  detect_label_collisions labels d
  = Ok (if (length labels <=? 1)%nat then labels else adjust d (sorted labels)).
Proof.
  unfold detect_label_collisions.
  destruct (length labels <=? 1)%nat; [done|]. apply loop_adjust.
Qed.

Lemma adjust_from_gaps (d : Q) (rest : list Label) :
  ∀ prev, gaps d prev (adjust_from d prev rest).
Proof.
  induction rest as [|[text y] rest IH]; intros prev; simpl; [done|].
  split; [|apply IH].
  destruct (Qltb (y - prev) d) eqn:E; simpl.
  - lra.
  - by apply Qltb_ge in E.
Qed.

Lemma adjust_from_fixed (d : Q) (l : list Label) :
  ∀ prev, gaps d prev l → adjust_from d prev l = l.
Proof.
  induction l as [|[text y] l IH]; intros prev; simpl; [done|].
  intros [Hy Hl]. apply Qltb_ge in Hy. rewrite Hy. by rewrite IH.
Qed.

Lemma gaps_lookup (d : Q) (l : list Label) :
  ∀ prev, gaps d prev l →
    ∀ i a b, l !! i = Some a → l !! S i = Some b → (d <= b.2 - a.2)%Q.
Proof.
  induction l as [|x l IH]; intros prev Hg i a b Ha Hb; [done|].
  destruct Hg as [_ Hg]. destruct i as [|i]; simpl in *.
  - destruct l as [|z l]; [done|]. simplify_eq/=. by destruct Hg.
  - eapply IH; eauto.
Qed.

Lemma gaps_lower (d : Q) (l : list Label) :
  (0 <= d)%Q → ∀ prev z, gaps d prev l → z ∈ l → (prev + d <= z.2)%Q.
Proof.
  intros Hd. induction l as [|a l IH]; intros prev z Hg Hz; [by inversion Hz|].
  destruct Hg as [Ha Hg]. apply elem_of_cons in Hz as [->|Hz]; [lra|].
  specialize (IH _ _ Hg Hz). lra.
Qed.

Lemma gaps_in_order (d : Q) (l : list Label) :
  (0 <= d)%Q → ∀ prev, gaps d prev l → in_order by_y l.
Proof.
  intros Hd. induction l as [|a l IH]; intros prev Hg; [done|].
  destruct Hg as [Ha Hg]. split; [|by eapply IH].
  intros z Hz. apply Qle_bool_iff.
  pose proof (gaps_lower d l Hd _ _ Hg Hz). lra.
Qed.

Lemma in_order_gaps (d : Q) (rest : list Label) :
  (d <= 0)%Q → ∀ a, in_order by_y (a :: rest) → gaps d a.2 rest.
Proof.
  intros Hd. induction rest as [|b rest IH]; intros a [Ha Hrest]; [done|].
  split; [|by apply IH].
  assert (by_y a b = true) as Hab by (apply Ha; left).
  apply Qle_bool_iff in Hab. lra.
Qed.

Lemma adjust_in_order (d : Q) (s : list Label) :
  in_order by_y s → in_order by_y (adjust d s).
Proof.
  intros Hs. destruct s as [|[text y] rest]; [done|]. simpl.
  destruct (Qlt_le_dec d 0) as [Hd|Hd].
  - rewrite adjust_from_fixed; [done|].
    apply (in_order_gaps d rest) in Hs; [done|lra].
  - pose proof (adjust_from_gaps d rest y) as Hg. split.
    + intros z Hz. apply Qle_bool_iff. simpl.
      pose proof (gaps_lower d _ Hd _ _ Hg Hz). lra.
    + by eapply gaps_in_order.
Qed.

Lemma adjust_adjust (d : Q) (s : list Label) : adjust d (adjust d s) = adjust d s.
Proof.
  destruct s as [|[text y] rest]; [done|]. simpl.
  by rewrite adjust_from_fixed by apply adjust_from_gaps.
Qed.

Lemma adjust_from_fst (d : Q) (rest : list Label) :
  ∀ prev, (adjust_from d prev rest).*1 = rest.*1.
Proof.
  induction rest as [|[text y] rest IH]; intros prev; simpl; [done|].
  by rewrite IH.
Qed.

Lemma adjust_fst (d : Q) (s : list Label) : (adjust d s).*1 = s.*1.
Proof.
  destruct s as [|[text y] rest]; [done|]. simpl. by rewrite adjust_from_fst.
Qed.

Lemma adjust_length (d : Q) (s : list Label) : length (adjust d s) = length s.
Proof.
  rewrite <- (length_fmap fst (adjust d s)), adjust_fst. apply length_fmap.
Qed.

(** The first entry of the sorted list is the anchor of the input. *)
Lemma sorted_anchor (labels : list Label) :
  labels ≠ [] → ∃ a rest i, sorted labels = a :: rest ∧ anchor_at labels i a.
Proof.
  induction labels as [|x l IH]; [done|]. intros _.
  destruct l as [|x' l'].
  - exists x, [], 0%nat. split; [done|]. split; [done|].
    intros [|j] b Hb; simplify_eq/=. split; [lra|lia].
  - destruct IH as (h & t & i & Hs & Hi & Hmin); [done|].
    unfold sorted in *. cbn [stable_sort foldr] in *. rewrite Hs.
    cbn [insert_sorted]. destruct (by_y x h) eqn:E.
    + exists x, (h :: t), 0%nat. split; [done|]. split; [done|].
      apply Qle_bool_iff in E.
      intros [|j] b Hb.
      * simplify_eq/=. split; [lra|lia].
      * destruct (Hmin j b Hb) as [Hle _]. split; [lra|lia].
    + exists h, (insert_sorted by_y x t), (S i). split; [done|]. split; [done|].
      apply Qle_bool_false in E.
      intros [|j] b Hb.
      * simplify_eq/=. split; [lra|done].
      * destruct (Hmin j b Hb) as [Hle Hlt]. split; [done|].
        intros Hj. apply Hlt. lia.
Qed.
End LabelFacts.

(** * Label layout: the claims *)

Section LabelClaims.
Import Labels.

(** C1 (as the code has it): [detect_label_collisions] has no failure
    mode.  For every input list and every [min_distance], negative ones
    included, it returns a list and raises nothing. *)
Theorem detect_label_collisions_total (labels : list Label) (min_distance : Q) :
  succeeds (detect_label_collisions labels min_distance).
Proof. rewrite detect_label_collisions_eq. by eexists. Qed.

(** C1, the claim as stated fails: a negative [min_distance] is not
    rejected with [InvalidInput]; the call returns the sorted labels. *)
Lemma detect_label_collisions_negative_accepted :
  let labels := [("a"%string, 0%Q); ("b"%string, 1%Q)] in
  let min_distance := (- (1))%Q in
  (min_distance < 0)%Q ∧
  detect_label_collisions labels min_distance = Ok labels ∧
  ¬ fails_with (detect_label_collisions labels min_distance) InvalidInput.
Proof.
  split; [reflexivity|]. split; [reflexivity|].
  intros (e & He & _). discriminate He.
Qed.

(** In exact arithmetic, for [min_distance >= 0], the output of
    [detect_label_collisions] is in ascending order of position and its
    consecutive entries are at least [min_distance] apart. *)
Lemma detect_label_collisions_exact
    (labels : list Label) (min_distance : Q) (out : list Label) :
  (0 <= min_distance)%Q →
  detect_label_collisions labels min_distance = Ok out →
  in_order by_y out ∧ separated min_distance out.
Proof.
  intros Hd. rewrite detect_label_collisions_eq. intros [= <-].
  destruct (length labels <=? 1)%nat eqn:Hlen.
  - apply Nat.leb_le in Hlen.
    destruct labels as [|a [|b l]]; simpl in Hlen; try lia.
    + split; [done|]. by intros i a b Ha.
    + split; [split; [by inversion 1|done]|]. by intros [|i] a' b' Ha Hb.
  - split; [apply adjust_in_order, sorted_in_order|].
    destruct (sorted labels) as [|[text y] rest]; [by intros i a b Ha|].
    simpl. intros i a b Ha Hb.
    destruct i as [|i].
    + pose proof (adjust_from_gaps min_distance rest y) as Hg.
      destruct (adjust_from min_distance y rest); simplify_eq/=. by destruct Hg.
    + eapply gaps_lookup; [apply adjust_from_gaps|exact Ha|exact Hb].
Qed.

(** C4: for every non-empty input list, the output of
    [detect_label_collisions] starts with the entry of minimum original
    position (the earliest one in the input, should several share the
    minimum), carried over with its position unchanged. *)
Theorem detect_label_collisions_anchor
    (labels : list Label) (min_distance : Q) (out : list Label) :
  labels ≠ [] →
  detect_label_collisions labels min_distance = Ok out →
  ∃ a rest i, out = a :: rest ∧ anchor_at labels i a.
Proof.
  intros Hne. rewrite detect_label_collisions_eq. intros [= <-].
  destruct (length labels <=? 1)%nat eqn:Hlen.
  - apply Nat.leb_le in Hlen.
    destruct labels as [|a [|b l]]; simpl in Hlen; try done; try lia.
    exists a, [], 0%nat. split; [done|]. split; [done|].
    intros [|j] b Hb; simplify_eq/=. split; [lra|lia].
  - destruct (sorted_anchor labels Hne) as (a & rest & i & Hs & Ha).
    rewrite Hs. destruct a as [text y]. simpl. by eexists _, _, i.
Qed.

Lemma detect_label_collisions_anchor_witness :
  let labels := [("B"%string, 2%Q); ("A"%string, 1%Q); ("C"%string, 1%Q)] in
  ∃ a rest i,
    [("A"%string, 1%Q); ("C"%string, (1 + (1 # 2))%Q); ("B"%string, 2%Q)]
    = a :: rest ∧ anchor_at labels i a.
Proof.
  intros labels.
  apply (detect_label_collisions_anchor labels (1 # 2)).
  - discriminate.
  - vm_compute. reflexivity.
Defined.

(** C5: [detect_label_collisions] is idempotent: for every input list
    and every [min_distance], applying it to its own output with the
    same [min_distance] returns that output unchanged. *)
Theorem detect_label_collisions_idempotent
    (labels : list Label) (min_distance : Q) (out : list Label) :
  detect_label_collisions labels min_distance = Ok out →
  detect_label_collisions out min_distance = Ok out.
Proof.
  rewrite !detect_label_collisions_eq. intros [= <-]. f_equal.
  destruct (length labels <=? 1)%nat eqn:Hlen; [by rewrite Hlen|].
  rewrite adjust_length. unfold sorted at 1.
  rewrite stable_sort_length, Hlen.
  unfold sorted at 1. rewrite stable_sort_id.
  - apply adjust_adjust.
  - apply adjust_in_order, sorted_in_order.
Qed.

Lemma detect_label_collisions_idempotent_witness :
  detect_label_collisions
    [("X"%string, 1%Q); ("Y"%string, 1 + (1 # 2))%Q;
     ("Z"%string, (1 + (1 # 2)) + (1 # 2))%Q] (1 # 2)
  = Ok [("X"%string, 1%Q); ("Y"%string, 1 + (1 # 2))%Q;
        ("Z"%string, (1 + (1 # 2)) + (1 # 2))%Q].
Proof.
  apply (detect_label_collisions_idempotent
           [("Z"%string, 115 # 100); ("X"%string, 1%Q); ("Y"%string, 11 # 10)]).
  vm_compute. reflexivity.
Defined.

(** C10: for every input list and every [min_distance], the output of
    [detect_label_collisions] has the length of the input and carries
    the same multiset of label identifiers: no entry is dropped or
    duplicated. *)
Theorem detect_label_collisions_same_labels
    (labels : list Label) (min_distance : Q) (out : list Label) :
  detect_label_collisions labels min_distance = Ok out →
  length out = length labels ∧ out.*1 ≡ₚ labels.*1.
Proof.
  rewrite detect_label_collisions_eq. intros [= <-].
  destruct (length labels <=? 1)%nat; [done|].
  rewrite adjust_length, adjust_fst. unfold sorted.
  rewrite stable_sort_length. split; [done|].
  apply fmap_Permutation, stable_sort_perm.
Qed.

Lemma detect_label_collisions_same_labels_witness :
  let labels := [("Z"%string, 115 # 100); ("X"%string, 1%Q); ("Y"%string, 11 # 10)] in
  let out := [("X"%string, 1%Q); ("Y"%string, 1 + (1 # 2))%Q;
              ("Z"%string, (1 + (1 # 2)) + (1 # 2))%Q] in
  length out = length labels ∧ out.*1 ≡ₚ labels.*1.
Proof.
  intros labels out.
  apply (detect_label_collisions_same_labels labels (1 # 2) out).
  vm_compute. reflexivity.
Defined.
End LabelClaims.

(** * Label layout on binary64 floats: the loop *)

Section Binary64Facts.
Import LabelsBinary64.

Lemma loop_from_binary64 (d : float) (rest : list Label) :
  ∀ (k : nat) (acc : list Label) (t : string) (prev : float),
    last acc = Some (t, prev) →
    fold_left (loop_body d) (zip (seq (S k) (length rest)) rest) (Ok acc)
    = Ok (acc ++ adjust_from d prev rest).
Proof.
  induction rest as [|[text y] rest IH]; intros k acc t prev Hlast; cbn.
  - by rewrite app_nil_r.
  - rewrite Hlast. cbn [mbind result_bind].
    destruct (y - prev <? d)%float;
      (erewrite IH; [by rewrite <- app_assoc|by rewrite last_snoc]).
Qed.

Lemma loop_adjust_binary64 (d : float) (s : list Label) :
  fold_left (loop_body d) (enumerate s) (Ok []) = Ok (adjust d s).
Proof.
  destruct s as [|[text y] rest]; [done|].
  unfold enumerate. simpl. by erewrite loop_from_binary64.
Qed.

Lemma detect_label_collisions_binary64 (labels : list Label) (d : float) :
  detect_label_collisions labels d
  = Ok (if (length labels <=? 1)%nat then labels else adjust d (sorted labels)).
Proof.
  unfold detect_label_collisions.
  destruct (length labels <=? 1)%nat; [done|]. apply loop_adjust_binary64.
Qed.

Lemma adjust_from_chain (d : float) (rest : list Label) :
  ∀ prev, chain d prev (adjust_from d prev rest).
Proof.
  induction rest as [|[text y] rest IH]; intros prev; simpl; [done|].
  split; [|apply IH]. unfold settled.
  destruct (y - prev <? d)%float eqn:E; [by left|by right].
Qed.

Lemma chain_lookup (d : float) (l : list Label) :
  ∀ prev, chain d prev l →
    ∀ i a b, l !! i = Some a → l !! S i = Some b → settled d a.2 b.2.
Proof.
  induction l as [|x l IH]; intros prev Hc i a b Ha Hb; [done|].
  destruct Hc as [_ Hc]. destruct i as [|i]; simpl in *.
  - destruct l as [|z l]; [done|]. simplify_eq/=. by destruct Hc.
  - eapply IH; eauto.
Qed.
End Binary64Facts.

(** * Label layout on binary64 floats: the claim on the separation *)

Section Binary64Claims.
Import LabelsBinary64.

(** C3 (as the code has it): the separation holds up to the rounding of
    one sum.  For every input list whose positions are numbers and every
    [min_distance], each entry of the output of [detect_label_collisions]
    is settled after the entry before it: its position is the binary64
    sum of the position before it and [min_distance], or the binary64
    difference of the two positions is not less than [min_distance]. *)
Theorem detect_label_collisions_separated
    (labels : list Label) (min_distance : float) (out : list Label) :
  Forall (λ a : Label, is_nan a.2 = false) labels →
  detect_label_collisions labels min_distance = Ok out →
  separated min_distance out.
Proof.
  intros _. rewrite detect_label_collisions_binary64. intros [= <-].
  unfold separated.
  destruct (length labels <=? 1)%nat eqn:Hlen.
  - apply Nat.leb_le in Hlen.
    destruct labels as [|a [|b l]]; simpl in Hlen; try lia.
    + by intros i a b Ha.
    + by intros [|i] a' b' Ha Hb.
  - destruct (sorted labels) as [|[text y] rest]; [by intros i a b Ha|].
    simpl. intros i a b Ha Hb.
    destruct i as [|i].
    + pose proof (adjust_from_chain min_distance rest y) as Hc.
      destruct (adjust_from min_distance y rest); simplify_eq/=. by destruct Hc.
    + eapply chain_lookup; [apply adjust_from_chain|exact Ha|exact Hb].
Qed.

(** C3, the claim as stated fails: the positions 0.7 and 0.75 with
    [min_distance] 0.1 come out as 0.7 and 0.7999999999999999, the
    binary64 sum of 0.7 and 0.1, and the distance between these two
    numbers is less than the number 0.1 of the machine. *)
Lemma detect_label_collisions_falls_short :
  let labels := [("a"%string, 0.7%float); ("b"%string, 0.75%float)] in
  let min_distance := 0.1%float in
  let out := [("a"%string, 0.7%float); ("b"%string, 0.7999999999999999%float)] in
  (0 <=? min_distance)%float = true ∧
  detect_label_collisions labels min_distance = Ok out ∧
  (exact 0.7999999999999999 - exact 0.7 < exact min_distance)%Q.
Proof.
  split; [reflexivity|]. split; [by vm_compute|]. by vm_compute.
Qed.

Lemma detect_label_collisions_separated_witness :
  separated 0.1 [("a"%string, 0.7%float); ("b"%string, 0.7999999999999999%float)].
Proof.
  apply (detect_label_collisions_separated
           [("a"%string, 0.7%float); ("b"%string, 0.75%float)] 0.1).
  - by repeat constructor.
  - vm_compute. reflexivity.
Defined.
End Binary64Claims.

(** * Rank derivation: writing the ranks back *)

Section ScatterFacts.
Import Data.

Lemma scatter_step_length (assigned : list (nat * Q)) :
  ∀ out : list (option Q),
    length (foldl (λ out ir, <[ir.1 := Some ir.2]> out) out assigned) = length out.
Proof.
  induction assigned as [|[j q] rest IH]; intros out; simpl; [done|].
  by rewrite IH, length_insert.
Qed.

Lemma scatter_length (n : nat) (assigned : list (nat * Q)) :
  length (scatter n assigned) = n.
Proof. unfold scatter. by rewrite scatter_step_length, length_replicate. Qed.

(** A position that no assignment names keeps its content. *)
Lemma scatter_step_other (assigned : list (nat * Q)) (i : nat) :
  i ∉ assigned.*1 →
  ∀ out : list (option Q),
    foldl (λ out ir, <[ir.1 := Some ir.2]> out) out assigned !! i = out !! i.
Proof.
  induction assigned as [|[j q] rest IH]; intros Hi out; simpl; [done|].
  apply not_elem_of_cons in Hi as [Hij Hi].
  rewrite IH by done. by apply list_lookup_insert_ne.
Qed.

(** A position named once receives the rank assigned to it. *)
Lemma scatter_step_lookup (assigned : list (nat * Q)) (i : nat) (q : Q) :
  NoDup assigned.*1 → (i, q) ∈ assigned →
  ∀ out : list (option Q), (i < length out)%nat →
    foldl (λ out ir, <[ir.1 := Some ir.2]> out) out assigned !! i = Some (Some q).
Proof.
  induction assigned as [|[j q'] rest IH]; intros Hnd Hin out Hlen; [by inversion Hin|].
  apply NoDup_cons in Hnd as [Hj Hnd]. simpl.
  apply elem_of_cons in Hin as [[= <- <-]|Hin].
  - rewrite scatter_step_other by done. by apply list_lookup_insert_eq.
  - apply IH; [done..|]. by rewrite length_insert.
Qed.

Lemma scatter_lookup (n : nat) (assigned : list (nat * Q)) (i : nat) (q : Q) :
  NoDup assigned.*1 → (i, q) ∈ assigned → (i < n)%nat →
  scatter n assigned !! i = Some (Some q).
Proof.
  intros Hnd Hin Hi. unfold scatter.
  apply scatter_step_lookup; [done..|]. by rewrite length_replicate.
Qed.
End ScatterFacts.

(** * Rank derivation: the groups *)

Section GroupFacts.
Import Data.
Context (df : DataFrame) (value_col : Column).

Lemma elem_of_group_items (t : Z) (i : nat) (v : option Q) :
  (i, v) ∈ group_items df value_col t ↔
  ∃ r, df !! i = Some r ∧ time r = t ∧ v = value_col r.
Proof.
  unfold group_items. rewrite list_elem_of_fmap. split.
  - intros ([t' [i' v']] & [= -> ->] & Hx).
    apply list_elem_of_filter in Hx as [Ht Hx]. simpl in Ht.
    apply elem_of_lookup_imap in Hx as (j & r & [= -> -> ->] & Hr). eauto.
  - intros (r & Hr & <- & ->). exists (time r, (i, value_col r)). split; [done|].
    apply list_elem_of_filter. split; [done|].
    apply (elem_of_lookup_imap_2 (λ i r, (time r, (i, value_col r)))), Hr.
Qed.

Lemma group_items_NoDup (t : Z) : NoDup (group_items df value_col t).*1.
Proof.
  unfold group_items.
  eapply sublist_NoDup; [|apply fmap_sublist, fmap_sublist, sublist_filter].
  rewrite !fmap_imap.
  rewrite (imap_ext _ (λ j _, j)) by done.
  rewrite (imap_seq_0 df (λ j, j)), list_fmap_id. apply NoDup_seq.
Qed.

Lemma rank_group_fst (ascending : bool) (method : TieMethod) (g : list Item) :
  (rank_group ascending method g).*1 = (sort_group ascending g).*1.
Proof.
  unfold rank_group. rewrite fmap_imap.
  rewrite (imap_ext _ (const fst)) by done. apply imap_const.
Qed.

Lemma elem_of_rank_group (ascending : bool) (method : TieMethod) (g : list Item)
    (p : nat) (i : nat) (v : option Q) :
  sort_group ascending g !! p = Some (i, v) →
  (i, resolve method (sort_group ascending g) p v) ∈ rank_group ascending method g.
Proof.
  intros Hp. unfold rank_group.
  apply (elem_of_lookup_imap_2
           (λ p x, (x.1, resolve method (sort_group ascending g) p x.2)) _ _ _ Hp).
Qed.

Lemma bind_fst {K B C : Type} (f : K → list (B * C)) (keys : list K) :
  (keys ≫= f).*1 = keys ≫= λ t, (f t).*1.
Proof.
  induction keys as [|t keys IH]; csimpl; [done|]. by rewrite fmap_app, IH.
Qed.

(** Every source position is assigned one rank. *)
Lemma assigned_NoDup (ascending : bool) (method : TieMethod) :
  NoDup (remove_dups (time <$> df) ≫=
           λ t, rank_group ascending method (group_items df value_col t)).*1.
Proof.
  rewrite bind_fst. apply NoDup_bind; [| |apply NoDup_remove_dups].
  - intros t1 t2 i _ _. rewrite !rank_group_fst.
    unfold sort_group. rewrite !stable_sort_perm.
    intros ([i1 v1] & -> & H1)%list_elem_of_fmap ([i2 v2] & Hi & H2)%list_elem_of_fmap.
    simpl in Hi. subst i2.
    apply elem_of_group_items in H1 as (r1 & Hr1 & <- & _).
    apply elem_of_group_items in H2 as (r2 & Hr2 & <- & _).
    congruence.
  - intros t _. rewrite rank_group_fst. unfold sort_group.
    rewrite stable_sort_perm. apply group_items_NoDup.
Qed.

(** The series has one entry per row, and the entry at the position of a
    row is the rank resolved for that row in the sorted group of its
    time period. *)
Lemma calculate_ranks_lookup (ascending : bool) (method : TieMethod)
    (i : nat) (row : Row) :
  df !! i = Some row →
  let s := sort_group ascending (group_items df value_col (time row)) in
  ∃ p, s !! p = Some (i, value_col row) ∧
       calculate_ranks df value_col ascending method !! i
       = Some (Some (resolve method s p (value_col row))).
Proof.
  intros Hrow s.
  assert ((i, value_col row) ∈ s) as Hin.
  { unfold s, sort_group. rewrite stable_sort_perm.
    apply elem_of_group_items. eauto. }
  apply list_elem_of_lookup in Hin as [p Hp]. exists p. split; [done|].
  unfold calculate_ranks, groupby_rank. apply scatter_lookup.
  - apply assigned_NoDup.
  - apply list_elem_of_bind. exists (time row). split.
    + by apply elem_of_rank_group.
    + apply elem_of_remove_dups, list_elem_of_fmap. exists row. split; [done|].
      by eapply list_elem_of_lookup_2.
  - by eapply lookup_lt_Some.
Qed.

Lemma calculate_ranks_length (ascending : bool) (method : TieMethod) :
  length (calculate_ranks df value_col ascending method) = length df.
Proof. apply scatter_length. Qed.
End GroupFacts.

(** * Rank derivation: counts as floats *)

Lemma Qnat_le (n m : nat) : (n ≤ m)%nat → (Qnat n <= Qnat m)%Q.
Proof. intros H. unfold Qnat. rewrite <- Zle_Qle. lia. Qed.

Lemma Qnat_lt (n m : nat) : (n < m)%nat → (Qnat n < Qnat m)%Q.
Proof. intros H. unfold Qnat. rewrite <- Zlt_Qlt. lia. Qed.

Lemma Qnat_nonneg (n : nat) : (0 <= Qnat n)%Q.
Proof. apply (Qnat_le 0 n). lia. Qed.

Lemma Qnat_mul (n m : nat) : (Qnat n * Qnat m)%Q = Qnat (n * m).
Proof. unfold Qnat. by rewrite <- inject_Z_mult, Nat2Z.inj_mul. Qed.

Lemma sum_list_lower (lo : nat) (l : list nat) :
  (∀ x, x ∈ l → lo ≤ x)%nat → (lo * length l ≤ sum_list l)%nat.
Proof.
  induction l as [|x l IH]; intros H; simpl; [lia|].
  assert (lo ≤ x)%nat by (apply H; left).
  assert (lo * length l ≤ sum_list l)%nat by (apply IH; intros y Hy; apply H; by right).
  rewrite Nat.mul_succ_r. unfold id in *. lia.
Qed.

Lemma sum_list_upper (hi : nat) (l : list nat) :
  (∀ x, x ∈ l → x ≤ hi)%nat → (sum_list l ≤ hi * length l)%nat.
Proof.
  induction l as [|x l IH]; intros H; simpl; [lia|].
  assert (x ≤ hi)%nat by (apply H; left).
  assert (sum_list l ≤ hi * length l)%nat by (apply IH; intros y Hy; apply H; by right).
  rewrite Nat.mul_succ_r. unfold id in *. lia.
Qed.

(** The mean of a non-empty list lies between any bounds of its entries. *)
Lemma mean_lower (lo : nat) (l : list nat) :
  l ≠ [] → (∀ x, x ∈ l → lo ≤ x)%nat →
  (Qnat lo <= Qnat (sum_list l) / Qnat (length l))%Q.
Proof.
  intros Hne H. apply Qle_shift_div_l.
  - apply (Qnat_lt 0). destruct l; [done|simpl; lia].
  - rewrite Qnat_mul. by apply Qnat_le, sum_list_lower.
Qed.

Lemma mean_upper (hi : nat) (l : list nat) :
  l ≠ [] → (∀ x, x ∈ l → x ≤ hi)%nat →
  (Qnat (sum_list l) / Qnat (length l) <= Qnat hi)%Q.
Proof.
  intros Hne H. apply Qle_shift_div_r.
  - apply (Qnat_lt 0). destruct l; [done|simpl; lia].
  - rewrite Qnat_mul. by apply Qnat_le, sum_list_upper.
Qed.

Lemma mean_nonneg (a b : nat) : (0 <= Qnat a / Qnat b)%Q.
Proof.
  apply Qmult_le_0_compat; [|apply Qinv_le_0_compat]; apply Qnat_nonneg.
Qed.

Lemma min_list_le (l : list nat) (x : nat) :
  x ∈ l → (Data.min_list l ≤ x)%nat.
Proof.
  destruct l as [|a l]; [by inversion 1|]. simpl.
  revert a. induction l as [|b l IH]; intros a Hx; simpl.
  - apply list_elem_of_singleton in Hx. lia.
  - assert (x = b ∨ x ∈ a :: l) as [->|Hx'].
    { apply elem_of_cons in Hx as [->|Hx]; [right; left|].
      apply elem_of_cons in Hx as [->|Hx]; [by left|right; by right]. }
    + lia.
    + specialize (IH a Hx'). lia.
Qed.

Lemma min_list_elem_of (l : list nat) : l ≠ [] → Data.min_list l ∈ l.
Proof.
  destruct l as [|a l]; [done|]. intros _. simpl.
  revert a. induction l as [|b l IH]; intros a; simpl; [left|].
  destruct (Nat.min_spec b (foldr Nat.min a l)) as [[_ ->]|[_ ->]].
  - right; left.
  - specialize (IH a). apply elem_of_cons in IH as [->|IH]; [left|by right; right].
Qed.

(** * Rank derivation: order and ties within a group *)

Lemma in_order_lookup {A : Type} (leb : A → A → bool) (l : list A) :
  in_order leb l →
  ∀ p q x y, (p < q)%nat → l !! p = Some x → l !! q = Some y → leb x y = true.
Proof.
  induction l as [|a l IH]; intros Hl p q x y Hpq Hp Hq; [done|].
  destruct Hl as [Ha Hl]. destruct q as [|q]; [lia|].
  destruct p as [|p]; simpl in *.
  - simplify_eq. apply Ha. by eapply list_elem_of_lookup_2.
  - eapply (IH Hl p q); [lia|done..].
Qed.

Section TieFacts.
Import Data.

Lemma precedes_total (ascending : bool) (a b : option Q) :
  precedes ascending a b = true ∨ precedes ascending b a = true.
Proof.
  destruct a as [x|], b as [y|]; simpl; auto.
  destruct ascending; rewrite !Qle_bool_iff;
    destruct (Qlt_le_dec x y); auto; left + right; lra.
Qed.

Lemma precedes_trans (ascending : bool) (a b c : option Q) :
  precedes ascending a b = true → precedes ascending b c = true →
  precedes ascending a c = true.
Proof.
  destruct a as [x|], b as [y|], c as [z|]; simpl; try done.
  destruct ascending; rewrite !Qle_bool_iff; lra.
Qed.

Lemma sort_group_in_order (ascending : bool) (g : list Item) :
  in_order (λ a b : Item, precedes ascending a.2 b.2) (sort_group ascending g).
Proof.
  apply stable_sort_in_order.
  - intros a b. apply precedes_total.
  - intros a b c. apply precedes_trans.
Qed.

Lemma tied_refl (v : option Q) : tied v v = true.
Proof. destruct v; [apply Qeq_bool_refl|done]. Qed.

(** In a sorted group every present value comes before every absent one. *)
Lemma present_before_absent (ascending : bool) (g : list Item)
    (p q i j : nat) (v : Q) :
  sort_group ascending g !! p = Some (i, None) →
  sort_group ascending g !! q = Some (j, Some v) →
  (q < p)%nat.
Proof.
  intros Hp Hq. destruct (decide (q < p)%nat) as [|Hge]; [done|].
  destruct (decide (p = q)) as [->|Hne]; [congruence|].
  assert (p < q)%nat as Hlt by lia.
  pose proof (in_order_lookup _ _ (sort_group_in_order ascending g)
                _ _ _ _ Hlt Hp Hq) as H.
  done.
Qed.

Lemma elem_of_tie_ranks (s : list Item) (v : option Q) (r : nat) :
  r ∈ tie_ranks s v ↔ ∃ q x, r = S q ∧ s !! q = Some x ∧ tied x.2 v = true.
Proof.
  unfold tie_ranks, competition. rewrite list_elem_of_fmap. split.
  - intros ([x r'] & -> & Hx). apply list_elem_of_filter in Hx as [Ht Hx].
    apply list_elem_of_lookup in Hx as [q Hq].
    apply lookup_zip_Some in Hq as [Hs Hr].
    apply lookup_seq in Hr as [-> _]. exists q, x. simpl in *.
    split; [done|]. split; [done|]. by apply Is_true_true.
  - intros (q & x & -> & Hs & Ht). exists (x, S q). split; [done|].
    apply list_elem_of_filter. split; [by apply Is_true_true|].
    apply list_elem_of_lookup. exists q. apply lookup_zip_Some. split; [done|].
    apply lookup_seq. split; [done|]. by eapply lookup_lt_Some.
Qed.

Lemma tie_ranks_own (s : list Item) (p : nat) (x : Item) :
  s !! p = Some x → S p ∈ tie_ranks s x.2.
Proof.
  intros Hp. apply elem_of_tie_ranks. exists p, x. by rewrite tied_refl.
Qed.

Lemma tie_ranks_nonempty (s : list Item) (p : nat) (x : Item) :
  s !! p = Some x → tie_ranks s x.2 ≠ [].
Proof.
  intros Hp Hnil. pose proof (tie_ranks_own s p x Hp) as H.
  rewrite Hnil in H. by inversion H.
Qed.

(** A value that ties with no other position has one competition rank. *)
Lemma tie_ranks_from_single (v : option Q) (s : list Item) :
  ∀ (k p : nat) (x : Item),
    s !! p = Some x →
    (∀ q y, s !! q = Some y → tied y.2 v = true ↔ q = p) →
    (filter (λ xr : Item * nat, tied xr.1.2 v) (zip s (seq k (length s)))).*2
    = [(k + p)%nat].
Proof.
  induction s as [|a s IH]; intros k p x Hp Hq; [done|].
  cbn [length seq zip_with]. rewrite filter_cons. destruct p as [|p].
  - destruct (decide _) as [_|Hn].
    2:{ exfalso. apply Hn. apply Is_true_true. simpl. by apply (Hq 0%nat a). }
    cbn [fmap list_fmap snd]. f_equal; [lia|].
    assert (filter (λ xr : Item * nat, tied xr.1.2 v) (zip s (seq (S k) (length s))) = [])
      as ->; [|done].
    apply elem_of_nil_inv. intros [y r] Hy.
    apply list_elem_of_filter in Hy as [Ht Hy]. apply Is_true_true in Ht.
    apply list_elem_of_lookup in Hy as [q Hy].
    apply lookup_zip_Some in Hy as [Hy _].
    assert (S q = 0)%nat by (by apply (Hq (S q) y)). lia.
  - destruct (decide _) as [Ht|_].
    { apply Is_true_true in Ht. assert (0 = S p)%nat by (by apply (Hq 0%nat a)). lia. }
    rewrite (IH (S k) p x); [f_equal; lia|done|].
    intros q y Hy. rewrite (Hq (S q) y Hy). lia.
Qed.

Lemma tie_ranks_single (s : list Item) (p : nat) (x : Item) :
  s !! p = Some x →
  (∀ q y, s !! q = Some y → q ≠ p → tied y.2 x.2 = false) →
  tie_ranks s x.2 = [S p].
Proof.
  intros Hp Hq. unfold tie_ranks, competition.
  rewrite (tie_ranks_from_single x.2 s 1 p x Hp); [done|].
  intros q y Hy. split.
  - intros Ht. destruct (decide (q = p)) as [|Hne]; [done|].
    rewrite (Hq q y Hy Hne) in Ht. done.
  - intros ->. simplify_eq. apply tied_refl.
Qed.

(** The dense rank grows by one at each change of value, and not otherwise. *)
Lemma distinct_runs_step (s : list Item) :
  ∀ (p : nat) (x y : Item),
    s !! p = Some x → s !! S p = Some y →
    distinct_runs (take (S (S p)) s)
    = (distinct_runs (take (S p) s) + if tied x.2 y.2 then 0 else 1)%nat.
Proof.
  induction s as [|a s IH]; intros p x y Hp Hq; [done|].
  destruct s as [|b s]; [done|].
  destruct p as [|p].
  - simplify_eq/=. destruct s; destruct (tied x.2 y.2); done.
  - specialize (IH p x y Hp Hq).
    change (take (S (S (S p))) (a :: b :: s)) with (a :: take (S (S p)) (b :: s)).
    change (take (S (S p)) (a :: b :: s)) with (a :: take (S p) (b :: s)).
    change (take (S (S p)) (b :: s)) with (b :: take (S p) s) in *.
    change (take (S p) (b :: s)) with (b :: take p s) in *.
    cbn [distinct_runs] in *. destruct (tied a.2 b.2); lia.
Qed.

Lemma distinct_runs_mono (s : list Item) (p q : nat) :
  (p ≤ q)%nat → (q < length s)%nat →
  (distinct_runs (take (S p) s) ≤ distinct_runs (take (S q) s))%nat.
Proof.
  induction q as [|q IH]; intros Hpq Hq.
  - by replace p with 0%nat by lia.
  - destruct (decide (p = S q)) as [->|Hne]; [done|].
    destruct (lookup_lt_is_Some_2 s q) as [x Hx]; [lia|].
    destruct (lookup_lt_is_Some_2 s (S q)) as [y Hy]; [lia|].
    rewrite (distinct_runs_step s q x y Hx Hy).
    assert (distinct_runs (take (S p) s) ≤ distinct_runs (take (S q) s))%nat
      by (apply IH; lia).
    lia.
Qed.

(** The dense rank of an absent value exceeds that of any present value
    before it. *)
Lemma distinct_runs_absent (s : list Item) (q : nat) (j : nat) (v : Q) :
  s !! q = Some (j, Some v) →
  ∀ (p i : nat), s !! p = Some (i, None) → (q < p)%nat →
  (distinct_runs (take (S q) s) < distinct_runs (take (S p) s))%nat.
Proof.
  intros Hq. induction p as [|p IH]; intros i Hp Hlt; [lia|].
  destruct (lookup_lt_is_Some_2 s p) as [[k w] Hw];
    [apply lookup_lt_Some in Hp; lia|].
  rewrite (distinct_runs_step s p _ _ Hw Hp). simpl.
  destruct w as [w|]; simpl.
  - pose proof (distinct_runs_mono s q p) as H.
    ospecialize (H _ _); [lia|by eapply lookup_lt_Some|]. lia.
  - assert (q ≠ p) by congruence.
    specialize (IH k Hw). ospecialize (IH _); [lia|]. lia.
Qed.

Lemma distinct_runs_untied (s : list Item) :
  (∀ q x y, s !! q = Some x → s !! S q = Some y → tied x.2 y.2 = false) →
  ∀ p, (p < length s)%nat → distinct_runs (take (S p) s) = S p.
Proof.
  intros Hs. induction p as [|p IH]; intros Hp.
  - destruct s as [|a s]; [simpl in Hp; lia|]. by destruct s.
  - destruct (lookup_lt_is_Some_2 s p) as [x Hx]; [lia|].
    destruct (lookup_lt_is_Some_2 s (S p)) as [y Hy]; [lia|].
    rewrite (distinct_runs_step s p x y Hx Hy), (Hs p x y Hx Hy), IH by lia. lia.
Qed.

Lemma resolve_nonneg (method : TieMethod) (s : list Item) (p : nat) (v : option Q) :
  (0 <= resolve method s p v)%Q.
Proof.
  destruct method; simpl; try apply Qnat_nonneg. apply mean_nonneg.
Qed.
End TieFacts.

(** * Rank derivation: the claims on [calculate_ranks] *)

Section RankClaims.
Import Data.

(** The sorted group of a time period holds each source position once. *)
Lemma sort_group_NoDup (df : DataFrame) (value_col : Column) (ascending : bool) (t : Z) :
  NoDup (sort_group ascending (group_items df value_col t)).*1.
Proof.
  unfold sort_group. rewrite stable_sort_perm. apply group_items_NoDup.
Qed.

Lemma sort_group_row (df : DataFrame) (value_col : Column) (ascending : bool)
    (t : Z) (p i : nat) (v : option Q) :
  sort_group ascending (group_items df value_col t) !! p = Some (i, v) →
  ∃ r, df !! i = Some r ∧ time r = t ∧ v = value_col r.
Proof.
  intros Hp. apply list_elem_of_lookup_2 in Hp.
  unfold sort_group in Hp. rewrite stable_sort_perm in Hp.
  by apply elem_of_group_items.
Qed.

(** Every rank of an absent value is after every rank of a present one. *)
Lemma tie_ranks_absent_after (ascending : bool) (g : list Item) (v : Q) (a b : nat) :
  a ∈ tie_ranks (sort_group ascending g) None →
  b ∈ tie_ranks (sort_group ascending g) (Some v) →
  (b < a)%nat.
Proof.
  intros (qa & [i x] & -> & Hx & Htx)%elem_of_tie_ranks
         (qb & [j y] & -> & Hy & Hty)%elem_of_tie_ranks.
  destruct x as [x|]; [done|]. destruct y as [y|]; [|done].
  pose proof (present_before_absent ascending g qa qb i j y Hx Hy). lia.
Qed.

(** C6: for every input, both directions and all five tie methods, an
    observation whose value is absent receives a rank strictly greater
    (worse) than every observation of the same time period whose value is
    present. *)
Theorem absent_values_rank_last
    (df : DataFrame) (value_col : Column) (ascending : bool) (method : TieMethod)
    (i j : nat) (ri rj : Row) (v : Q) :
  df !! i = Some ri → df !! j = Some rj → time ri = time rj →
  value_col ri = None → value_col rj = Some v →
  ∃ a b, calculate_ranks df value_col ascending method !! i = Some (Some a) ∧
         calculate_ranks df value_col ascending method !! j = Some (Some b) ∧
         (b < a)%Q.
Proof.
  intros Hi Hj Ht Hvi Hvj.
  destruct (calculate_ranks_lookup df value_col ascending method i ri Hi)
    as (p & Hp & ->).
  destruct (calculate_ranks_lookup df value_col ascending method j rj Hj)
    as (q & Hq & ->).
  rewrite <- Ht in *. rewrite Hvi, Hvj in *.
  set (g := group_items df value_col (time ri)) in *.
  set (s := sort_group ascending g) in *.
  eexists _, _. split; [done|]. split; [done|].
  pose proof (present_before_absent ascending g p q i j v Hp Hq) as Hqp.
  pose proof (tie_ranks_nonempty s p _ Hp) as HA.
  pose proof (tie_ranks_nonempty s q _ Hq) as HB.
  pose proof (tie_ranks_absent_after ascending g v) as Hab.
  fold s in Hab. simpl in HA, HB.
  destruct method; simpl.
  - set (M := max_list (tie_ranks s (Some v))).
    assert ((Qnat (sum_list (tie_ranks s (Some v)))
             / Qnat (length (tie_ranks s (Some v))) <= Qnat M)%Q) as Hup.
    { apply mean_upper; [done|]. intros x Hx. by apply max_list_elem_of_le. }
    assert ((Qnat (S M) <= Qnat (sum_list (tie_ranks s None))
             / Qnat (length (tie_ranks s None)))%Q) as Hlo.
    { apply mean_lower; [done|]. intros x Hx.
      specialize (Hab x M Hx (max_list_elem_of _ HB)). lia. }
    pose proof (Qnat_lt M (S M)). ospecialize (H _); [lia|]. lra.
  - apply Qnat_lt, Hab; by apply min_list_elem_of.
  - apply Qnat_lt, Hab; by apply max_list_elem_of.
  - apply Qnat_lt. lia.
  - apply Qnat_lt. by eapply distinct_runs_absent.
Qed.

Lemma absent_values_rank_last_witness :
  let df := [mkRow 2020 "A" None (Some 100%Q); mkRow 2020 "B" None None;
             mkRow 2020 "C" None (Some 80%Q)] in
  ∃ a b, calculate_ranks df value false Average !! 1%nat = Some (Some a) ∧
         calculate_ranks df value false Average !! 2%nat = Some (Some b) ∧
         (b < a)%Q.
Proof.
  intros df.
  apply (absent_values_rank_last df value false Average 1 2
           (mkRow 2020 "B" None None) (mkRow 2020 "C" None (Some 80%Q)) 80%Q);
    reflexivity.
Defined.

(** C8: for every input the series returned by [calculate_ranks] is
    aligned to the input rows: it has one entry per row, and the entry at
    position [i] is the rank resolved for the observation at input
    position [i], at whatever position [p] the sort of its time period
    has put that observation. *)
Theorem calculate_ranks_aligned
    (df : DataFrame) (value_col : Column) (ascending : bool) (method : TieMethod) :
  length (calculate_ranks df value_col ascending method) = length df ∧
  ∀ i row, df !! i = Some row →
    let s := sort_group ascending (group_items df value_col (time row)) in
    ∃ p, s !! p = Some (i, value_col row) ∧
         calculate_ranks df value_col ascending method !! i
         = Some (Some (resolve method s p (value_col row))).
Proof.
  split; [apply calculate_ranks_length|].
  intros i row Hrow. by apply calculate_ranks_lookup.
Qed.

(** Without ties in a time period, every method gives an observation
    its competition rank. *)
Lemma resolve_untied (df : DataFrame) (value_col : Column) (ascending : bool)
    (method : TieMethod) (t : Z) (p i : nat) (v : option Q) :
  distinct_present df value_col → one_absent df value_col →
  let s := sort_group ascending (group_items df value_col t) in
  s !! p = Some (i, v) →
  (resolve method s p v == Qnat (S p))%Q.
Proof.
  intros Hdp Hoa s Hp.
  assert (∀ q1 q2 x y, q1 ≠ q2 → s !! q1 = Some x → s !! q2 = Some y →
                       tied x.2 y.2 = false) as Huntied.
  { intros q1 q2 [i1 v1] [i2 v2] Hne H1 H2.
    assert (i1 ≠ i2) as Hi.
    { intros ->. apply Hne.
      apply (NoDup_lookup _ q1 q2 i2 (sort_group_NoDup df value_col ascending t));
        rewrite list_lookup_fmap; fold s; by rewrite ?H1, ?H2. }
    destruct (sort_group_row _ _ _ _ _ _ _ H1) as (r1 & Hr1 & Ht1 & ->).
    destruct (sort_group_row _ _ _ _ _ _ _ H2) as (r2 & Hr2 & Ht2 & ->).
    simpl. destruct (value_col r1) as [w1|] eqn:E1, (value_col r2) as [w2|] eqn:E2;
      simpl; try done.
    - destruct (Qeq_bool w1 w2) eqn:E; [|done]. apply Qeq_bool_iff in E.
      exfalso. eapply (Hdp i1 i2 r1 r2 w1 w2); eauto. congruence.
    - exfalso. apply Hi. eapply (Hoa i1 i2 r1 r2); eauto. congruence. }
  assert (tie_ranks s v = [S p]) as Hties.
  { apply (tie_ranks_single s p (i, v) Hp). intros q y Hy Hne.
    by apply (Huntied q p y (i, v)). }
  destruct method; simpl; rewrite ?Hties; simpl.
  - unfold id. rewrite Nat.add_0_r. unfold Qdiv.
    change (/ Qnat 1)%Q with 1%Q. apply Qmult_1_r.
  - reflexivity.
  - rewrite ?Nat.max_0_r. reflexivity.
  - reflexivity.
  - rewrite distinct_runs_untied; [reflexivity| |by eapply lookup_lt_Some].
    intros q x y Hx Hy. apply (Huntied q (S q) x y); [lia|done..].
Qed.

(** C9 (as the code has it): for every input in which no time period
    holds two equal present values or more than one absent value, all
    five tie methods produce the same ranks from [calculate_ranks]. *)
Theorem tie_methods_agree_without_ties
    (df : DataFrame) (value_col : Column) (ascending : bool) (m1 m2 : TieMethod) :
  distinct_present df value_col → one_absent df value_col →
  same_ranks (calculate_ranks df value_col ascending m1)
             (calculate_ranks df value_col ascending m2).
Proof.
  intros Hdp Hoa. apply Forall2_same_length_lookup_2.
  - by rewrite !calculate_ranks_length.
  - intros i x y Hx Hy.
    destruct (lookup_lt_is_Some_2 df i) as [row Hrow].
    { apply lookup_lt_Some in Hx. by rewrite calculate_ranks_length in Hx. }
    destruct (calculate_ranks_lookup df value_col ascending m1 i row Hrow)
      as (p1 & Hp1 & H1).
    destruct (calculate_ranks_lookup df value_col ascending m2 i row Hrow)
      as (p2 & Hp2 & H2).
    assert (p1 = p2) as <-.
    { apply (NoDup_lookup _ p1 p2 i
               (sort_group_NoDup df value_col ascending (time row)));
        rewrite list_lookup_fmap; by rewrite ?Hp1, ?Hp2. }
    simplify_eq. constructor.
    rewrite (resolve_untied df value_col ascending m1 _ _ _ _ Hdp Hoa Hp1).
    by rewrite (resolve_untied df value_col ascending m2 _ _ _ _ Hdp Hoa Hp1).
Qed.
End RankClaims.

(** * Rank derivation: validation *)

Section ValidationFacts.
Import Data.

(** A list is free of duplicates exactly when each of its entries occurs
    once in it. *)
Lemma NoDup_occurs_once {K : Type} `{EqDecision K} (ks : list K) :
  NoDup ks ↔ Forall (λ k, length (filter (λ k', k' = k) ks) ≤ 1)%nat ks.
Proof.
  induction ks as [|a l IH]; [split; constructor|].
  rewrite NoDup_cons, Forall_cons, IH. split.
  - intros [Ha Hl]. split.
    + rewrite filter_cons_True by done. simpl.
      assert (filter (λ k', k' = a) l = []) as ->; [|simpl; lia].
      apply elem_of_nil_inv. intros k [-> Hk]%list_elem_of_filter. done.
    + apply Forall_forall. intros k Hk.
      rewrite filter_cons_False by (intros ->; done).
      by eapply Forall_forall in Hl.
  - intros [Ha Hl]. rewrite filter_cons_True in Ha by done. simpl in Ha. split.
    + intros Hin.
      assert (a ∈ filter (λ k', k' = a) l) as Hf by (by apply list_elem_of_filter).
      destruct (filter (λ k', k' = a) l); [by inversion Hf|simpl in Ha; lia].
    + apply Forall_forall. intros k Hk. eapply Forall_forall in Hl; [|done].
      rewrite filter_cons in Hl. destruct (decide (a = k)); simpl in Hl; lia.
Qed.

Lemma duplicated_NoDup (df : list RankedRow) :
  NoDup (key <$> df) → existsb id (duplicated df) = false.
Proof.
  intros Hnd. destruct (existsb id (duplicated df)) eqn:E; [|done].
  apply Is_true_true, existb_True in E. unfold duplicated in E.
  rewrite Exists_fmap in E. apply Exists_exists in E as (r & Hr & Hdup).
  apply bool_decide_unpack in Hdup.
  apply NoDup_occurs_once in Hnd.
  eapply Forall_forall in Hnd; [|apply list_elem_of_fmap; by exists r]. lia.
Qed.

Lemma duplicated_not_NoDup (df : list RankedRow) :
  ¬ NoDup (key <$> df) → existsb id (duplicated df) = true.
Proof.
  intros Hnd. destruct (existsb id (duplicated df)) eqn:E; [done|].
  exfalso. apply Hnd, NoDup_occurs_once, Forall_forall.
  intros k (r & -> & Hr)%list_elem_of_fmap.
  destruct (decide (length (filter (λ k', k' = key r) (key <$> df)) ≤ 1)%nat)
    as [|Hgt]; [done|].
  assert (existsb id (duplicated df)) as Hex; [|by rewrite E in Hex].
  apply existb_True. unfold duplicated. apply Exists_fmap, Exists_exists.
  exists r. split; [done|]. apply bool_decide_pack. lia.
Qed.

Lemma shares_key_not_NoDup (df : DataFrame) :
  shares_key df → ¬ NoDup ((λ r, (time r, entity r)) <$> df).
Proof.
  intros (i & j & a & b & Hne & Ha & Hb & Ht & He) Hnd. apply Hne.
  apply (NoDup_lookup _ i j (time a, entity a) Hnd);
    rewrite list_lookup_fmap, ?Ha, ?Hb; simpl; congruence.
Qed.

Lemma distinct_keys_NoDup (df : DataFrame) :
  distinct_keys df → NoDup ((λ r, (time r, entity r)) <$> df).
Proof.
  intros Hd. apply NoDup_alt. intros i j k Hi Hj.
  rewrite list_lookup_fmap in Hi, Hj.
  destruct (df !! i) as [a|] eqn:Ha, (df !! j) as [b|] eqn:Hb; simplify_eq/=.
  eapply Hd; eauto.
Qed.

(** The ranks that [calculate_ranks] returns are numbers, none negative. *)
Lemma calculate_ranks_valid (df : DataFrame) (value_col : Column)
    (ascending : bool) (method : TieMethod) :
  Forall (λ o, ∃ q, o = Some q ∧ (0 <= q)%Q)
         (calculate_ranks df value_col ascending method).
Proof.
  apply Forall_lookup_2. intros i o Ho.
  destruct (lookup_lt_is_Some_2 df i) as [row Hrow].
  { apply lookup_lt_Some in Ho. by rewrite calculate_ranks_length in Ho. }
  destruct (calculate_ranks_lookup df value_col ascending method i row Hrow)
    as (p & _ & H).
  rewrite H in Ho. simplify_eq. eexists. split; [done|]. apply resolve_nonneg.
Qed.

Lemma valid_not_all_nan (ranks : list (option Q)) :
  ranks ≠ [] → Forall (λ o, ∃ q, o = Some q ∧ (0 <= q)%Q) ranks →
  forallb isna ranks = false.
Proof.
  intros Hne Hv. destruct Hv as [|o ranks (q & -> & _) _]; done.
Qed.

Lemma valid_none_negative (ranks : list (option Q)) :
  Forall (λ o, ∃ q, o = Some q ∧ (0 <= q)%Q) ranks →
  existsb (λ r, Qltb r 0) (dropna ranks) = false.
Proof.
  induction 1 as [|o ranks (q & -> & Hq) _ IH]; [done|].
  simpl. rewrite IH, orb_false_r. by apply Qltb_ge.
Qed.

(** With a value column and a non-empty frame, the one test of
    [prepare_data] that can fail is the test for duplicated pairs. *)
Lemma prepare_data_value (df : DataFrame) (rank_col : option Column)
    (value_col : Column) (ascending : bool) (tie_method : TieMethod) :
  df ≠ [] →
  let prepared :=
    zip_with mkRanked df (calculate_ranks df value_col ascending tie_method) in
  prepare_data df rank_col (Some value_col) ascending tie_method
  = if existsb id (duplicated prepared)
    then Err (ValueError (DuplicateEntityTime (dup_rows prepared (duplicated prepared))))
    else Ok (stable_sort time_entity_le prepared).
Proof.
  intros Hne prepared. unfold prepare_data, validate_dataframe.
  rewrite bool_decide_eq_false_2 by done.
  assert (match rank_col with
          | Some _ | _ => Ok () : result unit
          end = Ok ()) as -> by (by destruct rank_col).
  cbn [mbind result_bind]. fold prepared. unfold _validate_ranks.
  assert (_rank <$> prepared = calculate_ranks df value_col ascending tie_method) as ->.
  { apply fmap_zip_with_r; [done|]. by rewrite calculate_ranks_length. }
  rewrite valid_not_all_nan, valid_none_negative; try apply calculate_ranks_valid.
  - by destruct (existsb id (duplicated prepared)).
  - intros Hnil. apply (f_equal length) in Hnil.
    rewrite calculate_ranks_length in Hnil. by destruct df.
Qed.

(** Ranks given directly that are all absent are rejected. *)
Lemma prepare_data_rank_all_nan (df : DataFrame) (rank_col : Column)
    (ascending : bool) (tie_method : TieMethod) :
  df ≠ [] → Forall (λ r, rank_col r = None) df →
  prepare_data df (Some rank_col) None ascending tie_method
  = Err (ValueError AllRankValuesNaN).
Proof.
  intros Hne Hall. unfold prepare_data, validate_dataframe.
  rewrite bool_decide_eq_false_2 by done.
  cbn [mbind result_bind]. unfold _validate_ranks.
  assert (_rank <$> zip_with mkRanked df (rank_col <$> df) = rank_col <$> df) as ->.
  { apply fmap_zip_with_r; [done|]. by rewrite length_fmap. }
  assert (forallb isna (rank_col <$> df) = true) as ->; [|done].
  clear Hne. induction Hall as [|r df Hr _ IH]; [done|].
  csimpl. by rewrite Hr, IH.
Qed.

Lemma prepared_keys (df : DataFrame) (value_col : Column)
    (ascending : bool) (tie_method : TieMethod) :
  key <$> zip_with mkRanked df (calculate_ranks df value_col ascending tie_method)
  = (λ r, (time r, entity r)) <$> df.
Proof.
  change key with ((λ r, (time r, entity r)) ∘ source).
  rewrite list_fmap_compose. f_equal.
  apply fmap_zip_with_l; [done|]. by rewrite calculate_ranks_length.
Qed.
End ValidationFacts.

(** * Rank derivation: the claims on [prepare_data] *)

Section PrepareClaims.
Import Data.

(** C2 (as the code has it): [prepare_data] fails with [InvalidInput]
    whenever the frame is empty, and whenever the ranks are given
    directly and every one of them is absent.  With a value column,
    absent values are ranked last: a non-empty frame whose values are all
    absent and whose (time, entity) pairs are distinct is prepared and
    returned. *)
Theorem prepare_data_invalid_input :
  (∀ rank_col value_col ascending tie_method,
     fails_with (prepare_data [] rank_col value_col ascending tie_method)
                InvalidInput) ∧
  (∀ df rank_col ascending tie_method,
     df ≠ [] → Forall (λ r, rank_col r = None) df →
     fails_with (prepare_data df (Some rank_col) None ascending tie_method)
                InvalidInput) ∧
  (∀ df rank_col value_col ascending tie_method,
     df ≠ [] → Forall (λ r, value_col r = None) df → distinct_keys df →
     succeeds (prepare_data df rank_col (Some value_col) ascending tie_method)).
Proof.
  split; [|split].
  - intros rank_col value_col ascending tie_method.
    exists (ValueError DataFrameIsEmpty). by split.
  - intros df rank_col ascending tie_method Hne Hall.
    rewrite prepare_data_rank_all_nan by done. by eexists.
  - intros df rank_col value_col ascending tie_method Hne _ Hd.
    rewrite prepare_data_value by done.
    rewrite duplicated_NoDup; [by eexists|].
    rewrite prepared_keys. by apply distinct_keys_NoDup.
Qed.

(** C2, the claim as stated fails: a non-empty frame whose values are all
    absent is not rejected; both rows are ranked and the frame is
    returned. *)
Lemma prepare_data_all_absent_accepted :
  let df := [mkRow 2020 "A" None None; mkRow 2020 "B" None None] in
  df ≠ [] ∧ Forall (λ r, value r = None) df ∧
  prepare_data df None (Some value) true Min
  = Ok [mkRanked (mkRow 2020 "A" None None) (Some 1%Q);
        mkRanked (mkRow 2020 "B" None None) (Some 1%Q)] ∧
  ¬ fails_with (prepare_data df None (Some value) true Min) InvalidInput.
Proof.
  split; [done|]. split; [by repeat constructor|].
  split; [by vm_compute|].
  intros (e & He & _). vm_compute in He. discriminate He.
Qed.

Lemma prepare_data_invalid_input_witness :
  succeeds
    (prepare_data [mkRow 2020 "A" None None; mkRow 2020 "B" None None]
                  None (Some value) true Average).
Proof.
  apply (proj2 (proj2 prepare_data_invalid_input)).
  - discriminate.
  - by repeat constructor.
  - intros [|[|i]] [|[|j]] a b Ha Hb Ht He; simplify_eq/=; done.
Defined.

(** C7: with a value column, [prepare_data] fails with [DuplicateKey]
    whenever two observations of the input share their (time, entity)
    pair; whenever all pairs are distinct it does not fail with
    [DuplicateKey], and returns the prepared frame if the input is not
    empty. *)
Theorem prepare_data_duplicate_key
    (df : DataFrame) (rank_col : option Column) (value_col : Column)
    (ascending : bool) (tie_method : TieMethod) :
  (shares_key df →
   fails_with (prepare_data df rank_col (Some value_col) ascending tie_method)
              DuplicateKey) ∧
  (distinct_keys df →
   ¬ fails_with (prepare_data df rank_col (Some value_col) ascending tie_method)
                DuplicateKey) ∧
  (distinct_keys df → df ≠ [] →
   succeeds (prepare_data df rank_col (Some value_col) ascending tie_method)).
Proof.
  split; [|split].
  - intros Hs.
    assert (df ≠ []) as Hne.
    { destruct Hs as (i & _ & a & _ & _ & Ha & _). by destruct df. }
    rewrite prepare_data_value by done.
    rewrite duplicated_not_NoDup; [by eexists|].
    rewrite prepared_keys. by apply shares_key_not_NoDup.
  - intros Hd (e & He & Hk). destruct df as [|r df].
    + unfold prepare_data in He. simpl in He. by simplify_eq.
    + rewrite prepare_data_value in He by done.
      rewrite duplicated_NoDup in He; [done|].
      rewrite prepared_keys. by apply distinct_keys_NoDup.
  - intros Hd Hne. rewrite prepare_data_value by done.
    rewrite duplicated_NoDup; [by eexists|].
    rewrite prepared_keys. by apply distinct_keys_NoDup.
Qed.

Lemma prepare_data_duplicate_key_witness :
  fails_with
    (prepare_data [mkRow 2020 "A" None (Some 1%Q); mkRow 2020 "A" None (Some 2%Q)]
                  None (Some value) true Average)
    DuplicateKey.
Proof.
  apply (proj1 (prepare_data_duplicate_key _ None value true Average)).
  exists 0%nat, 1%nat, (mkRow 2020 "A" None (Some 1%Q)), (mkRow 2020 "A" None (Some 2%Q)).
  repeat split; [lia|reflexivity..].
Defined.
End PrepareClaims.

(** * Rank derivation: instances *)

Section RankInstances.
Import Data.

Lemma calculate_ranks_aligned_witness :
  let df := [mkRow 2020 "A" None (Some 100%Q); mkRow 2020 "B" None (Some 80%Q);
             mkRow 2020 "C" None (Some 90%Q)] in
  ∃ p, sort_group false (group_items df value 2020) !! p = Some (1%nat, Some 80%Q) ∧
       calculate_ranks df value false Average !! 1%nat
       = Some (Some (resolve Average (sort_group false (group_items df value 2020))
                             p (Some 80%Q))).
Proof.
  intros df.
  apply (proj2 (calculate_ranks_aligned df value false Average) 1%nat
               (mkRow 2020 "B" None (Some 80%Q))).
  reflexivity.
Defined.

(** C9, the claim as stated fails: two absent values of one time period
    tie, and the methods rank them differently ([average] gives both
    1.5, [min] gives both 1) although no two present values are equal. *)
Lemma tie_methods_differ_on_absent :
  let df := [mkRow 2020 "A" None None; mkRow 2020 "B" None None] in
  distinct_present df value ∧
  calculate_ranks df value true Average = [Some (3 # 2); Some (3 # 2)] ∧
  calculate_ranks df value true Min = [Some 1%Q; Some 1%Q] ∧
  ¬ same_ranks (calculate_ranks df value true Average)
               (calculate_ranks df value true Min).
Proof.
  split; [|split; [|split]].
  - intros i j a b v w _ Hi _ _ Hv _.
    destruct i as [|[|i]]; simplify_eq/=.
  - by vm_compute.
  - by vm_compute.
  - intros H. vm_compute in H. inversion H as [|x y l k Hxy _]; subst.
    inversion Hxy as [p q Hpq|]; subst. discriminate Hpq.
Qed.

Lemma tie_methods_agree_without_ties_witness :
  let df := [mkRow 2020 "A" None (Some 100%Q); mkRow 2020 "B" None None;
             mkRow 2020 "C" None (Some 80%Q)] in
  same_ranks (calculate_ranks df value false Average)
             (calculate_ranks df value false Dense).
Proof.
  intros df. apply (tie_methods_agree_without_ties df value false Average Dense).
  - intros i j a b v w Hne Hi Hj _ Hv Hw.
    destruct i as [|[|[|i]]]; destruct j as [|[|[|j]]]; simplify_eq/=;
      try lia; by vm_compute.
  - intros i j a b Hi Hj _ Hv Hw.
    destruct i as [|[|[|i]]]; destruct j as [|[|[|j]]]; simplify_eq/=; done.
Defined.
End RankInstances.

(** * The examples of the specification and of the test-suite *)

Section Examples.
Import Labels Data.

Let obs (t : Z) (e : string) (v : option Q) : Row := mkRow t e None v.

Let scores : DataFrame :=
  [obs 2020 "A" (Some 100%Q); obs 2020 "B" (Some 80%Q); obs 2020 "C" (Some 90%Q)].

Let tied_scores : DataFrame :=
  [obs 2020 "A" (Some 100%Q); obs 2020 "B" (Some 100%Q); obs 2020 "C" (Some 80%Q)].

Let two_years : DataFrame :=
  [obs 2020 "A" (Some 100%Q); obs 2020 "B" (Some 80%Q);
   obs 2021 "A" (Some 70%Q); obs 2021 "B" (Some 90%Q)].

Let with_nan : DataFrame :=
  [obs 2020 "A" (Some 100%Q); obs 2020 "B" None; obs 2020 "C" (Some 80%Q)].

Ltac run_ranks := vm_compute; repeat constructor.

Example ranking_ascending :
  same_ranks (calculate_ranks scores value true Average)
             [Some 3%Q; Some 1%Q; Some 2%Q].
Proof. run_ranks. Qed.

Example ranking_descending :
  same_ranks (calculate_ranks scores value false Average)
             [Some 1%Q; Some 3%Q; Some 2%Q].
Proof. run_ranks. Qed.

Example ties_average :
  same_ranks (calculate_ranks tied_scores value false Average)
             [Some (3 # 2); Some (3 # 2); Some 3%Q].
Proof. run_ranks. Qed.

Example ties_min :
  same_ranks (calculate_ranks tied_scores value false Min)
             [Some 1%Q; Some 1%Q; Some 3%Q].
Proof. run_ranks. Qed.

Example ties_max :
  same_ranks (calculate_ranks tied_scores value false Max)
             [Some 2%Q; Some 2%Q; Some 3%Q].
Proof. run_ranks. Qed.

Example ties_dense :
  same_ranks (calculate_ranks tied_scores value false Dense)
             [Some 1%Q; Some 1%Q; Some 2%Q].
Proof. run_ranks. Qed.

Example ties_first :
  same_ranks (calculate_ranks tied_scores value false First)
             [Some 1%Q; Some 2%Q; Some 3%Q].
Proof. run_ranks. Qed.

Example multiple_time_periods :
  same_ranks (calculate_ranks two_years value false Average)
             [Some 1%Q; Some 2%Q; Some 2%Q; Some 1%Q].
Proof. run_ranks. Qed.

Example nan_values :
  same_ranks (calculate_ranks with_nan value false Average)
             [Some 1%Q; Some 3%Q; Some 2%Q].
Proof. run_ranks. Qed.

Example duplicate_entity_time :
  prepare_data [mkRow 2020 "A" (Some 1%Q) None; mkRow 2020 "A" (Some 2%Q) None;
                mkRow 2020 "B" (Some 3%Q) None] (Some rank) None true Average
  = Err (ValueError (DuplicateEntityTime [(2020%Z, "A"%string)])).
Proof. by vm_compute. Qed.

Example negative_ranks :
  prepare_data [mkRow 2020 "A" (Some (- (1))%Q) None; mkRow 2020 "B" (Some 2%Q) None]
               (Some rank) None true Average
  = Err (ValueError RankValuesNonNegative).
Proof. by vm_compute. Qed.

Example all_nan_ranks :
  prepare_data [mkRow 2020 "A" None None; mkRow 2020 "B" None None]
               (Some rank) None true Average
  = Err (ValueError AllRankValuesNaN).
Proof. by vm_compute. Qed.

Example sorted_output :
  (λ r, (time (source r), entity (source r))) <$>
    (match prepare_data [mkRow 2021 "B" (Some 2%Q) None; mkRow 2020 "A" (Some 1%Q) None;
                         mkRow 2021 "A" (Some 1%Q) None; mkRow 2020 "B" (Some 2%Q) None]
                        (Some rank) None true Average with
     | Ok prepared => prepared
     | Err _ => []
     end)
  = [(2020%Z, "A"%string); (2020%Z, "B"%string); (2021%Z, "A"%string); (2021%Z, "B"%string)].
Proof. by vm_compute. Qed.

Example label_example :
  detect_label_collisions
    [("X"%string, 1%Q); ("Y"%string, 11 # 10); ("Z"%string, 115 # 100)] (1 # 2)
  = Ok [("X"%string, 1%Q); ("Y"%string, 1 + (1 # 2))%Q;
        ("Z"%string, (1 + (1 # 2)) + (1 # 2))%Q].
Proof. by vm_compute. Qed.

Example label_single : detect_label_collisions [("X"%string, 1%Q)] (1 # 2) = Ok [("X"%string, 1%Q)].
Proof. reflexivity. Qed.

Example label_zero_separation :
  detect_label_collisions [("B"%string, 2%Q); ("A"%string, 1%Q); ("C"%string, 1%Q)] 0
  = Ok [("A"%string, 1%Q); ("C"%string, 1%Q); ("B"%string, 2%Q)].
Proof. by vm_compute. Qed.
End Examples.

(** * Colours: palettes and highlighting *)

Section ColorFacts.
Import Colors.
Context {C : Type}.

Lemma list_mul_length (colors : list C) (k : nat) :
  length (list_mul colors k) = (k * length colors)%nat.
Proof.
  unfold list_mul. induction k as [|k IH]; simpl; [done|].
  by rewrite length_app, IH.
Qed.

(** Entry [i] of a repeated list is entry [i mod len] of the list. *)
Lemma list_mul_lookup (colors : list C) (k i : nat) :
  (i < k * length colors)%nat →
  list_mul colors k !! i = colors !! (i mod length colors)%nat.
Proof.
  unfold list_mul. revert i. induction k as [|k IH]; intros i Hi; [lia|].
  assert (length colors ≠ 0)%nat as Hlen by (destruct colors; simpl in *; lia).
  simpl. destruct (decide (i < length colors)%nat) as [Hlt|Hge].
  - rewrite lookup_app_l by done. by rewrite Nat.mod_small.
  - rewrite lookup_app_r by lia. rewrite IH by lia. f_equal.
    replace i with ((i - length colors) + 1 * length colors)%nat at 2 by lia.
    by rewrite Nat.Div0.mod_add.
Qed.

Lemma fold_highlight_raise (hs : gset string) (base : list C) (hc : option C)
    (da : Q) (dc : C) (items : list (nat * string)) (e : pyexn) :
  fold_left (highlight_body hs base hc da dc) items (Raise e) = Raise e.
Proof. induction items as [|[i ent] items IH]; [done|]. apply IH. Qed.

Lemma fold_highlight (hs : gset string) (base : list C) (hc : option C)
    (da : Q) (dc : C) (items : list (nat * string)) :
  ∀ cs als,
    fold_left (highlight_body hs base hc da dc) items (Return (cs, als))
    = match mapM (highlight_entry hs base hc da dc) items with
      | Some l => Return (cs ++ l.*1, als ++ l.*2)
      | None => Raise (Exn IndexError)
      end.
Proof.
  induction items as [|[i ent] items IH]; intros cs als.
  - simpl. by rewrite !app_nil_r.
  - cbn [fold_left].
    assert (mapM (highlight_entry hs base hc da dc) ((i, ent) :: items)
            = y ← highlight_entry hs base hc da dc (i, ent);
              k ← mapM (highlight_entry hs base hc da dc) items; Some (y :: k))
      as -> by done.
    unfold highlight_body at 2. cbn [mbind outcome_bind].
    assert (highlight_entry hs base hc da dc (i, ent)
            = if decide (ent ∈ hs)
              then match hc with
                   | Some c => Some (c, 1%Q)
                   | None => (λ c, (c, 1%Q)) <$> base !! i
                   end
              else Some (dc, da)) as -> by done.
    destruct (decide (ent ∈ hs)).
    + destruct hc as [c|]; [|destruct (base !! i) as [c|]]; simpl.
      * rewrite IH. destruct (mapM _ items); simpl; [|done].
        by rewrite <- !app_assoc.
      * rewrite IH. destruct (mapM _ items); simpl; [|done].
        by rewrite <- !app_assoc.
      * by rewrite fold_highlight_raise.
    + simpl. rewrite IH. destruct (mapM _ items); simpl; [|done].
      by rewrite <- !app_assoc.
Qed.

Lemma enumerate_lookup {A : Type} (l : list A) (i : nat) (x : A) :
  enumerate l !! i = Some (i, x) ↔ l !! i = Some x.
Proof.
  unfold enumerate. rewrite lookup_zip_Some, lookup_seq. split.
  - by intros [_ H].
  - intros H. split; [|done]. split; [done|]. by eapply lookup_lt_Some.
Qed.

Lemma enumerate_lookup_inv {A : Type} (l : list A) (i j : nat) (x : A) :
  enumerate l !! i = Some (j, x) → j = i ∧ l !! i = Some x.
Proof.
  unfold enumerate. rewrite lookup_zip_Some, lookup_seq.
  by intros [[-> _] H].
Qed.

Lemma enumerate_length {A : Type} (l : list A) : length (enumerate l) = length l.
Proof. unfold enumerate. rewrite length_zip_with, length_seq. lia. Qed.

(** The palette, cycled: what [get_color_palette] returns when there is
    a colour. *)
Lemma get_color_palette_some (default_cycle : list C)
    (from_name : string → nat → list C) (palette : Palette C) (n : nat) :
  let colors := palette_colors default_cycle from_name palette n in
  colors ≠ [] →
  ∃ out, get_color_palette default_cycle from_name palette n = Return out ∧
         length out = n ∧
         ∀ i, (i < n)%nat → out !! i = colors !! (i mod length colors)%nat.
Proof.
  intros colors Hne. unfold get_color_palette. fold colors.
  assert (length colors ≠ 0)%nat as Hlen by (by destruct colors).
  destruct (length colors <? n)%nat eqn:Hlt.
  - apply Nat.ltb_lt in Hlt.
    rewrite (proj2 (Nat.eqb_neq _ _) Hlen). cbn [mbind outcome_bind].
    eexists. split; [done|].
    pose proof (Nat.div_mod_eq n (length colors)) as Hdm.
    pose proof (Nat.mod_upper_bound n (length colors) Hlen) as Hmod.
    assert (n < (n / length colors + 1) * length colors)%nat as Hbig by lia.
    split.
    + rewrite take_take, Nat.min_id, length_take, list_mul_length. lia.
    + intros i Hi. rewrite take_take, Nat.min_id, lookup_take_lt by done.
      apply list_mul_lookup. lia.
  - apply Nat.ltb_ge in Hlt. cbn [mbind outcome_bind].
    eexists. split; [done|]. split.
    + rewrite length_take. lia.
    + intros i Hi. rewrite lookup_take_lt by done.
      by rewrite Nat.mod_small by lia.
Qed.

Lemma get_color_palette_none (default_cycle : list C)
    (from_name : string → nat → list C) (palette : Palette C) (n : nat) :
  palette_colors default_cycle from_name palette n = [] →
  get_color_palette default_cycle from_name palette n
  = if (0 <? n)%nat then Raise ZeroDivisionError else Return [].
Proof.
  intros Hnil. unfold get_color_palette. rewrite Hnil. simpl.
  by destruct n.
Qed.

Lemma get_highlight_colors_some (entities highlight : list string) (base : list C)
    (hc : option C) (da : Q) (dc : C) :
  get_highlight_colors entities (Some highlight) base hc da dc
  = match mapM (highlight_entry (list_to_set highlight) base hc da dc)
                (enumerate entities) with
    | Some l => Return (l.*1, l.*2)
    | None => Raise (Exn IndexError)
    end.
Proof. unfold get_highlight_colors. by rewrite fold_highlight. Qed.

(** The loop returns when every highlighted entity has a colour. *)
Lemma highlight_entries_some (entities highlight : list string) (base : list C)
    (hc : option C) (da : Q) (dc : C) :
  is_Some hc ∨ (length entities ≤ length base)%nat →
  is_Some (mapM (highlight_entry (list_to_set highlight) base hc da dc)
                (enumerate entities)).
Proof.
  intros Hok. apply mapM_is_Some, Forall_lookup_2. intros i [j ent] Hi.
  apply enumerate_lookup_inv in Hi as [-> Hent].
  unfold highlight_entry. simpl. destruct (decide _); [|done].
  destruct hc as [c|]; [done|]. destruct Hok as [[? [=]]|Hlen].
  apply fmap_is_Some, lookup_lt_is_Some.
  apply lookup_lt_Some in Hent. lia.
Qed.
End ColorFacts.

(** * Colours: the properties *)

Section ColorProperties.
Import Colors.
Context {C : Type}.

(** X1: whenever the palette stands for at least one colour,
    [get_color_palette] returns exactly [n_colors] colours, and colour
    [i] is colour [i mod len] of the palette: a short palette is cycled,
    a long one is cut. *)
Theorem get_color_palette_cycles (default_cycle : list C)
    (from_name : string → nat → list C) (palette : Palette C) (n_colors : nat) :
  let colors := palette_colors default_cycle from_name palette n_colors in
  colors ≠ [] →
  ∃ out, get_color_palette default_cycle from_name palette n_colors = Return out ∧
         length out = n_colors ∧
         ∀ i, (i < n_colors)%nat → out !! i = colors !! (i mod length colors)%nat.
Proof. apply get_color_palette_some. Qed.

(** X2: [get_color_palette] raises in one case only: a palette without
    any colour, asked for at least one colour, raises
    [ZeroDivisionError]. *)
Theorem get_color_palette_raises (default_cycle : list C)
    (from_name : string → nat → list C) (palette : Palette C) (n_colors : nat)
    (e : pyexn) :
  get_color_palette default_cycle from_name palette n_colors = Raise e ↔
  e = ZeroDivisionError ∧
  palette_colors default_cycle from_name palette n_colors = [] ∧ (0 < n_colors)%nat.
Proof.
  destruct (palette_colors default_cycle from_name palette n_colors) as [|c l] eqn:E.
  - rewrite get_color_palette_none by done.
    destruct n_colors; simpl; split.
    + done.
    + intros (_ & _ & ?). lia.
    + intros [= <-]. split; [done|]. split; [done|lia].
    + by intros (-> & _).
  - destruct (get_color_palette_some default_cycle from_name palette n_colors)
      as (out & -> & _); [by rewrite E|].
    split; [done|]. by intros (_ & ? & _).
Qed.

(** X3: when [get_highlight_colors] is given a highlight list and
    returns, it returns one colour and one alpha per entity, in the order
    of the entities: a highlighted entity gets alpha 1 and the highlight
    colour (its base colour if none is given), every other entity gets the
    dim colour and the dim alpha. *)
Theorem get_highlight_colors_entries (entities highlight : list string)
    (base_colors : list C) (highlight_color : option C) (dim_alpha : Q)
    (dim_color : C) (colors : list C) (alphas : list Q) :
  get_highlight_colors entities (Some highlight) base_colors highlight_color
                       dim_alpha dim_color = Return (colors, alphas) →
  length colors = length entities ∧ length alphas = length entities ∧
  ∀ i entity, entities !! i = Some entity →
    (entity ∈ highlight →
     alphas !! i = Some 1%Q ∧
     colors !! i = match highlight_color with
                   | Some c => Some c
                   | None => base_colors !! i
                   end) ∧
    (entity ∉ highlight →
     alphas !! i = Some dim_alpha ∧ colors !! i = Some dim_color).
Proof.
  rewrite get_highlight_colors_some.
  destruct (mapM _ (enumerate entities)) as [l|] eqn:E; [|done].
  intros [= <- <-]. apply mapM_Some in E.
  pose proof (Forall2_length _ _ _ E) as Hlen. rewrite enumerate_length in Hlen.
  rewrite !length_fmap. split; [done|]. split; [done|].
  intros i entity Hent.
  apply enumerate_lookup in Hent.
  destruct (Forall2_lookup_l _ _ _ _ _ E Hent) as ([c a] & Hl & Hentry).
  rewrite !list_lookup_fmap, Hl. unfold highlight_entry in Hentry.
  simpl in Hentry.
  destruct (decide (entity ∈ highlight)) as [Hin|Hin].
  - rewrite decide_True in Hentry by (by apply elem_of_list_to_set).
    split; [|done]. intros _.
    destruct highlight_color as [c'|]; simplify_eq/=; [done|].
    destruct (base_colors !! i); by simplify_eq/=.
  - rewrite decide_False in Hentry by (by rewrite elem_of_list_to_set).
    split; [done|]. intros _. by simplify_eq/=.
Qed.

(** X4: [get_highlight_colors] raises in one case only, [IndexError]:
    a highlight list is given without a highlight colour, and a
    highlighted entity stands at a position that has no base colour. *)
Theorem get_highlight_colors_raises (entities : list string)
    (highlight : option (list string)) (base_colors : list C)
    (highlight_color : option C) (dim_alpha : Q) (dim_color : C) (e : pyexn) :
  get_highlight_colors entities highlight base_colors highlight_color
                       dim_alpha dim_color = Raise e ↔
  e = Exn IndexError ∧ highlight_color = None ∧
  ∃ hl i entity, highlight = Some hl ∧ entities !! i = Some entity ∧
                 entity ∈ hl ∧ (length base_colors ≤ i)%nat.
Proof.
  destruct highlight as [hl|]; [|split; [done|by intros (_ & _ & ? & ? & ? & ? & _)]].
  rewrite get_highlight_colors_some.
  destruct (mapM _ (enumerate entities)) as [l|] eqn:E.
  - split; [done|]. intros (_ & -> & hl' & i & entity & [= <-] & Hent & Hin & Hlen).
    exfalso. apply mapM_Some in E. apply enumerate_lookup in Hent.
    destruct (Forall2_lookup_l _ _ _ _ _ E Hent) as (y & _ & Hentry).
    unfold highlight_entry in Hentry. simpl in Hentry.
    rewrite decide_True in Hentry by (by apply elem_of_list_to_set).
    rewrite lookup_ge_None_2 in Hentry by done. done.
  - apply mapM_None, Exists_exists in E as ([i entity] & Hin & Hentry).
    apply list_elem_of_lookup in Hin as [j Hj].
    apply enumerate_lookup_inv in Hj as [-> Hent].
    unfold highlight_entry in Hentry. simpl in Hentry.
    destruct (decide (entity ∈ list_to_set hl)) as [Hhl|]; [|done].
    destruct highlight_color as [c|]; [done|].
    apply fmap_None, lookup_ge_None in Hentry.
    apply elem_of_list_to_set in Hhl.
    split; [|by intros (-> & _)]. intros [= <-].
    split; [done|]. split; [done|]. by exists hl, j, entity.
Qed.

(** X5: the colours of a chart (core.py, lines 174-178).  When the
    palette stands for at least one colour, [get_color_palette] asked for
    one colour per entity followed by [get_highlight_colors] raises
    nothing, whatever the highlight list, and yields one colour and one
    alpha for every entity. *)
Theorem chart_colors (default_cycle : list C) (from_name : string → nat → list C)
    (palette : Palette C) (entities : list string)
    (highlight : option (list string)) (highlight_color : option C)
    (dim_alpha : Q) (dim_color : C) :
  palette_colors default_cycle from_name palette (length entities) ≠ [] →
  ∃ base_colors colors alphas,
    get_color_palette default_cycle from_name palette (length entities)
    = Return base_colors ∧
    get_highlight_colors entities highlight base_colors highlight_color
                         dim_alpha dim_color = Return (colors, alphas) ∧
    length colors = length entities ∧ length alphas = length entities.
Proof.
  intros Hne.
  destruct (get_color_palette_some default_cycle from_name palette
              (length entities) Hne) as (base & Hbase & Hlen & _).
  exists base. destruct highlight as [hl|].
  - destruct (highlight_entries_some entities hl base highlight_color
                dim_alpha dim_color) as [l Hl]; [right; lia|].
    exists l.*1, l.*2. rewrite get_highlight_colors_some, Hl.
    apply mapM_Some, Forall2_length in Hl. rewrite enumerate_length in Hl.
    by rewrite !length_fmap.
  - exists base, (replicate (length entities) 1%Q).
    by rewrite length_replicate.
Qed.
End ColorProperties.

Section ColorInstances.
Import Colors.

Lemma get_color_palette_cycles_witness :
  ∃ out, get_color_palette ["#1f77b4"%string] (λ _ _, [])
           (PaletteSeq ["red"; "blue"]%string) 4 = Return out ∧
         length out = 4%nat ∧
         ∀ i, (i < 4)%nat → out !! i = ["red"; "blue"]%string !! (i mod 2)%nat.
Proof.
  apply (get_color_palette_cycles ["#1f77b4"%string] (λ _ _, [])
           (PaletteSeq ["red"; "blue"]%string) 4).
  discriminate.
Defined.

Lemma chart_colors_witness :
  ∃ base_colors colors alphas,
    get_color_palette ["#1f77b4"%string] (λ _ _, []) PaletteNone 3
    = Return base_colors ∧
    get_highlight_colors ["A"; "B"; "C"]%string (Some ["B"]%string) base_colors
                         None (3 # 10) "#999999"%string = Return (colors, alphas) ∧
    length colors = 3%nat ∧ length alphas = 3%nat.
Proof.
  apply (chart_colors ["#1f77b4"%string] (λ _ _, []) PaletteNone
           ["A"; "B"; "C"]%string (Some ["B"]%string) None (3 # 10) "#999999"%string).
  discriminate.
Defined.

Lemma get_highlight_colors_entries_witness :
  let colors := ["red"; "#999999"; "green"]%string in
  let alphas := [1%Q; 3 # 10; 1%Q] in
  length colors = 3%nat ∧ length alphas = 3%nat ∧
  ∀ i entity, ["A"; "B"; "C"]%string !! i = Some entity →
    (entity ∈ ["C"; "A"]%string →
     alphas !! i = Some 1%Q ∧ colors !! i = ["red"; "blue"; "green"]%string !! i) ∧
    (entity ∉ ["C"; "A"]%string →
     alphas !! i = Some (3 # 10) ∧ colors !! i = Some "#999999"%string).
Proof.
  intros colors alphas.
  apply (get_highlight_colors_entries ["A"; "B"; "C"]%string ["C"; "A"]%string
           ["red"; "blue"; "green"]%string None (3 # 10) "#999999"%string).
  vm_compute. reflexivity.
Defined.

Example palette_docstring :
  get_color_palette ["#1f77b4"%string] (λ _ _, [])
                    (PaletteSeq ["red"; "blue"]%string) 4
  = Return ["red"; "blue"; "red"; "blue"]%string.
Proof. reflexivity. Qed.
End ColorInstances.

(** * Label drawing: the endpoints *)

Section EndpointFacts.
Import Labels Data Drawing.

Lemma any_valid_mask (ranks : list (option Q)) :
  any (valid_mask ranks) = true ↔ valid_ranks ranks ≠ [].
Proof.
  unfold any, valid_mask, valid_ranks, dropna.
  induction ranks as [|[q|] ranks IH]; csimpl; [done|done|].
  by rewrite IH.
Qed.

Lemma any_valid_mask_false (ranks : list (option Q)) :
  any (valid_mask ranks) = false ↔ valid_ranks ranks = [].
Proof.
  destruct (any (valid_mask ranks)) eqn:E.
  - apply any_valid_mask in E. split; [done|]. intros H. by rewrite H in E.
  - split; [|done]. intros _.
    destruct (valid_ranks ranks) eqn:E'; [done|].
    assert (any (valid_mask ranks) = true) as H by (apply any_valid_mask; by rewrite E').
    congruence.
Qed.

Lemma endpoint_value_is_Some {A : Type} (side : Side) (a : list A) :
  is_Some (endpoint_value side a) ↔ a ≠ [].
Proof.
  destruct side; simpl.
  - destruct a; [split; [by intros [? [=]]|done]|split; [done|by eexists]].
  - rewrite last_is_Some. done.
Qed.

Lemma endpoint_value_elem_of {A : Type} (side : Side) (a : list A) (x : A) :
  endpoint_value side a = Some x → x ∈ a.
Proof.
  destruct side; simpl.
  - destruct a; intros [= ->]. left.
  - intros H. apply last_Some in H as [l' ->]. apply elem_of_app. right. left.
Qed.

Lemma endpoint_endpoint_value {A : Type} (side : Side) (a : list A) :
  endpoint side a = match endpoint_value side a with
                    | Some x => Return x
                    | None => Raise (Exn IndexError)
                    end.
Proof. by destruct side. Qed.

Lemma has_rank_position_of (entity_data : gmap string Series) (side : Side)
    (entity : string) :
  has_rank entity_data entity = true ↔ is_Some (position_of entity_data side entity).
Proof.
  unfold has_rank, position_of.
  destruct (entity_data !! entity) as [[times ranks]|]; simpl;
    [|split; [done|by intros [? [=]]]].
  rewrite any_valid_mask, <- (endpoint_value_is_Some side).
  destruct (endpoint_value side (valid_ranks ranks)); simpl.
  - split; by eexists.
  - split; by intros [? [=]].
Qed.

Lemma fold_endpoint_raise (entity_data : gmap string Series) (side : Side)
    (entities : list string) (e : pyexn) :
  fold_left (endpoint_body entity_data side) entities (Raise e) = Raise e.
Proof. induction entities as [|ent entities IH]; [done|]. apply IH. Qed.

(** One iteration on an entity that the dictionary holds. *)
Lemma endpoint_body_present (entity_data : gmap string Series) (side : Side)
    (acc : list Label) (entity : string) :
  is_Some (entity_data !! entity) →
  endpoint_body entity_data side (Return acc) entity
  = Return (acc ++ option_list (position_of entity_data side entity)).
Proof.
  intros [[times ranks] Hs]. unfold endpoint_body, getitem, position_of.
  rewrite Hs. cbn [mbind outcome_bind option_bind].
  destruct (any (valid_mask ranks)) eqn:E; simpl.
  - apply any_valid_mask, (endpoint_value_is_Some side) in E as [y Hy].
    by rewrite endpoint_endpoint_value, Hy.
  - apply any_valid_mask_false in E. rewrite E.
    destruct side; simpl; by rewrite app_nil_r.
Qed.

Lemma fold_endpoint (entity_data : gmap string Series) (side : Side)
    (entities : list string) :
  Forall (λ e, is_Some (entity_data !! e)) entities →
  ∀ acc, fold_left (endpoint_body entity_data side) entities (Return acc)
         = Return (acc ++ omap (position_of entity_data side) entities).
Proof.
  induction 1 as [|ent entities Hent _ IH]; intros acc; cbn [fold_left].
  - simpl. by rewrite app_nil_r.
  - rewrite endpoint_body_present, IH by done. f_equal.
    rewrite <- app_assoc. f_equal. csimpl.
    by destruct (position_of entity_data side ent).
Qed.

Lemma get_endpoint_positions_present (entity_data : gmap string Series)
    (side : Side) (entities : list string) :
  Forall (λ e, is_Some (entity_data !! e)) entities →
  get_endpoint_positions entities entity_data side
  = Return (omap (position_of entity_data side) entities).
Proof. intros H. unfold get_endpoint_positions. by rewrite fold_endpoint. Qed.

Lemma get_endpoint_positions_missing (entity_data : gmap string Series)
    (side : Side) (before after : list string) (entity : string) :
  Forall (λ e, is_Some (entity_data !! e)) before →
  entity_data !! entity = None →
  get_endpoint_positions (before ++ entity :: after) entity_data side
  = Raise (KeyError entity).
Proof.
  intros Hb He. unfold get_endpoint_positions.
  rewrite fold_left_app, fold_endpoint by done. cbn [fold_left].
  unfold endpoint_body at 2, getitem. rewrite He. cbn [mbind outcome_bind].
  apply fold_endpoint_raise.
Qed.

(** The entities split at the first one that the dictionary lacks. *)
Lemma first_missing (entity_data : gmap string Series) (entities : list string) :
  Forall (λ e, is_Some (entity_data !! e)) entities ∨
  ∃ before entity after,
    entities = before ++ entity :: after ∧
    Forall (λ e, is_Some (entity_data !! e)) before ∧
    entity_data !! entity = None.
Proof.
  induction entities as [|ent entities IH]; [by left|].
  destruct (entity_data !! ent) as [series|] eqn:E.
  - destruct IH as [IH|(before & entity & after & -> & Hb & He)].
    + left. constructor; [by eexists|done].
    + right. exists (ent :: before), entity, after.
      split; [done|]. split; [|done]. constructor; [by eexists|done].
  - right. by exists [], ent, entities.
Qed.

Lemma position_of_fst (entity_data : gmap string Series) (side : Side)
    (entities : list string) :
  (omap (position_of entity_data side) entities).*1
  = filter (λ e, has_rank entity_data e = true) entities.
Proof.
  induction entities as [|ent entities IH]; [done|].
  rewrite filter_cons. csimpl.
  destruct (decide (has_rank entity_data ent = true)) as [Hr|Hr].
  - apply (has_rank_position_of _ side) in Hr as [[e y] Hp].
    rewrite Hp. csimpl. rewrite IH. f_equal.
    unfold position_of in Hp.
    destruct (entity_data !! ent) as [[times ranks]|]; simplify_eq/=.
    destruct (endpoint_value side (valid_ranks ranks)); by simplify_eq/=.
  - destruct (position_of entity_data side ent) eqn:Hp; [|done].
    exfalso. apply Hr, (has_rank_position_of _ side). by eexists.
Qed.
End EndpointFacts.

(** * Label drawing: properties of the endpoints *)

Section EndpointProperties.
Import Labels Data Drawing.

(** X6: [get_endpoint_positions] raises in one case only: an entity
    that is not a key of [entity_data] raises [KeyError], for the first
    such entity of the list. *)
Theorem get_endpoint_positions_raises (entities : list string)
    (entity_data : gmap string Series) (side : Side) (e : pyexn) :
  get_endpoint_positions entities entity_data side = Raise e ↔
  ∃ i entity,
    e = KeyError entity ∧ entities !! i = Some entity ∧
    entity_data !! entity = None ∧
    ∀ j entity', (j < i)%nat → entities !! j = Some entity' →
                 is_Some (entity_data !! entity').
Proof.
  destruct (first_missing entity_data entities)
    as [Hall|(before & entity & after & -> & Hb & He)].
  - rewrite get_endpoint_positions_present by done. split; [done|].
    intros (i & entity & _ & Hi & He & _).
    eapply Forall_lookup_1 in Hall as [? ?]; [|done]. congruence.
  - rewrite get_endpoint_positions_missing by done. split.
    + intros [= <-]. exists (length before), entity.
      split; [done|]. split; [by rewrite list_lookup_middle|]. split; [done|].
      intros j entity' Hj Hl. rewrite lookup_app_l in Hl by done.
      by eapply Forall_lookup_1 in Hb.
    + intros (i & entity' & -> & Hi & He' & Hprev). f_equal. f_equal.
      destruct (Nat.lt_trichotomy i (length before)) as [Hlt|[->|Hgt]].
      * rewrite lookup_app_l in Hi by done.
        eapply Forall_lookup_1 in Hb as [? ?]; [|done]. congruence.
      * rewrite list_lookup_middle in Hi by done. congruence.
      * destruct (Hprev (length before) entity Hgt) as [? ?];
          [by rewrite list_lookup_middle|congruence].
Qed.

(** X7: when [get_endpoint_positions] returns, it returns one pair for
    each entity that has a rank that is a number, in the order of the
    entities, and none for the others; the position of an entity is its
    first such rank on the left and its last one on the right. *)
Theorem get_endpoint_positions_endpoints (entities : list string)
    (entity_data : gmap string Series) (side : Side) (positions : list Label) :
  get_endpoint_positions entities entity_data side = Return positions →
  positions.*1 = filter (λ e, has_rank entity_data e = true) entities ∧
  ∀ entity y, (entity, y) ∈ positions →
    ∃ times ranks,
      entity_data !! entity = Some (times, ranks) ∧
      endpoint_value side (valid_ranks ranks) = Some y.
Proof.
  destruct (first_missing entity_data entities)
    as [Hall|(before & entity & after & -> & Hb & He)].
  2:{ by rewrite get_endpoint_positions_missing by done. }
  rewrite get_endpoint_positions_present by done. intros [= <-]. split.
  - apply position_of_fst.
  - intros entity y Hin. apply list_elem_of_omap in Hin as (ent & _ & Hp).
    unfold position_of in Hp.
    destruct (entity_data !! ent) as [[times ranks]|] eqn:E; simplify_eq/=.
    destruct (endpoint_value side (valid_ranks ranks)) eqn:Ey; simplify_eq/=.
    eauto.
Qed.
End EndpointProperties.

(** * Label drawing: the loops that draw *)

Section LabelLoopFacts.
Import Labels Data Drawing.
Context {C : Type}.

Lemma masked_nonempty {A : Type} (a : list A) :
  ∀ mask, length a = length mask → any mask = true → masked a mask ≠ [].
Proof.
  unfold masked, any.
  induction a as [|x a IH]; intros [|b mask] Hlen Hany; simplify_eq/=.
  rewrite filter_cons. destruct b; simpl; [done|]. by apply IH.
Qed.

(** The labels of the two sides are told apart by their alignment. *)
Lemma side_ha_inj (s1 s2 : Side) : side_ha s1 = side_ha s2 → s1 = s2.
Proof. by destruct s1, s2. Qed.

Lemma label_body_drawable (entity_data : gmap string Series)
    (entity_colors : gmap string C) (side : Side) (pad fs : Q)
    (ax : list (Text C)) (item : Label) :
  drawable entity_data entity_colors item.1 →
  ∃ t, text_of entity_data entity_colors side pad fs item = Some t ∧
       label_body entity_data entity_colors side pad fs (Return ax) item
       = Return (ax ++ [t]).
Proof.
  destruct item as [entity y].
  intros (times & ranks & Hs & Hlen & Hany & [c Hc]). simpl in *.
  assert (is_Some (endpoint_value side (masked times (valid_mask ranks)))) as [x Hx].
  { apply endpoint_value_is_Some, masked_nonempty; [|done].
    unfold valid_mask. by rewrite length_fmap. }
  assert (bool_index times (valid_mask ranks)
          = Return (masked times (valid_mask ranks))) as Hidx.
  { unfold bool_index, valid_mask at 1. rewrite length_fmap.
    by rewrite (proj2 (Nat.eqb_eq _ _) Hlen). }
  exists (single_label entity x y c side pad fs). split.
  - unfold text_of. cbn [fst snd]. rewrite Hs. cbn [mbind option_bind].
    rewrite Hx. cbn [mbind option_bind]. by rewrite Hc.
  - unfold label_body, getitem. cbn [mbind outcome_bind]. rewrite Hs.
    cbn [mbind outcome_bind]. rewrite Hany, Hidx. cbn [mbind outcome_bind].
    rewrite endpoint_endpoint_value, Hx. cbn [mbind outcome_bind].
    by rewrite Hc.
Qed.

Lemma fold_labels (entity_data : gmap string Series)
    (entity_colors : gmap string C) (side : Side) (pad fs : Q)
    (adjusted : list Label) :
  Forall (λ item, drawable entity_data entity_colors item.1) adjusted →
  ∀ ax : list (Text C), ∃ texts,
    fold_left (label_body entity_data entity_colors side pad fs) adjusted (Return ax)
    = Return (ax ++ texts) ∧
    Forall2 (λ item t, text_of entity_data entity_colors side pad fs item = Some t)
            adjusted texts.
Proof.
  induction 1 as [|item adjusted Hitem _ IH]; intros ax.
  - exists []. by rewrite app_nil_r.
  - destruct (label_body_drawable entity_data entity_colors side pad fs ax item Hitem)
      as (t & Ht & Hbody).
    destruct (IH (ax ++ [t])) as (texts & Hfold & Htexts).
    exists (t :: texts). cbn [fold_left]. rewrite Hbody, Hfold.
    rewrite <- app_assoc. split; [done|]. by constructor.
Qed.

(** What a drawn text says of its item. *)
Lemma text_of_fields (entity_data : gmap string Series)
    (entity_colors : gmap string C) (side : Side) (pad fs : Q)
    (item : Label) (t : Text C) :
  text_of entity_data entity_colors side pad fs item = Some t →
  text_s t = item.1 ∧ text_y t = item.2 ∧ text_ha t = side_ha side ∧
  entity_colors !! item.1 = Some (text_color t).
Proof.
  unfold text_of. destruct (entity_data !! item.1) as [[times ranks]|]; [|done].
  simpl. destruct (endpoint_value side _) as [x|]; [|done]. simpl.
  destruct (entity_colors !! item.1) as [c|]; [|done]. simpl.
  intros [= <-]. by destruct side.
Qed.

Lemma dict_fold_lookup (pairs : list (string * C)) :
  ∀ (d : gmap string C) k v,
    foldl (λ d kv, <[kv.1 := kv.2]> d) d pairs !! k = Some v →
    (k, v) ∈ pairs ∨ d !! k = Some v.
Proof.
  induction pairs as [|[k' v'] pairs IH]; intros d k v Hk; [by right|].
  simpl in Hk. apply IH in Hk as [Hk|Hk]; [left; by right|].
  destruct (decide (k' = k)) as [->|Hne].
  - rewrite lookup_insert_eq in Hk. simplify_eq. left; left.
  - rewrite lookup_insert_ne in Hk by done. by right.
Qed.

Lemma dict_fold_is_Some (pairs : list (string * C)) :
  ∀ (d : gmap string C) k,
    k ∈ pairs.*1 ∨ is_Some (d !! k) →
    is_Some (foldl (λ d kv, <[kv.1 := kv.2]> d) d pairs !! k).
Proof.
  induction pairs as [|[k' v'] pairs IH]; intros d k Hk.
  - destruct Hk as [Hk|Hk]; [by inversion Hk|done].
  - simpl. apply IH. destruct Hk as [Hk|Hk].
    + apply elem_of_cons in Hk as [->|Hk]; [right|by left].
      rewrite lookup_insert_eq. by eexists.
    + right. destruct (decide (k' = k)) as [->|Hne].
      * rewrite lookup_insert_eq. by eexists.
      * by rewrite lookup_insert_ne.
Qed.

(** The colour of an entity in [dict(zip(entities, colors))] is the
    colour at a position of that entity. *)
Lemma dict_zip_lookup (entities : list string) (colors : list C) (e : string) (c : C) :
  dict_zip entities colors !! e = Some c →
  ∃ i, entities !! i = Some e ∧ colors !! i = Some c.
Proof.
  unfold dict_zip. intros H. apply dict_fold_lookup in H as [H|H]; [|done].
  apply list_elem_of_lookup in H as [i Hi].
  apply lookup_zip_Some in Hi. by exists i.
Qed.

Lemma dict_zip_is_Some (entities : list string) (colors : list C) (e : string) :
  (length entities ≤ length colors)%nat → e ∈ entities →
  is_Some (dict_zip entities colors !! e).
Proof.
  intros Hlen He. unfold dict_zip. apply dict_fold_is_Some. left.
  by rewrite fst_zip.
Qed.

(** The texts of the output of [detect_label_collisions] are those of
    its input. *)
Lemma detect_label_collisions_fst (positions adjusted : list Label) (d : Q) :
  detect_label_collisions positions d = Ok adjusted →
  adjusted.*1 ≡ₚ positions.*1.
Proof.
  rewrite detect_label_collisions_eq. intros [= <-].
  destruct (length positions <=? 1)%nat; [done|].
  rewrite adjust_fst. unfold sorted. apply fmap_Permutation, stable_sort_perm.
Qed.

(** The labels of one side, when every entity has its arrays and its
    colour. *)
Lemma side_labels_spec (ax : list (Text C)) (entities : list string)
    (entity_data : gmap string Series) (entity_colors : gmap string C)
    (side : Side) (pad d fs : Q) :
  (∀ e, e ∈ entities →
        ∃ times ranks, entity_data !! e = Some (times, ranks) ∧
                       length times = length ranks) →
  (∀ e, e ∈ entities → is_Some (entity_colors !! e)) →
  ∃ adjusted texts,
    detect_label_collisions (omap (position_of entity_data side) entities) d
    = Ok adjusted ∧
    side_labels ax entities entity_data entity_colors side pad d fs
    = Return (ax ++ texts) ∧
    Forall2 (λ item t, text_of entity_data entity_colors side pad fs item = Some t)
            adjusted texts.
Proof.
  intros Hdata Hcolors. unfold side_labels.
  rewrite get_endpoint_positions_present.
  2:{ apply Forall_forall. intros e He.
      destruct (Hdata e He) as (times & ranks & -> & _). by eexists. }
  cbn [mbind outcome_bind].
  set (positions := omap (position_of entity_data side) entities).
  destruct (detect_label_collisions positions d) as [adjusted|e] eqn:Hdet.
  2:{ rewrite detect_label_collisions_eq in Hdet. done. }
  cbn [call mbind outcome_bind].
  destruct (fold_labels entity_data entity_colors side pad fs adjusted) with (ax := ax)
    as (texts & Hfold & Htexts).
  - apply Forall_forall. intros [e y] Hin. simpl.
    assert (e ∈ filter (λ e, has_rank entity_data e = true) entities) as He.
    { rewrite <- (position_of_fst entity_data side). fold positions.
      rewrite <- (detect_label_collisions_fst _ _ _ Hdet).
      apply list_elem_of_fmap. by exists (e, y). }
    apply list_elem_of_filter in He as [Hrank He].
    destruct (Hdata e He) as (times & ranks & Hs & Hlen).
    exists times, ranks. split; [done|]. split; [done|]. split; [|by apply Hcolors].
    unfold has_rank in Hrank. by rewrite Hs in Hrank.
  - by exists adjusted, texts.
Qed.

Lemma texts_fields (entity_data : gmap string Series)
    (entity_colors : gmap string C) (side : Side) (pad fs : Q)
    (adjusted : list Label) (texts : list (Text C)) :
  Forall2 (λ item t, text_of entity_data entity_colors side pad fs item = Some t)
          adjusted texts →
  text_s <$> texts = adjusted.*1 ∧ text_y <$> texts = adjusted.*2 ∧
  Forall (λ t, text_ha t = side_ha side) texts ∧
  Forall (λ t, entity_colors !! text_s t = Some (text_color t)) texts.
Proof.
  induction 1 as [|item t adjusted texts Ht _ (IH1 & IH2 & IH3 & IH4)]; [done|].
  apply text_of_fields in Ht as (Hs & Hy & Hha & Hc). csimpl.
  rewrite IH1, IH2, Hs, Hy. split; [done|]. split; [done|].
  split; constructor; try done. by rewrite Hs.
Qed.

Lemma add_labels_with_collision_avoidance_spec (ax : list (Text C))
    (entities : list string) (entity_data : gmap string Series) (colors : list C)
    (show_labels : LabelPosition) (pad d fs : Q) :
  (∀ e, e ∈ entities →
        ∃ times ranks, entity_data !! e = Some (times, ranks) ∧
                       length times = length ranks) →
  (length entities ≤ length colors)%nat →
  ∃ left_texts right_texts,
    add_labels_with_collision_avoidance ax entities entity_data colors
                                        show_labels pad d fs
    = Return (ax ++ left_texts ++ right_texts) ∧
    side_texts entities entity_data (dict_zip entities colors) SideLeft
               (shows_left show_labels) pad d fs left_texts ∧
    side_texts entities entity_data (dict_zip entities colors) SideRight
               (shows_right show_labels) pad d fs right_texts.
Proof.
  intros Hdata Hlen.
  assert (∀ e, e ∈ entities → is_Some (dict_zip entities colors !! e)) as Hcolors
    by (intros e He; by apply dict_zip_is_Some).
  pose proof (λ ax side, side_labels_spec ax entities entity_data
                (dict_zip entities colors) side pad d fs Hdata Hcolors) as Hside.
  unfold add_labels_with_collision_avoidance, side_texts.
  destruct show_labels; simpl.
  - destruct (Hside ax SideLeft) as (adj1 & t1 & Hd1 & -> & Ht1).
    cbn [mbind outcome_bind].
    destruct (Hside (ax ++ t1) SideRight) as (adj2 & t2 & Hd2 & -> & Ht2).
    exists t1, t2. rewrite <- app_assoc. naive_solver.
  - exists [], []. by rewrite !app_nil_r.
  - destruct (Hside ax SideLeft) as (adj1 & t1 & Hd1 & -> & Ht1).
    exists t1, []. rewrite app_nil_r. naive_solver.
  - destruct (Hside ax SideRight) as (adj2 & t2 & Hd2 & -> & Ht2).
    exists [], t2. naive_solver.
  - destruct (Hside ax SideLeft) as (adj1 & t1 & Hd1 & -> & Ht1).
    cbn [mbind outcome_bind].
    destruct (Hside (ax ++ t1) SideRight) as (adj2 & t2 & Hd2 & -> & Ht2).
    exists t1, t2. rewrite <- app_assoc. naive_solver.
Qed.

(** The texts of one side name the entities that have a rank. *)
Lemma side_texts_names (entities : list string) (entity_data : gmap string Series)
    (entity_colors : gmap string C) (side : Side) (shown : bool) (pad d fs : Q)
    (texts : list (Text C)) :
  side_texts entities entity_data entity_colors side shown pad d fs texts →
  text_s <$> texts
  ≡ₚ (if shown then filter (λ e, has_rank entity_data e = true) entities else []) ∧
  Forall (λ t, text_ha t = side_ha side) texts ∧
  Forall (λ t, entity_colors !! text_s t = Some (text_color t)) texts.
Proof.
  unfold side_texts. destruct shown; [|by intros ->].
  intros (adjusted & Hdet & Htexts).
  apply texts_fields in Htexts as (Hs & _ & Hha & Hc). split; [|done].
  rewrite Hs, (detect_label_collisions_fst _ _ _ Hdet).
  by rewrite position_of_fst.
Qed.

End LabelLoopFacts.

(** * Label drawing: properties of the labels *)

Section LabelProperties.
Import Labels Data Drawing.
Context {C : Type}.

(** X8: when every entity has its two arrays, of one length, and there
    are at least as many colours as entities,
    [add_labels_with_collision_avoidance] raises nothing.  On each side
    that [show_labels] asks for it adds exactly one text for every entity
    that has a rank that is a number, and none for the others; the texts
    of the left side are aligned right and those of the right side left,
    and each text has the colour given at a position of its entity. *)
Theorem add_labels_with_collision_avoidance_labels (ax : list (Text C))
    (entities : list string) (entity_data : gmap string Series) (colors : list C)
    (show_labels : LabelPosition) (label_padding min_label_distance fontsize : Q) :
  (∀ e, e ∈ entities →
        ∃ times ranks, entity_data !! e = Some (times, ranks) ∧
                       length times = length ranks) →
  (length entities ≤ length colors)%nat →
  ∃ left_texts right_texts,
    add_labels_with_collision_avoidance ax entities entity_data colors show_labels
      label_padding min_label_distance fontsize
    = Return (ax ++ left_texts ++ right_texts) ∧
    text_s <$> left_texts
    ≡ₚ (if shows_left show_labels
        then filter (λ e, has_rank entity_data e = true) entities else []) ∧
    text_s <$> right_texts
    ≡ₚ (if shows_right show_labels
        then filter (λ e, has_rank entity_data e = true) entities else []) ∧
    Forall (λ t, text_ha t = HaRight) left_texts ∧
    Forall (λ t, text_ha t = HaLeft) right_texts ∧
    Forall (λ t, ∃ i, entities !! i = Some (text_s t) ∧
                      colors !! i = Some (text_color t))
           (left_texts ++ right_texts).
Proof.
  intros Hdata Hlen.
  destruct (add_labels_with_collision_avoidance_spec ax entities entity_data colors
              show_labels label_padding min_label_distance fontsize Hdata Hlen)
    as (l & r & Hret & Hl & Hr).
  apply side_texts_names in Hl as (Hl1 & Hl2 & Hl3).
  apply side_texts_names in Hr as (Hr1 & Hr2 & Hr3).
  exists l, r. repeat split; try done.
  apply Forall_app. split; eapply Forall_impl; try done;
    intros t Ht; by apply dict_zip_lookup.
Qed.

End LabelProperties.

(** * Label drawing: the labels of one entity *)

Section AddLabelsFacts.
Import Labels Data Drawing.

Lemma masked_cons {A : Type} (x : A) (a : list A) (b : bool) (mask : list bool) :
  masked (x :: a) (b :: mask) = (if b then [x] else []) ++ masked a mask.
Proof. unfold masked. simpl. rewrite filter_cons. by destruct b. Qed.

Lemma masked_all_false {A : Type} (a : list A) :
  ∀ mask, (∀ j, (j < length mask)%nat → mask !! j = Some false) → masked a mask = [].
Proof.
  induction a as [|x a IH]; intros [|b mask] H; try done.
  rewrite masked_cons. assert (b = false) as ->.
  { specialize (H 0%nat). simpl in H. ospecialize (H _); [lia|]. congruence. }
  simpl. apply IH. intros j Hj. apply (H (S j)). simpl. lia.
Qed.

(** The first entry that a mask keeps is the entry at the first
    position where the mask holds. *)
Lemma masked_first {A : Type} (k : nat) :
  ∀ (a : list A) (mask : list bool) (x : A),
    a !! k = Some x → mask !! k = Some true →
    (∀ j, (j < k)%nat → mask !! j = Some false) →
    head (masked a mask) = Some x.
Proof.
  induction k as [|k IH]; intros [|x0 a] [|b mask] x Ha Hm Hbefore;
    simpl in Ha, Hm; simplify_eq; rewrite masked_cons.
  - done.
  - assert (b = false) as ->.
    { specialize (Hbefore 0%nat). simpl in Hbefore.
      ospecialize (Hbefore _); [lia|]. congruence. }
    simpl. apply IH; [done..|]. intros j Hj. apply (Hbefore (S j)). lia.
Qed.

(** The last entry that a mask keeps is the entry at the last position
    where the mask holds. *)
Lemma masked_last {A : Type} (a : list A) :
  ∀ (k : nat) (mask : list bool) (x : A),
    a !! k = Some x → mask !! k = Some true →
    (∀ j, (k < j)%nat → (j < length mask)%nat → mask !! j = Some false) →
    last (masked a mask) = Some x.
Proof.
  induction a as [|x0 a IH]; intros k [|b mask] x Ha Hm Hafter; try done.
  rewrite masked_cons. destruct k as [|k]; simpl in Ha, Hm; simplify_eq.
  - rewrite masked_all_false; [done|].
    intros j Hj. apply (Hafter (S j)); simpl; lia.
  - assert (last (masked a mask) = Some x) as Hlast.
    { apply (IH k); [done..|]. intros j Hkj Hj. apply (Hafter (S j)); simpl; lia. }
    destruct (masked a mask) as [|z l] eqn:E; [done|].
    destruct b; simpl; done.
Qed.

Lemma valid_mask_lookup (ranks : list (option Q)) (j : nat) (b : bool) :
  valid_mask ranks !! j = Some b ↔ ∃ r, ranks !! j = Some r ∧ b = negb (isna r).
Proof.
  unfold valid_mask. rewrite list_lookup_fmap.
  destruct (ranks !! j) as [r|]; simpl; split.
  - intros [= <-]. by exists r.
  - by intros (r' & [= <-] & ->).
  - done.
  - by intros (r' & [=] & _).
Qed.

Lemma valid_mask_length (ranks : list (option Q)) :
  length (valid_mask ranks) = length ranks.
Proof. unfold valid_mask. apply length_fmap. Qed.

(** The first rank that is a number. *)
Lemma valid_ranks_first (k : nat) :
  ∀ (ranks : list (option Q)) (y : Q),
    ranks !! k = Some (Some y) →
    (∀ j, (j < k)%nat → ranks !! j = Some None) →
    head (valid_ranks ranks) = Some y.
Proof.
  unfold valid_ranks, dropna.
  induction k as [|k IH]; intros [|r ranks] y Hk Hbefore; simplify_eq/=; [done|].
  assert (r = None) as ->.
  { specialize (Hbefore 0%nat). simpl in Hbefore.
    ospecialize (Hbefore _); [lia|]. congruence. }
  simpl. apply IH; [done|]. intros j Hj. apply (Hbefore (S j)). lia.
Qed.

(** The last rank that is a number. *)
Lemma valid_ranks_last (ranks : list (option Q)) :
  ∀ (k : nat) (y : Q),
    ranks !! k = Some (Some y) →
    (∀ j, (k < j)%nat → (j < length ranks)%nat → ranks !! j = Some None) →
    last (valid_ranks ranks) = Some y.
Proof.
  unfold valid_ranks, dropna.
  induction ranks as [|r ranks IH]; intros k y Hk Hafter; [done|].
  destruct k as [|k]; simplify_eq/=.
  - assert (omap id ranks = []) as ->; [|done].
    apply elem_of_nil_inv. intros q Hq.
    apply list_elem_of_omap in Hq as (r & Hr & Hq).
    apply list_elem_of_lookup in Hr as [j Hj].
    pose proof (lookup_lt_Some _ _ _ Hj) as Hlt.
    pose proof (Hafter (S j)) as H'. simpl in H'.
    rewrite H' in Hj by lia. by simplify_eq/=.
  - assert (last (omap id ranks) = Some y) as Hlast.
    { apply (IH k); [done|]. intros j Hkj Hj. apply (Hafter (S j)); lia. }
    destruct r as [q|]; simpl; [|done].
    by destruct (omap id ranks) as [|z l] eqn:E.
Qed.
End AddLabelsFacts.

Section AddLabelsProperties.
Import Labels Data Drawing.
Context {C : Type}.

(** X10: [add_labels] anchors the labels of an entity at its first and
    at its last observation whose rank is a number, not at the first and
    last period.  With [k] the first and [k'] the last position of a rank
    that is a number, the left label is drawn at
    [(times[k] - label_padding, ranks[k])], aligned right, and the right
    label at [(times[k'] + label_padding, ranks[k'])], aligned left, each
    only if [show_labels] asks for its side. *)
Theorem add_labels_anchors (ax : list (Text C)) (entity : string) (times : list Z)
    (ranks : list (option Q)) (color : C) (show_labels : LabelPosition)
    (label_padding fontsize : Q) (k k' : nat) (t t' : Z) (y y' : Q) :
  length times = length ranks →
  times !! k = Some t → ranks !! k = Some (Some y) →
  (∀ j, (j < k)%nat → ranks !! j = Some None) →
  times !! k' = Some t' → ranks !! k' = Some (Some y') →
  (∀ j, (k' < j)%nat → (j < length ranks)%nat → ranks !! j = Some None) →
  add_labels ax entity times ranks color show_labels label_padding fontsize
  = Return
      (ax
       ++ (if shows_left show_labels
           then [mkText (inject_Z t + - label_padding)%Q y entity color
                        fontsize HaRight]
           else [])
       ++ (if shows_right show_labels
           then [mkText (inject_Z t' + label_padding)%Q y' entity color
                        fontsize HaLeft]
           else [])).
Proof.
  intros Hlen Ht Hy Hbefore Ht' Hy' Hafter.
  assert (any (valid_mask ranks) = true) as Hany.
  { apply any_valid_mask. intros Hnil.
    pose proof (valid_ranks_first k ranks y Hy Hbefore) as H. by rewrite Hnil in H. }
  assert (bool_index times (valid_mask ranks)
          = Return (masked times (valid_mask ranks))) as Hidx.
  { unfold bool_index. rewrite valid_mask_length.
    by rewrite (proj2 (Nat.eqb_eq _ _) Hlen). }
  assert (head (masked times (valid_mask ranks)) = Some t) as Hhead.
  { apply (masked_first k); [done|apply valid_mask_lookup; by eexists|].
    intros j Hj. apply valid_mask_lookup. eexists. split; [by apply Hbefore|done]. }
  assert (last (masked times (valid_mask ranks)) = Some t') as Hlast.
  { apply (masked_last _ k'); [done|apply valid_mask_lookup; by eexists|].
    intros j Hkj Hj. apply valid_mask_lookup. exists None. split; [|done].
    apply Hafter; [done|]. by rewrite valid_mask_length in Hj. }
  pose proof (valid_ranks_first k ranks y Hy Hbefore) as Hyhead.
  pose proof (valid_ranks_last ranks k' y' Hy' Hafter) as Hylast.
  assert ((0 <? length (masked times (valid_mask ranks)))%nat = true) as Hpos.
  { apply Nat.ltb_lt. destruct (masked times (valid_mask ranks)); [done|simpl; lia]. }
  unfold add_labels.
  destruct show_labels; cbn [shows_left shows_right];
    rewrite ?app_nil_r; try done;
    rewrite Hany, Hidx; cbn [negb mbind outcome_bind andb];
    rewrite ?Hpos; unfold first_item, last_item;
    rewrite ?Hhead, ?Hlast, ?Hyhead, ?Hylast; cbn [mbind outcome_bind];
    rewrite ?Hpos; rewrite ?Hhead, ?Hlast, ?Hyhead, ?Hylast;
    cbn [mbind outcome_bind]; unfold _add_single_label, single_label;
    by rewrite <- ?app_assoc.
Qed.

End AddLabelsProperties.

(** * Prepared frames: order *)

Section FrameOrderFacts.
Import Data Frames.

Lemma string_leb_trans (a b c : string) :
  String.leb a b = true → String.leb b c = true → String.leb a c = true.
Proof.
  unfold String.leb.
  change String.compare with OrdersEx.String_as_OT.compare.
  intros Hab Hbc.
  destruct (OrdersEx.String_as_OT.compare_spec a b) as [Eab|Hlt1|Hgt1].
  - unfold OrdersEx.String_as_OT.eq in Eab. subst. assumption.
  - destruct (OrdersEx.String_as_OT.compare_spec b c) as [Ebc|Hlt2|Hgt2].
    + unfold OrdersEx.String_as_OT.eq in Ebc. subst c.
      unfold OrdersEx.String_as_OT.lt in Hlt1. by rewrite Hlt1.
    + assert (OrdersEx.String_as_OT.lt a c) as H by (etransitivity; eassumption).
      unfold OrdersEx.String_as_OT.lt in H. by rewrite H.
    + discriminate.
  - discriminate.
Qed.

Lemma time_entity_le_spec (a b : RankedRow) :
  time_entity_le a b = true ↔
  (time (source a) < time (source b))%Z ∨
  (time (source a) = time (source b) ∧
   String.leb (entity (source a)) (entity (source b)) = true).
Proof.
  unfold time_entity_le.
  destruct (Z.ltb_spec (time (source a)) (time (source b))) as [Hlt|Hge].
  - split; [by left|done].
  - destruct (Z.eqb_spec (time (source a)) (time (source b))) as [Heq|Hne].
    + split; [by right|]. intros [?|[_ ?]]; [lia|done].
    + split; [done|]. intros [?|[? _]]; lia.
Qed.

Lemma time_entity_le_total (a b : RankedRow) :
  time_entity_le a b = true ∨ time_entity_le b a = true.
Proof.
  rewrite !time_entity_le_spec.
  destruct (Z.lt_trichotomy (time (source a)) (time (source b))) as [?|[Heq|?]];
    [left; by left| |right; by left].
  destruct (String.leb_total (entity (source a)) (entity (source b)));
    [left|right]; right; split; done.
Qed.

Lemma time_entity_le_trans (a b c : RankedRow) :
  time_entity_le a b = true → time_entity_le b c = true →
  time_entity_le a c = true.
Proof.
  rewrite !time_entity_le_spec.
  intros [Hab|[Hab Hab']] [Hbc|[Hbc Hbc']]; try (left; lia).
  right. split; [lia|]. by eapply string_leb_trans.
Qed.

Lemma by_time_total (a b : RankedRow) : by_time a b = true ∨ by_time b a = true.
Proof. unfold by_time. rewrite !Z.leb_le. lia. Qed.

Lemma by_time_trans (a b c : RankedRow) :
  by_time a b = true → by_time b c = true → by_time a c = true.
Proof. unfold by_time. rewrite !Z.leb_le. lia. Qed.

Lemma zip_fmap {A B D : Type} (f : A → B) (g : A → D) (l : list A) :
  zip (f <$> l) (g <$> l) = (λ x, (f x, g x)) <$> l.
Proof. induction l as [|x l IH]; csimpl; [done|]. by rewrite IH. Qed.

(** Rows with one key are one row, in a frame whose keys are distinct. *)
Lemma NoDup_key_inj (df : list RankedRow) (a b : RankedRow) :
  NoDup (key <$> df) → a ∈ df → b ∈ df → key a = key b → a = b.
Proof.
  intros Hnd Ha Hb Hk.
  apply list_elem_of_lookup in Ha as [i Hi].
  apply list_elem_of_lookup in Hb as [j Hj].
  assert (i = j) as ->; [|congruence].
  apply (NoDup_lookup _ i j (key a) Hnd); rewrite list_lookup_fmap, ?Hi, ?Hj;
    simpl; congruence.
Qed.

(** What a successful [prepare_data] has done. *)
Lemma prepare_data_ok (df : DataFrame) (rank_col value_col : option Column)
    (ascending : bool) (tie_method : TieMethod) (prepared : list RankedRow) :
  prepare_data df rank_col value_col ascending tie_method = Ok prepared →
  ∃ ranks,
    ranks = match value_col, rank_col with
            | Some value_col, _ => calculate_ranks df value_col ascending tie_method
            | None, Some rank_col => rank_col <$> df
            | None, None => []
            end ∧
    length ranks = length df ∧
    df ≠ [] ∧
    _validate_ranks (zip_with mkRanked df ranks) = Ok () ∧
    prepared = stable_sort time_entity_le (zip_with mkRanked df ranks).
Proof.
  unfold prepare_data, validate_dataframe.
  destruct (bool_decide (df = [])) eqn:Hdf; [done|].
  apply bool_decide_eq_false in Hdf.
  destruct value_col as [value_col|], rank_col as [rank_col|];
    cbn [mbind result_bind]; try done.
  - destruct (_validate_ranks _) as [[]|] eqn:Hv; [|done].
    cbn [mbind result_bind]. intros [= <-]. eexists. split; [done|].
    by rewrite calculate_ranks_length.
  - destruct (_validate_ranks _) as [[]|] eqn:Hv; [|done].
    cbn [mbind result_bind]. intros [= <-]. eexists. split; [done|].
    by rewrite calculate_ranks_length.
  - destruct (_validate_ranks _) as [[]|] eqn:Hv; [|done].
    cbn [mbind result_bind]. intros [= <-]. eexists. split; [done|].
    by rewrite length_fmap.
Qed.

Lemma validate_ranks_ok (df : list RankedRow) :
  _validate_ranks df = Ok () ↔
  forallb isna (_rank <$> df) = false ∧
  existsb (λ r, Qltb r 0) (dropna (_rank <$> df)) = false ∧
  NoDup (key <$> df).
Proof.
  unfold _validate_ranks.
  destruct (forallb isna (_rank <$> df)); [split; [done|by intros [? _]]|].
  destruct (existsb _ (dropna _)); [split; [done|by intros (_ & ? & _)]|].
  destruct (decide (NoDup (key <$> df))) as [Hnd|Hnd].
  - by rewrite duplicated_NoDup.
  - rewrite duplicated_not_NoDup by done. split; [done|by intros (_ & _ & ?)].
Qed.

Lemma prepared_source (df : DataFrame) (ranks : list (option Q)) :
  length ranks = length df → source <$> zip_with mkRanked df ranks = df.
Proof. intros H. apply fmap_zip_with_l; [done|lia]. Qed.

Lemma prepared_rank (df : DataFrame) (ranks : list (option Q)) :
  length ranks = length df → _rank <$> zip_with mkRanked df ranks = ranks.
Proof. intros H. apply fmap_zip_with_r; [done|lia]. Qed.
End FrameOrderFacts.

(** * Prepared frames: the rows of one entity *)

Section EntityDataFacts.
Import Data Frames.

Lemma in_order_filter {A : Type} (leb : A → A → bool) (P : A → Prop)
    `{∀ x, Decision (P x)} (l : list A) :
  in_order leb l → in_order leb (filter P l).
Proof.
  induction l as [|x l IH]; [done|]. intros [Hx Hl].
  rewrite filter_cons. destruct (decide (P x)); [|by apply IH].
  split; [|by apply IH]. intros y [_ Hy]%list_elem_of_filter. by apply Hx.
Qed.

Lemma in_order_fmap {A B : Type} (f : A → B) (leA : A → A → bool)
    (leB : B → B → bool) (l : list A) :
  (∀ a b, a ∈ l → b ∈ l → leA a b = true → leB (f a) (f b) = true) →
  in_order leA l → in_order leB (f <$> l).
Proof.
  induction l as [|x l IH]; [done|]. intros Hle [Hx Hl]. csimpl. split.
  - intros y (z & -> & Hz)%list_elem_of_fmap.
    apply Hle; [left|by right|by apply Hx].
  - apply IH; [|done]. intros a b Ha Hb. apply Hle; by right.
Qed.

Lemma NoDup_key_filter (P : RankedRow → Prop) `{∀ x, Decision (P x)}
    (l : list RankedRow) :
  NoDup (key <$> l) → NoDup (key <$> filter P l).
Proof.
  intros Hnd. eapply sublist_NoDup; [exact Hnd|].
  apply fmap_sublist, sublist_filter.
Qed.

(** In a frame that is in (time, entity) order and has no pair twice, the
    times of the rows of one entity increase strictly. *)
Lemma entity_times_increase (entity : string) (l : list RankedRow) :
  in_order time_entity_le l → NoDup (key <$> l) →
  (∀ r, r ∈ l → Data.entity (source r) = entity) →
  in_order Z.ltb ((λ r, time (source r)) <$> l).
Proof.
  induction l as [|x l IH]; [done|]. intros [Hx Hl] Hnd He. csimpl.
  apply NoDup_cons in Hnd as [Hnx Hnd]. split.
  - intros t (y & -> & Hy)%list_elem_of_fmap.
    apply Z.ltb_lt.
    destruct (proj1 (time_entity_le_spec x y) (Hx y Hy)) as [Hlt|[Heq _]]; [done|].
    exfalso. apply Hnx. apply list_elem_of_fmap. exists y. split; [|done].
    unfold key. rewrite Heq. f_equal.
    rewrite (He x), (He y); [done|by right|left].
  - apply IH; [done..|]. intros r Hr. apply He. by right.
Qed.

Lemma in_order_by_time (l : list RankedRow) :
  in_order time_entity_le l → in_order by_time l.
Proof.
  induction l as [|x l IH]; [done|]. intros [Hx Hl]. split; [|by apply IH].
  intros y Hy. unfold by_time. apply Z.leb_le.
  destruct (proj1 (time_entity_le_spec x y) (Hx y Hy)) as [?|[? _]]; lia.
Qed.

(** A prepared frame is in order, holds the rows of the input, and has
    passed the three tests of [_validate_ranks]. *)
Lemma prepare_data_prepared (df : DataFrame) (rank_col value_col : option Column)
    (ascending : bool) (tie_method : TieMethod) (prepared : list RankedRow) :
  prepare_data df rank_col value_col ascending tie_method = Ok prepared →
  in_order time_entity_le prepared ∧
  source <$> prepared ≡ₚ df ∧
  NoDup (key <$> prepared) ∧
  forallb isna (_rank <$> prepared) = false ∧
  (∀ r q, r ∈ prepared → _rank r = Some q → (0 <= q)%Q).
Proof.
  intros (ranks & _ & Hlen & Hne & Hv & ->)%prepare_data_ok.
  apply validate_ranks_ok in Hv as (Hnan & Hneg & Hnd).
  pose proof (stable_sort_perm time_entity_le (zip_with mkRanked df ranks)) as Hp.
  split; [|split; [|split; [|split]]].
  - apply stable_sort_in_order;
      [apply time_entity_le_total|apply time_entity_le_trans].
  - rewrite Hp. by rewrite prepared_source.
  - by rewrite Hp.
  - destruct (forallb isna (_rank <$> stable_sort _ _)) eqn:E; [|done].
    rewrite <- Hnan. symmetry.
    apply Is_true_true. apply Is_true_true in E.
    rewrite forallb_True in E |- *.
    by rewrite Hp in E.
  - intros r q Hr Hq. rewrite Hp in Hr.
    destruct (Qlt_le_dec q 0) as [Hlt|]; [|done]. exfalso.
    assert (existsb (λ r, Qltb r 0) (dropna (_rank <$> zip_with mkRanked df ranks)))
      as Hex; [|by rewrite Hneg in Hex].
    apply existb_True, Exists_exists. exists q. split.
    + unfold dropna. apply list_elem_of_omap. exists (Some q). split; [|done].
      apply list_elem_of_fmap. by exists r.
    + apply Is_true_true. by apply Qltb_lt.
Qed.
End EntityDataFacts.

(** * Prepared frames: properties *)

Section FrameProperties.
Import Data Frames.

(** X12: [get_entity_data] returns two arrays of one length, the times in
    ascending order; paired up, they are the (time, rank) pairs of the
    rows of the entity, each row once.  An entity without rows gives two
    empty arrays. *)
Theorem get_entity_data_rows (df : list RankedRow) (entity : string) :
  let times := (get_entity_data df entity).1 in
  let ranks := (get_entity_data df entity).2 in
  length times = length ranks ∧
  in_order Z.leb times ∧
  zip times ranks ≡ₚ
    (λ r, (time (source r), _rank r))
      <$> filter (λ r, Data.entity (source r) = entity) df.
Proof.
  unfold get_entity_data. cbn [fst snd].
  split; [by rewrite !length_fmap|]. split.
  - apply (in_order_fmap _ by_time); [done|].
    apply stable_sort_in_order; [apply by_time_total|apply by_time_trans].
  - rewrite zip_fmap. by rewrite stable_sort_perm.
Qed.

(** X13: on the frame that [prepare_data] returns, [get_entity_data]
    gives the rows of the entity in the order of the frame (its sort
    moves nothing), and the times increase strictly: no period occurs
    twice in the series of an entity. *)
Theorem prepared_entity_data (df : DataFrame) (rank_col value_col : option Column)
    (ascending : bool) (tie_method : TieMethod) (prepared : list RankedRow)
    (entity : string) :
  prepare_data df rank_col value_col ascending tie_method = Ok prepared →
  let rows := filter (λ r, Data.entity (source r) = entity) prepared in
  get_entity_data prepared entity
  = ((λ r, time (source r)) <$> rows, _rank <$> rows) ∧
  in_order Z.ltb (get_entity_data prepared entity).1.
Proof.
  intros (Hord & _ & Hnd & _)%prepare_data_prepared rows.
  assert (in_order time_entity_le rows) as Hrows by (by apply in_order_filter).
  assert (stable_sort by_time rows = rows) as Hid.
  { by apply stable_sort_id, in_order_by_time. }
  unfold get_entity_data. fold rows. rewrite Hid. split; [done|].
  cbn [fst]. apply (entity_times_increase entity); [done| |].
  - by apply NoDup_key_filter.
  - by intros r [? _]%list_elem_of_filter.
Qed.

(** X14: the frame that [prepare_data] returns is sorted by time, then by
    entity; it holds the rows of the input, each once; no (time, entity)
    pair occurs twice; some rank is a number, and no rank is negative. *)
Theorem prepare_data_postcondition (df : DataFrame)
    (rank_col value_col : option Column) (ascending : bool)
    (tie_method : TieMethod) (prepared : list RankedRow) :
  prepare_data df rank_col value_col ascending tie_method = Ok prepared →
  in_order time_entity_le prepared ∧
  source <$> prepared ≡ₚ df ∧
  NoDup (key <$> prepared) ∧
  (∃ r q, r ∈ prepared ∧ _rank r = Some q) ∧
  (∀ r q, r ∈ prepared → _rank r = Some q → (0 <= q)%Q).
Proof.
  intros (Hord & Hp & Hnd & Hnan & Hneg)%prepare_data_prepared.
  repeat split; try done.
  destruct (decide (Forall (λ r, _rank r = None) prepared)) as [Hall|Hex].
  - exfalso. assert (forallb isna (_rank <$> prepared)) as H;
      [|by rewrite Hnan in H].
    apply forallb_True, Forall_fmap. eapply Forall_impl; [exact Hall|].
    intros r Hr. simpl. by rewrite Hr.
  - apply not_Forall_Exists in Hex; [|apply _].
    apply Exists_exists in Hex as (r & Hr & Hq).
    destruct (_rank r) as [q|] eqn:E; [|done]. by exists r, q.
Qed.

(** X15: with the ranks given directly, [prepare_data] returns a frame
    exactly when the input has a row, some rank is a number, no rank is
    negative, and no (time, entity) pair occurs twice. *)
Theorem prepare_data_rank_column (df : DataFrame) (rank_col : Column)
    (ascending : bool) (tie_method : TieMethod) :
  succeeds (prepare_data df (Some rank_col) None ascending tie_method) ↔
  df ≠ [] ∧
  Exists (λ r, rank_col r ≠ None) df ∧
  Forall (λ r, ∀ q, rank_col r = Some q → (0 <= q)%Q) df ∧
  NoDup ((λ r, (time r, entity r)) <$> df).
Proof.
  assert (key <$> zip_with mkRanked df (rank_col <$> df)
          = (λ r, (time r, entity r)) <$> df) as Hkeys.
  { change key with ((λ r, (time r, entity r)) ∘ source).
    rewrite list_fmap_compose. f_equal. apply prepared_source.
    by rewrite length_fmap. }
  assert (forallb isna (rank_col <$> df) = false
          ↔ Exists (λ r, rank_col r ≠ None) df) as Hnan.
  { clear. induction df as [|r df IH]; [split; [done|by inversion 1]|].
    csimpl. rewrite Exists_cons. destruct (rank_col r); simpl.
    - split; [|done]. intros _. by left.
    - rewrite IH. split; [by right|]. by intros [?|?]. }
  assert (existsb (λ r, Qltb r 0) (dropna (rank_col <$> df)) = false
          ↔ Forall (λ r, ∀ q, rank_col r = Some q → (0 <= q)%Q) df) as Hneg.
  { clear. induction df as [|r df IH]; [split; [constructor|done]|].
    rewrite Forall_cons. csimpl. destruct (rank_col r) as [q|]; simpl.
    - rewrite orb_false_iff, IH, Qltb_ge. split.
      + intros [? ?]. split; [|done]. by intros ? [= <-].
      + intros [H ?]. split; [|done]. by apply H.
    - rewrite IH. split; [|by intros [_ ?]]. intros ?. split; [done|done]. }
  split.
  - intros [prepared (ranks & -> & Hlen & Hne & Hv & _)%prepare_data_ok].
    apply validate_ranks_ok in Hv as (H1 & H2 & H3).
    rewrite prepared_rank in H1, H2 by done. rewrite Hkeys in H3.
    split; [done|]. split; [by apply Hnan|]. split; [by apply Hneg|done].
  - intros (Hne & H1 & H2 & H3). unfold prepare_data, validate_dataframe.
    rewrite bool_decide_eq_false_2 by done. cbn [mbind result_bind].
    rewrite (proj2 (validate_ranks_ok _)); [by eexists|].
    rewrite prepared_rank by (by rewrite length_fmap). rewrite Hkeys.
    split; [by apply Hnan|]. split; [by apply Hneg|done].
Qed.

(** X16: with the ranks given directly, a negative rank is reported as
    such, also when a (time, entity) pair occurs twice: the ranks are
    tested before the pairs. *)
Theorem prepare_data_negative_rank (df : DataFrame) (rank_col : Column)
    (ascending : bool) (tie_method : TieMethod) :
  Exists (λ r, ∃ q, rank_col r = Some q ∧ (q < 0)%Q) df →
  prepare_data df (Some rank_col) None ascending tie_method
  = Err (ValueError RankValuesNonNegative).
Proof.
  intros Hex. unfold prepare_data, validate_dataframe.
  rewrite bool_decide_eq_false_2 by (intros ->; by inversion Hex).
  cbn [mbind result_bind]. unfold _validate_ranks.
  rewrite prepared_rank by (by rewrite length_fmap).
  assert (forallb isna (rank_col <$> df) = false) as ->.
  { induction Hex as [r df (q & Hq & _)|r df _ IH]; csimpl.
    - by rewrite Hq.
    - by rewrite IH, andb_false_r. }
  assert (existsb (λ r, Qltb r 0) (dropna (rank_col <$> df)) = true) as ->; [|done].
  induction Hex as [r df (q & Hq & Hlt)|r df _ IH]; csimpl.
  - rewrite Hq. simpl. by rewrite (proj2 (Qltb_lt q 0)).
  - destruct (rank_col r); simpl; [|done]. by rewrite IH, orb_true_r.
Qed.
End FrameProperties.

(** * Completed frames: the grid *)

Section GridFacts.
Import Data Frames.

Lemma elem_of_unique {A : Type} `{EqDecision A} (l : list A) (x : A) :
  x ∈ unique l ↔ x ∈ l.
Proof.
  induction l as [|y l IH]; [done|]. simpl.
  rewrite !elem_of_cons, list_elem_of_filter, IH.
  destruct (decide (x = y)); [by split; left|]. split; intros [|]; try done.
  - right. tauto.
  - by right.
Qed.

Lemma NoDup_unique {A : Type} `{EqDecision A} (l : list A) : NoDup (unique l).
Proof.
  induction l as [|y l IH]; [constructor|]. simpl. apply NoDup_cons. split.
  - by intros [? _]%list_elem_of_filter.
  - by apply NoDup_filter.
Qed.

Lemma elem_of_from_product (all_times : list Z) (all_entities : list string)
    (t : Z) (e : string) :
  (t, e) ∈ from_product all_times all_entities ↔ t ∈ all_times ∧ e ∈ all_entities.
Proof.
  unfold from_product. rewrite list_elem_of_bind. split.
  - intros (t' & (e' & He & He')%list_elem_of_bind & Ht).
    apply list_elem_of_singleton in He as [= -> ->]. done.
  - intros [Ht He]. exists t. split; [|done].
    apply list_elem_of_bind. exists e. split; [|done]. by apply list_elem_of_singleton.
Qed.

Lemma NoDup_from_product (all_times : list Z) (all_entities : list string) :
  NoDup all_times → NoDup all_entities →
  NoDup (from_product all_times all_entities).
Proof.
  intros Ht He. unfold from_product. apply NoDup_bind; [| |done].
  - intros t1 t2 [t e] _ _.
    intros (e1 & [= -> ->]%list_elem_of_singleton & _)%list_elem_of_bind.
    by intros (e2 & [= ->]%list_elem_of_singleton & _)%list_elem_of_bind.
  - intros t _. apply NoDup_bind; [| |done].
    + intros e1 e2 [t' e] _ _.
      intros [= -> ->]%list_elem_of_singleton. by intros [= ->]%list_elem_of_singleton.
    + intros e _. apply NoDup_singleton.
Qed.

Lemma length_from_product (all_times : list Z) (all_entities : list string) :
  length (from_product all_times all_entities)
  = (length all_times * length all_entities)%nat.
Proof.
  unfold from_product. induction all_times as [|t ts IH]; [done|].
  rewrite bind_cons, length_app, IH. simpl. f_equal.
  clear. induction all_entities as [|e es IH]; [done|].
  rewrite bind_cons, length_app, IH. done.
Qed.

Lemma key_reindex_row (df : list RankedRow) (k : Z * string) :
  key (reindex_row df k) = k.
Proof.
  unfold reindex_row. destruct (list_find _ df) as [[i r]|] eqn:E.
  - by apply list_find_Some in E as (_ & ? & _).
  - by destruct k.
Qed.

(** [reindex] keeps a row of the frame as it is. *)
Lemma reindex_row_elem (df : list RankedRow) (r : RankedRow) :
  NoDup (key <$> df) → r ∈ df → reindex_row df (key r) = r.
Proof.
  intros Hnd Hr. unfold reindex_row.
  destruct (list_find_elem_of (λ r', key r' = key r) df r Hr eq_refl) as [[i r'] E].
  rewrite E. apply list_find_Some in E as (Hi%list_elem_of_lookup_2 & Hk & _).
  by apply (NoDup_key_inj df).
Qed.

(** [reindex] makes a row of NaN for a pair that the frame does not
    have. *)
Lemma reindex_row_new (df : list RankedRow) (k : Z * string) :
  k ∉ key <$> df →
  reindex_row df k = mkRanked (mkRow k.1 k.2 None None) None.
Proof.
  intros Hk. unfold reindex_row.
  destruct (list_find _ df) as [[i r]|] eqn:E; [|done].
  apply list_find_Some in E as (Hi%list_elem_of_lookup_2 & Hr & _).
  exfalso. apply Hk, list_elem_of_fmap. by exists r.
Qed.

Lemma reindex_keys (df : list RankedRow) (index : list (Z * string)) :
  key <$> (reindex_row df <$> index) = index.
Proof.
  rewrite <- list_fmap_compose. rewrite <- (list_fmap_id index) at 2.
  apply list_fmap_ext. intros _ k _. apply key_reindex_row.
Qed.

Lemma zip_with_source (l : list RankedRow) (ranks : list (option Q)) :
  length ranks = length l →
  source <$> zip_with (λ r rank, mkRanked (source r) rank) l ranks = source <$> l.
Proof.
  revert ranks. induction l as [|r l IH]; intros [|q ranks] Hlen; try done.
  csimpl. f_equal. apply IH. simpl in Hlen. lia.
Qed.

Lemma zip_with_rank (l : list RankedRow) (ranks : list (option Q)) :
  length ranks = length l →
  _rank <$> zip_with (λ r rank, mkRanked (source r) rank) l ranks = ranks.
Proof.
  revert ranks. induction l as [|r l IH]; intros [|q ranks] Hlen; try done.
  csimpl. f_equal. apply IH. simpl in Hlen. lia.
Qed.

Lemma key_source (l : list RankedRow) :
  key <$> l = (λ r, (time r, entity r)) <$> (source <$> l).
Proof. by rewrite <- list_fmap_compose. Qed.

(** Writing values at positions leaves the length of the series. *)
Lemma write_length {A : Type} (l : list (nat * A)) :
  ∀ out : list A, length (foldl (λ out iv, <[iv.1 := iv.2]> out) out l) = length out.
Proof.
  induction l as [|[j v] l IH]; intros out; simpl; [done|].
  by rewrite IH, length_insert.
Qed.

Lemma write_other {A : Type} (l : list (nat * A)) (i : nat) :
  i ∉ l.*1 →
  ∀ out : list A, foldl (λ out iv, <[iv.1 := iv.2]> out) out l !! i = out !! i.
Proof.
  induction l as [|[j v] l IH]; intros Hi out; simpl; [done|].
  apply not_elem_of_cons in Hi as [Hij Hi].
  rewrite IH by done. by apply list_lookup_insert_ne.
Qed.

Lemma write_lookup {A : Type} (l : list (nat * A)) (i : nat) (v : A) :
  NoDup l.*1 → (i, v) ∈ l →
  ∀ out : list A, (i < length out)%nat →
    foldl (λ out iv, <[iv.1 := iv.2]> out) out l !! i = Some v.
Proof.
  induction l as [|[j w] l IH]; intros Hnd Hin out Hlen; [by inversion Hin|].
  apply NoDup_cons in Hnd as [Hj Hnd]. simpl.
  apply elem_of_cons in Hin as [[= <- <-]|Hin].
  - rewrite write_other by done. by apply list_lookup_insert_eq.
  - apply IH; [done..|]. by rewrite length_insert.
Qed.

Lemma transform_ranks_length (f : list (option Q) → list (option Q))
    (df : list RankedRow) :
  length (transform_ranks f df) = length df.
Proof.
  unfold transform_ranks.
  generalize (unique ((λ r, Data.entity (source r)) <$> df)). intros es.
  transitivity (length (_rank <$> df)); [|by rewrite length_fmap].
  generalize (_rank <$> df).
  induction es as [|e es IH]; intros out; simpl; [done|].
  by rewrite IH, write_length.
Qed.

(** What [handle_missing_periods] returns in the two modes. *)
Lemma handle_missing_periods_gap (interpolate : list (option Q) → list (option Q))
    (df : list RankedRow) :
  NoDup (key <$> df) →
  handle_missing_periods interpolate df Gap
  = Return (reindex_row df <$>
              from_product (unique ((λ r, time (source r)) <$> df))
                           (unique ((λ r, Data.entity (source r)) <$> df))).
Proof.
  intros Hnd. unfold handle_missing_periods.
  by rewrite bool_decide_eq_true_2 by done.
Qed.

Lemma handle_missing_periods_return (interpolate : list (option Q) → list (option Q))
    (df : list RankedRow) (fill_method : FillMethod) (result : list RankedRow) :
  handle_missing_periods interpolate df fill_method = Return result →
  NoDup (key <$> df) ∧
  ∃ gap, handle_missing_periods interpolate df Gap = Return gap ∧
         result = match fill_method with
                  | Gap => gap
                  | Interpolate =>
                      zip_with (λ r rank, mkRanked (source r) rank) gap
                               (transform_ranks interpolate gap)
                  end.
Proof.
  unfold handle_missing_periods.
  destruct (bool_decide (NoDup (key <$> df))) eqn:E; [|done].
  apply bool_decide_eq_true in E. cbn [mbind outcome_bind].
  intros H. split; [done|]. eexists. split; [done|].
  destruct fill_method; by simplify_eq.
Qed.
End GridFacts.

(** * Completed frames: the positions of a group *)

Section PositionFacts.
Context {A : Type} (P : A → Prop) `{!∀ x, Decision (P x)}.

Lemma enumerate_snoc (l : list A) (x : A) :
  enumerate (l ++ [x]) = enumerate l ++ [(length l, x)].
Proof.
  unfold enumerate. rewrite length_app. simpl. rewrite seq_app. simpl.
  rewrite zip_with_app; [done|]. by rewrite length_seq.
Qed.

Lemma positions_snoc (l : list A) (x : A) :
  (filter (λ ir : nat * A, P ir.2) (enumerate (l ++ [x]))).*1
  = (filter (λ ir : nat * A, P ir.2) (enumerate l)).*1
    ++ (if decide (P x) then [length l] else []).
Proof.
  rewrite enumerate_snoc, filter_app, fmap_app. f_equal.
  rewrite filter_cons. simpl. by destruct (decide (P x)).
Qed.

Lemma filter_snoc (l : list A) (x : A) :
  filter P (l ++ [x]) = filter P l ++ (if decide (P x) then [x] else []).
Proof.
  rewrite filter_app. by f_equal.
Qed.

(** The positions of the entries that satisfy [P] name these entries, in
    order. *)
Lemma positions_rows (l : list A) :
  Forall2 (λ i x, l !! i = Some x)
          (filter (λ ir : nat * A, P ir.2) (enumerate l)).*1 (filter P l).
Proof.
  induction l as [|x l IH] using rev_ind; [constructor|].
  rewrite positions_snoc, filter_snoc. apply Forall2_app.
  - eapply Forall2_impl; [exact IH|]. intros i y Hi. by apply lookup_app_l_Some.
  - destruct (decide (P x)); [|constructor].
    constructor; [|constructor]. by apply list_lookup_middle.
Qed.

Lemma positions_elem (l : list A) (i : nat) :
  i ∈ (filter (λ ir : nat * A, P ir.2) (enumerate l)).*1 ↔
  ∃ x, l !! i = Some x ∧ P x.
Proof.
  rewrite list_elem_of_fmap. split.
  - intros ([j x] & -> & [HP Hin]%list_elem_of_filter).
    apply list_elem_of_lookup in Hin as [k Hk].
    apply enumerate_lookup_inv in Hk as [-> Hk]. by exists x.
  - intros (x & Hi & HP). exists (i, x). split; [done|].
    apply list_elem_of_filter. split; [done|].
    apply list_elem_of_lookup. exists i. by apply enumerate_lookup.
Qed.

Lemma positions_NoDup (l : list A) :
  NoDup (filter (λ ir : nat * A, P ir.2) (enumerate l)).*1.
Proof.
  eapply sublist_NoDup; [|apply fmap_sublist, sublist_filter].
  unfold enumerate. rewrite fst_zip by (by rewrite length_seq). apply NoDup_seq.
Qed.
End PositionFacts.

Section PositionMapFacts.
Context {A B : Type} (f : A → B) (P : B → Prop) `{!∀ x, Decision (P x)}.

(** The positions depend on the column that is tested only. *)
Lemma positions_fmap (l : list A) :
  (filter (λ ir : nat * B, P ir.2) (enumerate (f <$> l))).*1
  = (filter (λ ir : nat * A, P (f ir.2)) (enumerate l)).*1.
Proof.
  induction l as [|x l IH] using rev_ind; [done|].
  rewrite fmap_app. simpl.
  pose proof (positions_snoc (λ x, P (f x)) l x) as Hs. cbv beta in Hs.
  rewrite (positions_snoc P), Hs, IH. by rewrite length_fmap.
Qed.
End PositionMapFacts.

Section TransformFacts.
Import Data Frames.

Lemma omap_Forall2 {A B : Type} (g : A → option B) (l : list A) (k : list B) :
  Forall2 (λ i y, g i = Some y) l k → omap g l = k.
Proof. induction 1 as [|i y l k Hi _ IH]; csimpl; [done|]. by rewrite Hi, IH. Qed.

Lemma entity_positions_source (df1 df2 : list RankedRow) (entity : string) :
  source <$> df1 = source <$> df2 →
  entity_positions df1 entity = entity_positions df2 entity.
Proof.
  intros Hs. unfold entity_positions.
  pose proof (positions_fmap source (λ r, Data.entity r = entity) df1) as H1.
  pose proof (positions_fmap source (λ r, Data.entity r = entity) df2) as H2.
  rewrite Hs in H1. etrans; [symmetry; exact H1|exact H2].
Qed.

Lemma entity_positions_rows (df : list RankedRow) (entity : string) :
  Forall2 (λ i r, df !! i = Some r) (entity_positions df entity)
          (filter (λ r, Data.entity (source r) = entity) df).
Proof. exact (positions_rows (λ r, Data.entity (source r) = entity) df). Qed.

Lemma entity_positions_elem (df : list RankedRow) (entity : string) (i : nat) :
  i ∈ entity_positions df entity ↔
  ∃ r, df !! i = Some r ∧ Data.entity (source r) = entity.
Proof. exact (positions_elem (λ r, Data.entity (source r) = entity) df i). Qed.

Lemma entity_positions_NoDup (df : list RankedRow) (entity : string) :
  NoDup (entity_positions df entity).
Proof. exact (positions_NoDup (λ r, Data.entity (source r) = entity) df). Qed.

(** The ranks of an entity, as [transform] hands them to the function. *)
Lemma entity_positions_ranks (df : list RankedRow) (entity : string) :
  omap (λ i, _rank <$> df !! i) (entity_positions df entity)
  = _rank <$> filter (λ r, Data.entity (source r) = entity) df.
Proof.
  apply omap_Forall2, Forall2_fmap_r.
  eapply Forall2_impl; [apply entity_positions_rows|].
  intros i r Hi. simpl. by rewrite Hi.
Qed.

Section Transform.
Context (f : list (option Q) → list (option Q)).
Context (f_length : ∀ l, length (f l) = length l).
Context (df : list RankedRow).

(** A row keeps its entry while the groups of other entities are
    written. *)
Lemma transform_other (es : list string) (i : nat) (r : RankedRow) :
  df !! i = Some r → Data.entity (source r) ∉ es →
  ∀ out : list (option Q),
    foldl
      (λ out entity,
         let positions := entity_positions df entity in
         let values := f (omap (λ i, _rank <$> df !! i) positions) in
         foldl (λ out iv, <[iv.1 := iv.2]> out) out (zip positions values))
      out es !! i
    = out !! i.
Proof.
  intros Hi. induction es as [|e es IH]; intros He out; [done|].
  apply not_elem_of_cons in He as [Hne He]. simpl.
  rewrite IH by done. apply write_other.
  intros ([j v] & -> & Hin%elem_of_zip_l)%list_elem_of_fmap.
  apply entity_positions_elem in Hin as (r' & Hr' & <-).
  simpl in Hi. by simplify_eq.
Qed.

(** A row of an entity receives the value that the function returns at
    the place of the row in the group of the entity. *)
Lemma transform_lookup (es : list string) (entity : string) (p i : nat)
    (v : option Q) :
  NoDup es → entity ∈ es →
  entity_positions df entity !! p = Some i →
  f (_rank <$> filter (λ r, Data.entity (source r) = entity) df) !! p = Some v →
  ∀ out : list (option Q), length out = length df →
    foldl
      (λ out entity,
         let positions := entity_positions df entity in
         let values := f (omap (λ i, _rank <$> df !! i) positions) in
         foldl (λ out iv, <[iv.1 := iv.2]> out) out (zip positions values))
      out es !! i
    = Some v.
Proof using f_length.
  intros Hnd He Hp Hv.
  destruct (Forall2_lookup_l _ _ _ _ _ (entity_positions_rows df entity) Hp)
    as (r & Hr & Hi).
  apply list_elem_of_lookup_2, list_elem_of_filter in Hr as [Hr _].
  induction es as [|e es IH]; intros out Hlen; [by apply elem_of_nil in He|].
  apply NoDup_cons in Hnd as [Hne Hnd]. simpl.
  destruct (decide (e = entity)) as [->|Hdiff].
  - rewrite (transform_other es i r); [|done|by rewrite Hr].
    apply write_lookup.
    + rewrite fst_zip; [apply entity_positions_NoDup|].
      rewrite f_length, entity_positions_ranks, length_fmap.
      by rewrite (Forall2_length _ _ _ (entity_positions_rows df entity)).
    + apply list_elem_of_lookup. exists p. apply lookup_zip_Some.
      by rewrite entity_positions_ranks.
    + rewrite Hlen. by eapply lookup_lt_Some.
  - apply elem_of_cons in He as [->|He]; [done|].
    apply IH; [done..|]. by rewrite write_length.
Qed.
End Transform.
End TransformFacts.

Section TransformGroups.
Import Data Frames.

(** [transform] writes, at the rows of each entity, what the function
    returns for the ranks of that entity. *)
Lemma transform_ranks_entity (f : list (option Q) → list (option Q))
    (df : list RankedRow) (entity : string) :
  (∀ l, length (f l) = length l) →
  Forall2 (λ i v, transform_ranks f df !! i = Some v)
          (entity_positions df entity)
          (f (_rank <$> filter (λ r, Data.entity (source r) = entity) df)).
Proof.
  intros f_length. apply Forall2_same_length_lookup_2.
  - rewrite f_length, length_fmap.
    apply (Forall2_length _ _ _ (entity_positions_rows df entity)).
  - intros p i v Hp Hv. unfold transform_ranks.
    apply (transform_lookup f f_length df _ entity p); [apply NoDup_unique| |done..|].
    + apply list_elem_of_lookup_2, entity_positions_elem in Hp as (r & Hr & <-).
      apply elem_of_unique, list_elem_of_fmap. exists r. split; [done|].
      by eapply list_elem_of_lookup_2.
    + by rewrite length_fmap.
Qed.
End TransformGroups.

(** * Completed frames: properties *)

Section GridProperties.
Import Data Frames.

(** X17: on a frame without a repeated (time, entity) pair,
    [handle_missing_periods] returns, in both modes, one row for every
    pair of a time and an entity of the frame: the pairs of the result
    are the product of the distinct times and the distinct entities, in
    that order, none twice. *)
Theorem handle_missing_periods_grid
    (interpolate : list (option Q) → list (option Q))
    (df : list RankedRow) (fill_method : FillMethod) :
  (∀ l, length (interpolate l) = length l) →
  NoDup (key <$> df) →
  ∃ result,
    handle_missing_periods interpolate df fill_method = Return result ∧
    key <$> result
    = from_product (unique ((λ r, time (source r)) <$> df))
                   (unique ((λ r, Data.entity (source r)) <$> df)) ∧
    NoDup (key <$> result) ∧
    length result
    = (length (unique ((λ r, time (source r)) <$> df))
       * length (unique ((λ r, Data.entity (source r)) <$> df)))%nat ∧
    (∀ a b, a ∈ df → b ∈ df →
            (time (source a), Data.entity (source b)) ∈ key <$> result).
Proof.
  intros f_length Hnd.
  pose proof (handle_missing_periods_gap interpolate df Hnd) as Hgap.
  set (index := from_product _ _) in *.
  set (gap := reindex_row df <$> index) in *.
  assert (∃ result,
            handle_missing_periods interpolate df fill_method = Return result ∧
            key <$> result = index) as (result & Hres & Hkeys).
  { destruct fill_method.
    - exists gap. split; [done|]. apply reindex_keys.
    - eexists. split.
      + unfold handle_missing_periods. rewrite bool_decide_eq_true_2 by done.
        cbn [mbind outcome_bind]. done.
      + fold index. fold gap. rewrite key_source, zip_with_source.
        * rewrite <- key_source. apply reindex_keys.
        * apply transform_ranks_length. }
  exists result. split; [done|]. split; [done|].
  split; [|split].
  - rewrite Hkeys. apply NoDup_from_product; apply NoDup_unique.
  - rewrite <- (length_fmap key), Hkeys. apply length_from_product.
  - intros a b Ha Hb. rewrite Hkeys. apply elem_of_from_product.
    split; apply elem_of_unique, list_elem_of_fmap; eauto.
Qed.

(** X18: in the mode [gap], on a frame without a repeated pair, every
    row of the frame is a row of the result as it is, and every other row
    of the result has NaN in all columns but the time and the entity. *)
Theorem handle_missing_periods_gap_rows
    (interpolate : list (option Q) → list (option Q))
    (df result : list RankedRow) :
  NoDup (key <$> df) →
  handle_missing_periods interpolate df Gap = Return result →
  (∀ r, r ∈ df → r ∈ result) ∧
  (∀ r, r ∈ result → r ∉ df →
        r = mkRanked (mkRow (time (source r)) (Data.entity (source r)) None None)
                     None).
Proof.
  intros Hnd Hres. rewrite handle_missing_periods_gap in Hres by done.
  injection Hres as <-. split.
  - intros r Hr. apply list_elem_of_fmap. exists (key r). split.
    + by rewrite reindex_row_elem.
    + apply elem_of_from_product.
      split; apply elem_of_unique, list_elem_of_fmap; eauto.
  - intros r (k & -> & Hk)%list_elem_of_fmap Hnew.
    destruct (decide (k ∈ key <$> df)) as [Hin|Hout].
    + apply list_elem_of_fmap in Hin as (r' & -> & Hr').
      rewrite reindex_row_elem in Hnew by done. done.
    + by rewrite reindex_row_new by done.
Qed.

(** X19: the mode [interpolate] changes the ranks only, and entity by
    entity: the rows of the result are the rows of the mode [gap] with
    new ranks, and the ranks of the rows of an entity are the
    interpolation of the ranks that these rows have in the mode [gap]. *)
Theorem handle_missing_periods_interpolates
    (interpolate : list (option Q) → list (option Q))
    (df result : list RankedRow) :
  (∀ l, length (interpolate l) = length l) →
  handle_missing_periods interpolate df Interpolate = Return result →
  ∃ gap,
    handle_missing_periods interpolate df Gap = Return gap ∧
    source <$> result = source <$> gap ∧
    ∀ entity,
      _rank <$> filter (λ r, Data.entity (source r) = entity) result
      = interpolate
          (_rank <$> filter (λ r, Data.entity (source r) = entity) gap).
Proof.
  intros f_length (Hnd & gap & Hgap & ->)%handle_missing_periods_return.
  exists gap. split; [done|].
  set (result := zip_with _ gap _).
  assert (source <$> result = source <$> gap) as Hsrc.
  { apply zip_with_source, transform_ranks_length. }
  assert (_rank <$> result = transform_ranks interpolate gap) as Hrank.
  { apply zip_with_rank, transform_ranks_length. }
  split; [done|]. intros entity.
  rewrite <- (omap_Forall2 (λ i, transform_ranks interpolate gap !! i)
                (entity_positions gap entity)
                (interpolate
                   (_rank <$> filter (λ r, Data.entity (source r) = entity) gap)))
    by (by apply transform_ranks_entity).
  symmetry. apply omap_Forall2, Forall2_fmap_r.
  rewrite <- (entity_positions_source result gap entity Hsrc).
  eapply Forall2_impl; [apply entity_positions_rows|].
  intros i r Hi. simpl. by rewrite <- Hrank, list_lookup_fmap, Hi.
Qed.
End GridProperties.

(** * The chart: the labels of a prepared frame *)

Section ChartFacts.
Import Labels Data Drawing Frames Core.

Lemma collect_fold_lookup (prepared : list RankedRow) (entities : list string)
    (entity : string) :
  ∀ d : gmap string Series,
    foldl (λ entity_data entity,
             <[entity := get_entity_data prepared entity]> entity_data)
          d entities !! entity
    = if decide (entity ∈ entities) then Some (get_entity_data prepared entity)
      else d !! entity.
Proof.
  induction entities as [|e es IH]; intros d; [done|]. simpl. rewrite IH.
  destruct (decide (entity ∈ es)) as [Hin|Hout].
  - rewrite decide_True; [done|by right].
  - destruct (decide (e = entity)) as [->|Hne].
    + rewrite decide_True by left. by rewrite lookup_insert_eq.
    + rewrite decide_False by (by intros [?|?]%elem_of_cons).
      by rewrite lookup_insert_ne.
Qed.

Lemma collect_entity_data_lookup (prepared : list RankedRow)
    (entities : list string) (entity : string) :
  entity ∈ entities →
  collect_entity_data prepared entities !! entity
  = Some (get_entity_data prepared entity).
Proof.
  intros He. unfold collect_entity_data. rewrite collect_fold_lookup.
  by rewrite decide_True.
Qed.

(** Every entity of the chart has its two arrays, of one length. *)
Lemma collect_entity_data_arrays (prepared : list RankedRow)
    (entities : list string) (entity : string) :
  entity ∈ entities →
  ∃ times ranks,
    collect_entity_data prepared entities !! entity = Some (times, ranks) ∧
    length times = length ranks.
Proof.
  intros He. eexists _, _. split.
  - rewrite collect_entity_data_lookup by done. done.
  - by rewrite !length_fmap.
Qed.

(** An entity with a row whose rank is a number has a rank. *)
Lemma collect_entity_data_has_rank (prepared : list RankedRow)
    (entities : list string) (r : RankedRow) (q : Q) :
  Data.entity (source r) ∈ entities → r ∈ prepared → _rank r = Some q →
  has_rank (collect_entity_data prepared entities) (Data.entity (source r)) = true.
Proof.
  intros He Hr Hq. unfold has_rank.
  rewrite collect_entity_data_lookup by done. unfold get_entity_data.
  apply any_valid_mask. unfold valid_ranks, dropna.
  intros Hnil. apply (elem_of_nil q). rewrite <- Hnil.
  apply list_elem_of_omap. exists (Some q). split; [|done].
  apply list_elem_of_fmap. exists r. split; [done|].
  rewrite stable_sort_perm. by apply list_elem_of_filter.
Qed.

(** With a value column, every rank of the prepared frame is a number. *)
Lemma prepare_data_value_ranks (df : DataFrame) (rank_col : option Column)
    (value_col : Column) (ascending : bool) (tie_method : TieMethod)
    (prepared : list RankedRow) (r : RankedRow) :
  prepare_data df rank_col (Some value_col) ascending tie_method = Ok prepared →
  r ∈ prepared → ∃ q, _rank r = Some q.
Proof.
  intros (ranks & -> & Hlen & _ & _ & ->)%prepare_data_ok Hr.
  rewrite stable_sort_perm in Hr.
  assert (_rank r ∈ calculate_ranks df value_col ascending tie_method) as Hin.
  { rewrite <- (prepared_rank df (calculate_ranks df value_col ascending tie_method))
      by done.
    apply list_elem_of_fmap. by exists r. }
  pose proof (calculate_ranks_valid df value_col ascending tie_method) as Hv.
  eapply Forall_forall in Hv as (q & Hq & _); [|exact Hin]. by exists q.
Qed.

Lemma chart_entities_elem (prepared : list RankedRow) (entity : string) :
  entity ∈ chart_entities prepared ↔
  ∃ r, r ∈ prepared ∧ Data.entity (source r) = entity.
Proof.
  unfold chart_entities. rewrite elem_of_unique, list_elem_of_fmap. split.
  - intros (r & -> & Hr). by exists r.
  - intros (r & Hr & <-). by exists r.
Qed.

Lemma filter_all {A : Type} (P : A → Prop) `{!∀ x, Decision (P x)} (l : list A) :
  Forall P l → filter P l = l.
Proof.
  induction 1 as [|x l Hx _ IH]; [done|].
  by rewrite filter_cons_True, IH by done.
Qed.
End ChartFacts.

(** * The chart: properties of the labels *)

Section ChartProperties.
Import Labels Data Drawing Frames Core.
Context {C : Type}.

(** X20: the labels of a chart (core.py, lines 167, 181-186 and
    219-228).  For the entities and the arrays that [bumpchart] collects
    from a frame, and at least as many colours as entities,
    [add_labels_with_collision_avoidance] raises nothing, whatever the
    frame: no entity lacks its arrays, and the arrays of an entity have
    one length.  The entities labelled on a side that is shown are those
    with a rank that is a number. *)
Theorem chart_labels_return (ax : list (Text C)) (prepared_df : list RankedRow)
    (colors : list C) (show_labels : LabelPosition)
    (label_padding min_label_distance fontsize : Q) :
  let entities := chart_entities prepared_df in
  let entity_data := collect_entity_data prepared_df entities in
  (length entities ≤ length colors)%nat →
  ∃ left_texts right_texts,
    add_labels_with_collision_avoidance ax entities entity_data colors show_labels
      label_padding min_label_distance fontsize
    = Return (ax ++ left_texts ++ right_texts) ∧
    text_s <$> left_texts
    ≡ₚ (if shows_left show_labels
        then filter (λ e, has_rank entity_data e = true) entities else []) ∧
    text_s <$> right_texts
    ≡ₚ (if shows_right show_labels
        then filter (λ e, has_rank entity_data e = true) entities else []).
Proof.
  intros entities entity_data Hlen.
  destruct (add_labels_with_collision_avoidance_spec ax entities entity_data colors
              show_labels label_padding min_label_distance fontsize)
    as (l & r & Hret & Hl & Hr); [|done|].
  { intros e He. by apply collect_entity_data_arrays. }
  apply side_texts_names in Hl as (Hl & _).
  apply side_texts_names in Hr as (Hr & _).
  by exists l, r.
Qed.

(** X21: from values to labels.  When [prepare_data] has ranked a frame
    by a value column, the chart labels every entity of the input, once
    on each side that is shown. *)
Theorem chart_labels_from_values (ax : list (Text C)) (df : DataFrame)
    (rank_col : option Column) (value_col : Column) (ascending : bool)
    (tie_method : TieMethod) (prepared_df : list RankedRow)
    (colors : list C) (show_labels : LabelPosition)
    (label_padding min_label_distance fontsize : Q) :
  prepare_data df rank_col (Some value_col) ascending tie_method = Ok prepared_df →
  let entities := chart_entities prepared_df in
  let entity_data := collect_entity_data prepared_df entities in
  (length entities ≤ length colors)%nat →
  NoDup entities ∧
  (∀ e, e ∈ entities ↔ e ∈ Data.entity <$> df) ∧
  ∃ left_texts right_texts,
    add_labels_with_collision_avoidance ax entities entity_data colors show_labels
      label_padding min_label_distance fontsize
    = Return (ax ++ left_texts ++ right_texts) ∧
    text_s <$> left_texts ≡ₚ (if shows_left show_labels then entities else []) ∧
    text_s <$> right_texts ≡ₚ (if shows_right show_labels then entities else []).
Proof.
  intros Hprep entities entity_data Hlen.
  split; [apply NoDup_unique|]. split.
  { intros e. unfold entities. rewrite chart_entities_elem.
    apply prepare_data_prepared in Hprep as (_ & Hp & _).
    rewrite <- Hp, <- list_fmap_compose, list_elem_of_fmap. split.
    - intros (r & Hr & <-). by exists r.
    - intros (r & -> & Hr). by exists r. }
  assert (filter (λ e, has_rank entity_data e = true) entities = entities) as Hall.
  { apply filter_all, Forall_forall. intros e He.
    pose proof He as (r & Hr & <-)%chart_entities_elem.
    destruct (prepare_data_value_ranks _ _ _ _ _ _ r Hprep Hr) as [q Hq].
    by apply (collect_entity_data_has_rank _ _ r q). }
  destruct (add_labels_with_collision_avoidance_spec ax entities entity_data colors
              show_labels label_padding min_label_distance fontsize)
    as (l & r & Hret & Hl & Hr); [|done|].
  { intros e He. by apply collect_entity_data_arrays. }
  apply side_texts_names in Hl as (Hl & _).
  apply side_texts_names in Hr as (Hr & _).
  rewrite Hall in Hl, Hr.
  by exists l, r.
Qed.
End ChartProperties.

(** * Instances on small frames *)

Section LabelInstances.
Import Labels Data Drawing.

Lemma get_endpoint_positions_endpoints_witness :
  let entity_data : gmap string Series :=
    <["A"%string := ([2020; 2021]%Z, [Some 1%Q; Some 2%Q])]>
      (<["B"%string := ([2020; 2021]%Z, [None; None])]> ∅) in
  let positions : list Label := [("A"%string, 1%Q)] in
  positions.*1
  = filter (λ e, has_rank entity_data e = true) ["A"; "B"]%string ∧
  ∀ entity y, (entity, y) ∈ positions →
    ∃ times ranks,
      entity_data !! entity = Some (times, ranks) ∧
      endpoint_value SideLeft (valid_ranks ranks) = Some y.
Proof.
  intros entity_data positions.
  apply (get_endpoint_positions_endpoints ["A"; "B"]%string entity_data SideLeft
           positions).
  vm_compute. reflexivity.
Defined.

Lemma add_labels_with_collision_avoidance_labels_witness :
  let entities := ["A"; "B"]%string in
  let entity_data : gmap string Series :=
    <["A"%string := ([2020; 2021]%Z, [Some 1%Q; Some 2%Q])]>
      (<["B"%string := ([2020; 2021]%Z, [None; None])]> ∅) in
  let colors := ["red"; "blue"]%string in
  ∃ left_texts right_texts,
    add_labels_with_collision_avoidance [] entities entity_data colors ShowLeft
      (3 # 10) (1 # 2) 10
    = Return ([] ++ left_texts ++ right_texts) ∧
    text_s <$> left_texts
    ≡ₚ (if shows_left ShowLeft
        then filter (λ e, has_rank entity_data e = true) entities else []) ∧
    text_s <$> right_texts
    ≡ₚ (if shows_right ShowLeft
        then filter (λ e, has_rank entity_data e = true) entities else []) ∧
    Forall (λ t, text_ha t = HaRight) left_texts ∧
    Forall (λ t, text_ha t = HaLeft) right_texts ∧
    Forall (λ t, ∃ i, entities !! i = Some (text_s t) ∧
                      colors !! i = Some (text_color t))
           (left_texts ++ right_texts).
Proof.
  intros entities entity_data colors.
  apply (add_labels_with_collision_avoidance_labels (C:=string) [] entities
           entity_data colors ShowLeft (3 # 10) (1 # 2) 10).
  - intros e He. apply elem_of_cons in He as [->|He].
    + eexists _, _. split; reflexivity.
    + apply list_elem_of_singleton in He as ->. eexists _, _. split; reflexivity.
  - simpl. lia.
Defined.

Lemma add_labels_anchors_witness :
  add_labels [] "A" [2019; 2020; 2021]%Z [None; Some 2%Q; Some 3%Q] "red"%string
             ShowTrue (3 # 10) 10
  = Return
      ([]
       ++ (if shows_left ShowTrue
           then [mkText (inject_Z 2020 + - (3 # 10))%Q 2%Q "A"%string "red"%string
                        10 HaRight]
           else [])
       ++ (if shows_right ShowTrue
           then [mkText (inject_Z 2021 + (3 # 10))%Q 3%Q "A"%string "red"%string
                        10 HaLeft]
           else [])).
Proof.
  apply (add_labels_anchors (C:=string) [] "A" [2019; 2020; 2021]%Z
           [None; Some 2%Q; Some 3%Q] "red"%string ShowTrue (3 # 10) 10
           1%nat 2%nat 2020%Z 2021%Z 2%Q 3%Q);
    try reflexivity.
  - intros j Hj. destruct j; [reflexivity|lia].
  - simpl. intros j Hj Hj'. lia.
Defined.

End LabelInstances.

Section FrameInstances.
Import Labels Data Drawing Frames Core.

Lemma prepared_entity_data_witness :
  let prepared :=
    [mkRanked (mkRow 2020 "A" None (Some 3%Q)) (Some 1%Q);
     mkRanked (mkRow 2020 "B" None (Some 4%Q)) (Some 2%Q);
     mkRanked (mkRow 2021 "A" None (Some 5%Q)) (Some 1%Q)] in
  let rows := filter (λ r, Data.entity (source r) = "A"%string) prepared in
  get_entity_data prepared "A"
  = ((λ r, time (source r)) <$> rows, _rank <$> rows) ∧
  in_order Z.ltb (get_entity_data prepared "A").1.
Proof.
  intros prepared.
  apply (prepared_entity_data
           [mkRow 2021 "A" None (Some 5%Q); mkRow 2020 "A" None (Some 3%Q);
            mkRow 2020 "B" None (Some 4%Q)]
           None (Some value) true Min prepared "A").
  vm_compute. reflexivity.
Defined.

Lemma prepare_data_postcondition_witness :
  let df :=
    [mkRow 2021 "A" None (Some 5%Q); mkRow 2020 "A" None (Some 3%Q);
     mkRow 2020 "B" None (Some 4%Q)] in
  let prepared :=
    [mkRanked (mkRow 2020 "A" None (Some 3%Q)) (Some 1%Q);
     mkRanked (mkRow 2020 "B" None (Some 4%Q)) (Some 2%Q);
     mkRanked (mkRow 2021 "A" None (Some 5%Q)) (Some 1%Q)] in
  in_order time_entity_le prepared ∧
  source <$> prepared ≡ₚ df ∧
  NoDup (key <$> prepared) ∧
  (∃ r q, r ∈ prepared ∧ _rank r = Some q) ∧
  (∀ r q, r ∈ prepared → _rank r = Some q → (0 <= q)%Q).
Proof.
  intros df prepared.
  apply (prepare_data_postcondition df None (Some value) true Min prepared).
  vm_compute. reflexivity.
Defined.

Lemma prepare_data_negative_rank_witness :
  prepare_data [mkRow 2020 "A" (Some (-1)%Q) None; mkRow 2020 "A" (Some 2%Q) None]
               (Some rank) None true Average
  = Err (ValueError RankValuesNonNegative).
Proof.
  apply (prepare_data_negative_rank
           [mkRow 2020 "A" (Some (-1)%Q) None; mkRow 2020 "A" (Some 2%Q) None]
           rank true Average).
  apply Exists_cons_hd. exists (-1)%Q. split; reflexivity.
Defined.

Lemma handle_missing_periods_grid_witness :
  let fill := fmap (M:=list) (λ x : option Q, Some (default 0%Q x)) in
  let df :=
    [mkRanked (mkRow 2020 "A" None None) (Some 1%Q);
     mkRanked (mkRow 2021 "B" None None) (Some 2%Q)] in
  ∃ result,
    handle_missing_periods fill df Interpolate = Return result ∧
    key <$> result
    = from_product (unique ((λ r, time (source r)) <$> df))
                   (unique ((λ r, Data.entity (source r)) <$> df)) ∧
    NoDup (key <$> result) ∧
    length result
    = (length (unique ((λ r, time (source r)) <$> df))
       * length (unique ((λ r, Data.entity (source r)) <$> df)))%nat ∧
    (∀ a b, a ∈ df → b ∈ df →
            (time (source a), Data.entity (source b)) ∈ key <$> result).
Proof.
  intros fill df.
  apply (handle_missing_periods_grid fill df Interpolate).
  - intros l. apply length_fmap.
  - apply (bool_decide_unpack _). vm_compute. exact I.
Defined.

Lemma handle_missing_periods_gap_rows_witness :
  let df :=
    [mkRanked (mkRow 2020 "A" None None) (Some 1%Q);
     mkRanked (mkRow 2021 "B" None None) (Some 2%Q)] in
  let result :=
    [mkRanked (mkRow 2020 "A" None None) (Some 1%Q);
     mkRanked (mkRow 2020 "B" None None) None;
     mkRanked (mkRow 2021 "A" None None) None;
     mkRanked (mkRow 2021 "B" None None) (Some 2%Q)] in
  (∀ r, r ∈ df → r ∈ result) ∧
  (∀ r, r ∈ result → r ∉ df →
        r = mkRanked (mkRow (time (source r)) (Data.entity (source r)) None None)
                     None).
Proof.
  intros df result.
  apply (handle_missing_periods_gap_rows (λ l, l) df result).
  - apply (bool_decide_unpack _). vm_compute. exact I.
  - vm_compute. reflexivity.
Defined.

Lemma handle_missing_periods_interpolates_witness :
  let fill := fmap (M:=list) (λ x : option Q, Some (default 0%Q x)) in
  let df :=
    [mkRanked (mkRow 2020 "A" None None) (Some 1%Q);
     mkRanked (mkRow 2021 "B" None None) (Some 2%Q)] in
  let result :=
    [mkRanked (mkRow 2020 "A" None None) (Some 1%Q);
     mkRanked (mkRow 2020 "B" None None) (Some 0%Q);
     mkRanked (mkRow 2021 "A" None None) (Some 0%Q);
     mkRanked (mkRow 2021 "B" None None) (Some 2%Q)] in
  ∃ gap,
    handle_missing_periods fill df Gap = Return gap ∧
    source <$> result = source <$> gap ∧
    ∀ entity,
      _rank <$> filter (λ r, Data.entity (source r) = entity) result
      = fill (_rank <$> filter (λ r, Data.entity (source r) = entity) gap).
Proof.
  intros fill df result.
  apply (handle_missing_periods_interpolates fill df result).
  - intros l. apply length_fmap.
  - vm_compute. reflexivity.
Defined.

Lemma chart_labels_return_witness :
  let prepared_df :=
    [mkRanked (mkRow 2020 "A" None None) (Some 1%Q);
     mkRanked (mkRow 2020 "B" None None) None;
     mkRanked (mkRow 2021 "A" None None) (Some 1%Q)] in
  let entities := chart_entities prepared_df in
  let entity_data := collect_entity_data prepared_df entities in
  ∃ left_texts right_texts,
    add_labels_with_collision_avoidance [] entities entity_data
      ["red"; "blue"]%string ShowTrue (3 # 10) (1 # 2) 10
    = Return ([] ++ left_texts ++ right_texts) ∧
    text_s <$> left_texts
    ≡ₚ (if shows_left ShowTrue
        then filter (λ e, has_rank entity_data e = true) entities else []) ∧
    text_s <$> right_texts
    ≡ₚ (if shows_right ShowTrue
        then filter (λ e, has_rank entity_data e = true) entities else []).
Proof.
  intros prepared_df.
  apply (chart_labels_return (C:=string) [] prepared_df ["red"; "blue"]%string
           ShowTrue (3 # 10) (1 # 2) 10).
  vm_compute. lia.
Defined.

Lemma chart_labels_from_values_witness :
  let df :=
    [mkRow 2021 "A" None (Some 5%Q); mkRow 2020 "A" None (Some 3%Q);
     mkRow 2020 "B" None (Some 4%Q)] in
  let prepared_df :=
    [mkRanked (mkRow 2020 "A" None (Some 3%Q)) (Some 1%Q);
     mkRanked (mkRow 2020 "B" None (Some 4%Q)) (Some 2%Q);
     mkRanked (mkRow 2021 "A" None (Some 5%Q)) (Some 1%Q)] in
  let entities := chart_entities prepared_df in
  let entity_data := collect_entity_data prepared_df entities in
  NoDup entities ∧
  (∀ e, e ∈ entities ↔ e ∈ Data.entity <$> df) ∧
  ∃ left_texts right_texts,
    add_labels_with_collision_avoidance [] entities entity_data
      ["red"; "blue"]%string ShowTrue (3 # 10) (1 # 2) 10
    = Return ([] ++ left_texts ++ right_texts) ∧
    text_s <$> left_texts ≡ₚ (if shows_left ShowTrue then entities else []) ∧
    text_s <$> right_texts ≡ₚ (if shows_right ShowTrue then entities else []).
Proof.
  intros df prepared_df.
  apply (chart_labels_from_values (C:=string) [] df None value true Min prepared_df
           ["red"; "blue"]%string ShowTrue (3 # 10) (1 # 2) 10).
  - vm_compute. reflexivity.
  - vm_compute. lia.
Defined.
End FrameInstances.

(** * Label layout: how far the labels move *)

Section LayoutFacts.
Import Labels.

Lemma sorted_short (labels : list Label) :
  (length labels ≤ 1)%nat → sorted labels = labels.
Proof. destruct labels as [|a [|b l]]; simpl; [done|done|lia]. Qed.

Lemma adjust_from_ge (d : Q) (rest : list Label) :
  ∀ prev,
    Forall2 (λ a b : Label, b.1 = a.1 ∧ (a.2 <= b.2)%Q)
            rest (adjust_from d prev rest).
Proof.
  induction rest as [|[text y] rest IH]; intros prev; simpl; [constructor|].
  constructor; [|apply IH]. split; [done|]. simpl.
  destruct (Qltb (y - prev) d) eqn:E; [|lra].
  apply Qltb_lt in E. lra.
Qed.

Lemma adjust_ge (d : Q) (s : list Label) :
  Forall2 (λ a b : Label, b.1 = a.1 ∧ (a.2 <= b.2)%Q) s (adjust d s).
Proof.
  destruct s as [|[text y] rest]; simpl; [constructor|].
  constructor; [|apply adjust_from_ge]. split; [done|]. simpl. lra.
Qed.

Lemma adjust_nonpositive (d : Q) (s : list Label) :
  (d <= 0)%Q → in_order by_y s → adjust d s = s.
Proof.
  intros Hd Hs. destruct s as [|[text y] rest]; [done|]. simpl.
  rewrite adjust_from_fixed; [done|]. by apply (in_order_gaps d rest) in Hs.
Qed.

End LayoutFacts.

(** * Label layout: properties of the displacement *)

Section LayoutProperties.
Import Labels.

(** X22: [detect_label_collisions] never moves a label to a smaller
    position: entry [i] of the output has the text of entry [i] of the
    input sorted by position, at that position or further on, for every
    [min_distance]. *)
Theorem detect_label_collisions_pushes_on (labels : list Label)
    (min_distance : Q) (out : list Label) :
  detect_label_collisions labels min_distance = Ok out →
  Forall2 (λ a b : Label, b.1 = a.1 ∧ (a.2 <= b.2)%Q) (sorted labels) out.
Proof.
  rewrite detect_label_collisions_eq. intros [= <-].
  destruct (length labels <=? 1)%nat eqn:Hlen; [|apply adjust_ge].
  apply Nat.leb_le in Hlen. rewrite sorted_short by done.
  apply Forall2_same_length_lookup_2; [done|].
  intros i a b Ha Hb. simplify_eq. split; [done|lra].
Qed.

(** X23: for [min_distance <= 0] no label is moved:
    [detect_label_collisions] returns the labels sorted by position. *)
Theorem detect_label_collisions_no_distance (labels : list Label)
    (min_distance : Q) :
  (min_distance <= 0)%Q →
  detect_label_collisions labels min_distance = Ok (sorted labels).
Proof.
  intros Hd. rewrite detect_label_collisions_eq. f_equal.
  destruct (length labels <=? 1)%nat eqn:Hlen.
  - apply Nat.leb_le in Hlen. by rewrite sorted_short.
  - apply adjust_nonpositive; [done|apply sorted_in_order].
Qed.


Lemma detect_label_collisions_pushes_on_witness :
  Forall2 (λ a b : Label, b.1 = a.1 ∧ (a.2 <= b.2)%Q)
    (sorted [("Z"%string, 115 # 100); ("X"%string, 1%Q); ("Y"%string, 11 # 10)])
    [("X"%string, 1%Q); ("Y"%string, 1 + (1 # 2))%Q;
     ("Z"%string, (1 + (1 # 2)) + (1 # 2))%Q].
Proof.
  apply (detect_label_collisions_pushes_on
           [("Z"%string, 115 # 100); ("X"%string, 1%Q); ("Y"%string, 11 # 10)]
           (1 # 2)).
  vm_compute. reflexivity.
Defined.

Lemma detect_label_collisions_no_distance_witness :
  detect_label_collisions [("B"%string, 2%Q); ("A"%string, 1%Q); ("C"%string, 1%Q)] 0
  = Ok (sorted [("B"%string, 2%Q); ("A"%string, 1%Q); ("C"%string, 1%Q)]).
Proof.
  apply (detect_label_collisions_no_distance
           [("B"%string, 2%Q); ("A"%string, 1%Q); ("C"%string, 1%Q)] 0).
  discriminate.
Defined.

End LayoutProperties.

(** * Label drawing: the order of the labels of a side *)

Section LabelOrderFacts.
Import Labels Data Drawing.
Context {C : Type}.

(** The output of [detect_label_collisions] is in ascending order of
    position, whatever the distance. *)
Lemma detect_label_collisions_ascending (positions adjusted : list Label) (d : Q) :
  detect_label_collisions positions d = Ok adjusted →
  ∀ i j a b, (i < j)%nat → adjusted !! i = Some a → adjusted !! j = Some b →
             (a.2 <= b.2)%Q.
Proof.
  rewrite detect_label_collisions_eq. intros [= <-] i j a b Hij Ha Hb.
  destruct (length positions <=? 1)%nat eqn:Hlen.
  - apply Nat.leb_le in Hlen. apply lookup_lt_Some in Hb. lia.
  - apply Qle_bool_iff.
    apply (in_order_lookup by_y (adjust d (sorted positions))
             (adjust_in_order d _ (sorted_in_order positions)) i j a b Hij Ha Hb).
Qed.

(** Every entry of the output is an entry of the input, at its position
    or further on. *)
Lemma detect_label_collisions_above (positions adjusted : list Label) (d : Q)
    (b : Label) :
  detect_label_collisions positions d = Ok adjusted → b ∈ adjusted →
  ∃ a, a ∈ positions ∧ a.1 = b.1 ∧ (a.2 <= b.2)%Q.
Proof.
  rewrite detect_label_collisions_eq. intros [= <-] Hb.
  destruct (length positions <=? 1)%nat.
  - exists b. split; [done|]. split; [done|lra].
  - apply list_elem_of_lookup in Hb as [i Hi].
    destruct (Forall2_lookup_r _ _ _ _ _ (adjust_ge d (sorted positions)) Hi)
      as (a & Ha & Hname & Hle).
    exists a. split; [|by split].
    apply list_elem_of_lookup_2 in Ha. unfold sorted in Ha.
    by rewrite stable_sort_perm in Ha.
Qed.

Lemma position_of_name (entity_data : gmap string Series) (side : Side)
    (entity : string) (a : Label) :
  position_of entity_data side entity = Some a → a.1 = entity.
Proof.
  unfold position_of.
  destruct (entity_data !! entity) as [[times ranks]|]; [|done]. simpl.
  destruct (endpoint_value side (valid_ranks ranks)); [|done]. simpl.
  by intros [= <-].
Qed.

(** The texts of one side are drawn in ascending order of position. *)
Lemma side_texts_ascending (entities : list string)
    (entity_data : gmap string Series) (entity_colors : gmap string C)
    (side : Side) (shown : bool) (pad d fs : Q) (texts : list (Text C)) :
  side_texts entities entity_data entity_colors side shown pad d fs texts →
  ∀ i j a b, (i < j)%nat → texts !! i = Some a → texts !! j = Some b →
             (text_y a <= text_y b)%Q.
Proof.
  unfold side_texts. destruct shown; [|by intros -> i j a b _ Ha].
  intros (adjusted & Hdet & Htexts) i j a b Hij Ha Hb.
  apply texts_fields in Htexts as (_ & Hy & _).
  assert (adjusted.*2 !! i = Some (text_y a)) as Hi
    by (by rewrite <- Hy, list_lookup_fmap, Ha).
  assert (adjusted.*2 !! j = Some (text_y b)) as Hj
    by (by rewrite <- Hy, list_lookup_fmap, Hb).
  rewrite list_lookup_fmap in Hi, Hj.
  destruct (adjusted !! i) as [a'|] eqn:Ha'; [|done].
  destruct (adjusted !! j) as [b'|] eqn:Hb'; [|done].
  simplify_eq/=.
  pose proof (detect_label_collisions_ascending _ _ _ Hdet i j a' b' Hij Ha' Hb').
  by rewrite <- Hi, <- Hj.
Qed.

(** No text is drawn before the endpoint of its entity. *)
Lemma side_texts_above (entities : list string)
    (entity_data : gmap string Series) (entity_colors : gmap string C)
    (side : Side) (shown : bool) (pad d fs : Q) (texts : list (Text C)) :
  side_texts entities entity_data entity_colors side shown pad d fs texts →
  Forall (λ t, ∃ y, position_of entity_data side (text_s t) = Some (text_s t, y) ∧
                    (y <= text_y t)%Q) texts.
Proof.
  unfold side_texts. destruct shown; [|by intros ->].
  intros (adjusted & Hdet & Htexts).
  apply Forall_forall. intros t Ht.
  apply list_elem_of_lookup in Ht as [i Hi].
  destruct (Forall2_lookup_r _ _ _ _ _ Htexts Hi) as (item & Hitem & Htext).
  apply text_of_fields in Htext as (Hs & Hy & _).
  apply list_elem_of_lookup_2 in Hitem.
  destruct (detect_label_collisions_above _ _ _ _ Hdet Hitem)
    as (a & Ha & Hname & Hle).
  apply list_elem_of_omap in Ha as (entity & _ & Hpos).
  pose proof (position_of_name _ _ _ _ Hpos) as He.
  exists a.2. rewrite Hs, Hy, <- Hname, He. split; [|done].
  rewrite Hpos. f_equal. destruct a. simpl in He. by subst.
Qed.
End LabelOrderFacts.

Section LabelOrderProperties.
Import Labels Data Drawing.
Context {C : Type}.

(** X9: when every entity has its two arrays, of one length, and there
    are at least as many colours as entities, the texts that
    [add_labels_with_collision_avoidance] adds on a side are in ascending
    order of position, and none is drawn before the endpoint of its
    entity: collisions are resolved by moving labels onward only. *)
Theorem labels_of_a_side_in_order (ax : list (Text C))
    (entities : list string) (entity_data : gmap string Series) (colors : list C)
    (show_labels : LabelPosition) (label_padding min_label_distance fontsize : Q) :
  (∀ e, e ∈ entities →
        ∃ times ranks, entity_data !! e = Some (times, ranks) ∧
                       length times = length ranks) →
  (length entities ≤ length colors)%nat →
  ∃ left_texts right_texts,
    add_labels_with_collision_avoidance ax entities entity_data colors show_labels
      label_padding min_label_distance fontsize
    = Return (ax ++ left_texts ++ right_texts) ∧
    (∀ i j a b, (i < j)%nat → left_texts !! i = Some a → left_texts !! j = Some b →
                (text_y a <= text_y b)%Q) ∧
    (∀ i j a b, (i < j)%nat → right_texts !! i = Some a → right_texts !! j = Some b →
                (text_y a <= text_y b)%Q) ∧
    Forall (λ t, ∃ y, position_of entity_data SideLeft (text_s t)
                      = Some (text_s t, y) ∧ (y <= text_y t)%Q) left_texts ∧
    Forall (λ t, ∃ y, position_of entity_data SideRight (text_s t)
                      = Some (text_s t, y) ∧ (y <= text_y t)%Q) right_texts.
Proof.
  intros Hdata Hlen.
  destruct (add_labels_with_collision_avoidance_spec ax entities entity_data colors
              show_labels label_padding min_label_distance fontsize Hdata Hlen)
    as (l & r & Hret & Hl & Hr).
  exists l, r. split; [done|].
  split; [by eapply side_texts_ascending|].
  split; [by eapply side_texts_ascending|].
  split; by eapply side_texts_above.
Qed.
End LabelOrderProperties.

Section LabelOrderInstances.
Import Labels Data Drawing.

Lemma labels_of_a_side_in_order_witness :
  let entities := ["A"; "B"]%string in
  let entity_data : gmap string Series :=
    <["A"%string := ([2020; 2021]%Z, [Some 1%Q; Some 2%Q])]>
      (<["B"%string := ([2020; 2021]%Z, [Some (11 # 10); Some 2%Q])]> ∅) in
  ∃ left_texts right_texts,
    add_labels_with_collision_avoidance [] entities entity_data
      ["red"; "blue"]%string ShowTrue (3 # 10) (1 # 2) 10
    = Return ([] ++ left_texts ++ right_texts) ∧
    (∀ i j a b, (i < j)%nat → left_texts !! i = Some a → left_texts !! j = Some b →
                (text_y a <= text_y b)%Q) ∧
    (∀ i j a b, (i < j)%nat → right_texts !! i = Some a → right_texts !! j = Some b →
                (text_y a <= text_y b)%Q) ∧
    Forall (λ t, ∃ y, position_of entity_data SideLeft (text_s t)
                      = Some (text_s t, y) ∧ (y <= text_y t)%Q) left_texts ∧
    Forall (λ t, ∃ y, position_of entity_data SideRight (text_s t)
                      = Some (text_s t, y) ∧ (y <= text_y t)%Q) right_texts.
Proof.
  intros entities entity_data.
  apply (labels_of_a_side_in_order (C:=string) [] entities entity_data
           ["red"; "blue"]%string ShowTrue (3 # 10) (1 # 2) 10).
  - intros e He. apply elem_of_cons in He as [->|He].
    + eexists _, _. split; reflexivity.
    + apply list_elem_of_singleton in He as ->. eexists _, _. split; reflexivity.
  - simpl. lia.
Defined.
End LabelOrderInstances.
